(** * Merge-compaction task of the table store (package [jobs])

    A shallow embedding of [mergeObjectsTask] and [HandleMergeEntryInTxn].
    The catalog, the transaction, the block reader and the sort-merge-write
    engine are collaborators that live in other packages: they are taken as
    an arbitrary deterministic implementation over an abstract state, and
    every call the task makes on them is recorded, with its result, in a
    trace.  The statements below are about these traces and about the values
    the task's functions return. *)

From Stdlib Require Import ZArith Lia.
From stdpp Require Import base option list strings.

Local Open Scope Z_scope.
Local Open Scope string_scope.
Local Open Scope list_scope.

(** Go's [error] values.  Two errors are the same value when they are equal. *)
Definition error := string.

(** ** Data of the collaborating packages *)

Module objectio.
(** An object identifier; only its identity matters here. *)
Definition ObjectId := N.

(** [stats.ObjectName().ObjectId()] is the identifier embedded in the
    statistics; the other fields are payload. *)
Record ObjectStats := {
  ObjectName_ObjectId : ObjectId;
  Rows : N;
  BlkCnt : N
}.
End objectio.

Module catalog.
Record DBEntry := { db_ID : Z }.

Record TableEntry := {
  tbl_ID : Z;
  GetDB : DBEntry
}.

(** A pointer to a [catalog.ObjectEntry]: what the task reads through it.  The
    sorted flag is mutable state of the catalog and is followed through
    the [SetSorted] calls of the trace. *)
Record ObjectEntry := {
  obj_ID : objectio.ObjectId;
  GetTable : TableEntry;
  BlockCnt : nat;
  GetObjectStats : objectio.ObjectStats
}.

Record ColDef := {
  col_Name : string;
  Idx : Z;
  SeqNum : Z;
  IsPhyAddr : bool
}.

(** Modelled from the spec: the sort-key accessors of [catalog.Schema]
    ([HasPK], [HasSortKey], [GetSingleSortKeyIdx]) are declared outside
    src/.  A table has a sort-key position or none, and the sort key may
    or may not be the primary key. *)
Record SortKeyDef := {
  sk_Idx : Z;
  sk_IsPrimary : bool
}.

Record Schema := {
  Name : string;
  Version : Z;
  BlockMaxRows : Z;
  ColDefs : list ColDef;
  SortKey : option SortKeyDef
}.

(** Modelled from the spec: [HasSortKey], declared outside src/; the
    table has a sort key. *)
Definition HasSortKey (s : Schema) : bool :=
  match SortKey s with Some _ => true | None => false end.

(** Modelled from the spec: [HasPK], declared outside src/; the table's
    sort key is its primary key. *)
Definition HasPK (s : Schema) : bool :=
  match SortKey s with Some k => sk_IsPrimary k | None => false end.

(** Modelled from the spec: [GetSingleSortKeyIdx], declared outside src/;
    the position of the sort key.  The task calls it only under [HasPK]
    or [HasSortKey]; [-1] stands for the call it never makes. *)
Definition GetSingleSortKeyIdx (s : Schema) : Z :=
  match SortKey s with Some k => sk_Idx k | None => -1 end.
End catalog.

Module txnif.
(** The transaction handle: its identity and its start timestamp. *)
Record AsyncTxn := {
  txn_ID : N;
  GetStartTS : Z
}.
End txnif.

Module dbutils.
(** The runtime is only handed on to collaborators. *)
Record Runtime := { rt_ID : N }.
End dbutils.

Module handle.
Record Database := { hdb_ID : Z }.

(** [Schema] is [rel.Schema()] asserted to the catalog's schema type; the
    assertion is taken to succeed. *)
Record Relation := {
  hrel_ID : Z;
  Schema : catalog.Schema
}.

(** [GetMeta] is [obj.GetMeta()] asserted to an object-entry pointer. *)
Record Object := {
  GetMeta : catalog.ObjectEntry
}.
End handle.

Module containers.
(** A column of a block view: [GetData().GetDownstreamVector()] is the
    vector, [Length()] its number of rows. *)
Record ColumnView := {
  GetData : list Z
}.

Definition Length (c : ColumnView) : nat := length (GetData c).

Record BlockView := {
  Columns : list ColumnView;
  DeleteMask : list nat
}.
End containers.

Module batch.
Record Batch := {
  Attrs : list string;
  Vecs : list (option (list Z));
  rowCount : nat
}.

(** [batch.New(true, attrs)]: one empty vector slot per attribute. *)
Definition New (attrs : list string) : Batch :=
  {| Attrs := attrs; Vecs := replicate (length attrs) None; rowCount := 0 |}.

Definition SetRowCount (n : nat) (b : Batch) : Batch :=
  {| Attrs := Attrs b; Vecs := Vecs b; rowCount := n |}.
End batch.

Module mergesort.
Record MergeCommitEntry := {
  DbID : Z;
  TableID : Z;
  Tablename : string;
  StartTs : Z;
  MergedObjs : list objectio.ObjectStats;
  CreatedObjectStats : list objectio.ObjectStats;
  Booking : list (nat * nat)
}.
End mergesort.

Module txnentries.
(** The log entry built by [NewMergeObjectsEntry]; opaque to the task. *)
Record MergeObjectsEntry := { entry_ID : N }.
End txnentries.

Module tasks.
Record Context := { ctx_ID : N }.
Inductive TaskType := DataCompactionTask.
Record BaseTask := {
  taskType : TaskType;
  ctx : Context
}.
Definition NewBaseTask (t : TaskType) (c : Context) : BaseTask :=
  {| taskType := t; ctx := c |}.
End tasks.

(** ** The task *)

Record mergeObjectsTask := {
  BaseTask : option tasks.BaseTask;
  txn : txnif.AsyncTxn;
  rt : dbutils.Runtime;
  mergedObjs : list catalog.ObjectEntry;
  mergedObjsHandle : list handle.Object;
  mergedBlkCnt : list nat;
  totalMergedBlkCnt : nat;
  createdBObjs : list catalog.ObjectEntry;
  commitEntry : option mergesort.MergeCommitEntry;
  rel : handle.Relation;
  did : Z;
  tid : Z
}.

(** What [PrepareNewWriterFunc] hands to [mergesort.GetMustNewWriter]. *)
Record WriterParams := {
  w_fs : N;
  w_ver : Z;
  w_seqnums : list Z;
  w_sortkeyPos : Z;
  w_sortkeyIsPK : bool
}.

(** ** Calls on the collaborators *)

Definition Res (A : Type) : Type := A + error.

Inductive Event :=
| EvGetDatabaseByID (t : txnif.AsyncTxn) (id : Z) (r : Res handle.Database)
| EvGetRelationByID (db : handle.Database) (id : Z) (r : Res handle.Relation)
| EvGetObject (rl : handle.Relation) (id : objectio.ObjectId)
    (r : Res handle.Object)
| EvSoftDeleteObject (rl : handle.Relation) (id : objectio.ObjectId)
    (r : Res unit)
| EvCreateNonAppendableObject (rl : handle.Relation) (is1PC : bool)
    (id : objectio.ObjectId) (r : Res handle.Object)
| EvUpdateStats (o : handle.Object) (stats : objectio.ObjectStats)
    (r : Res unit)
| EvSetSorted (o : catalog.ObjectEntry)
| EvNewMergeObjectsEntry (t : txnif.AsyncTxn) (rl : handle.Relation)
    (dropped created : list catalog.ObjectEntry) (booking : list (nat * nat))
    (r : Res txnentries.MergeObjectsEntry)
| EvLogTxnEntry (t : txnif.AsyncTxn) (dbID tableID : Z)
    (e : txnentries.MergeObjectsEntry) (ids : list N) (r : Res unit)
| EvGetColumnDataByIds (o : handle.Object) (blk : Z) (idxs : list Z)
    (r : Res containers.BlockView)
| EvClose (slot : nat) (v : containers.BlockView)
| EvDoMergeAndWrite (sortkeyPos maxRows : Z) (r : Res unit)
| EvLogError (op : option tasks.BaseTask) (err : error) (phase : string)
| EvPerfCounter.

(** The error a recorded call came back with, if any. *)
Definition res_err {A} (r : Res A) : option error :=
  match r with inl _ => None | inr e => Some e end.

Definition ev_err (ev : Event) : option error :=
  match ev with
  | EvGetDatabaseByID _ _ r => res_err r
  | EvGetRelationByID _ _ r => res_err r
  | EvGetObject _ _ r => res_err r
  | EvSoftDeleteObject _ _ r => res_err r
  | EvCreateNonAppendableObject _ _ _ r => res_err r
  | EvUpdateStats _ _ r => res_err r
  | EvSetSorted _ => None
  | EvNewMergeObjectsEntry _ _ _ _ _ r => res_err r
  | EvLogTxnEntry _ _ _ _ _ r => res_err r
  | EvGetColumnDataByIds _ _ _ r => res_err r
  | EvClose _ _ => None
  | EvDoMergeAndWrite _ _ r => res_err r
  | EvLogError _ _ _ => None
  | EvPerfCounter => None
  end.

(** The collaborators: each operation is a function of the abstract state
    [St].  A call either gives a result or an error (Go's convention that a
    non-nil error comes with no result). *)
Record Collaborators (St : Type) := {
  GetDatabaseByID : txnif.AsyncTxn -> Z -> St -> Res handle.Database * St;
  GetRelationByID : handle.Database -> Z -> St -> Res handle.Relation * St;
  GetObject : handle.Relation -> objectio.ObjectId -> St ->
              Res handle.Object * St;
  SoftDeleteObject : handle.Relation -> objectio.ObjectId -> St ->
                     Res unit * St;
  CreateNonAppendableObject : handle.Relation -> bool -> objectio.ObjectId ->
                              St -> Res handle.Object * St;
  UpdateStats : handle.Object -> objectio.ObjectStats -> St -> Res unit * St;
  NewMergeObjectsEntry : txnif.AsyncTxn -> handle.Relation ->
                         list catalog.ObjectEntry -> list catalog.ObjectEntry ->
                         list (nat * nat) -> dbutils.Runtime -> St ->
                         Res txnentries.MergeObjectsEntry * St;
  LogTxnEntry : txnif.AsyncTxn -> Z -> Z -> txnentries.MergeObjectsEntry ->
                list N -> St -> Res unit * St;
  GetColumnDataByIds : handle.Object -> Z -> list Z -> St ->
                       Res containers.BlockView * St;
  (** The engine works on the task through its host interface; what it
      leaves in [task.commitEntry] comes back with the result. *)
  DoMergeAndWrite : Z -> Z -> mergeObjectsTask -> St ->
                    (Res unit * option mergesort.MergeCommitEntry) * St
}.

Arguments GetDatabaseByID {St}.
Arguments GetRelationByID {St}.
Arguments GetObject {St}.
Arguments SoftDeleteObject {St}.
Arguments CreateNonAppendableObject {St}.
Arguments UpdateStats {St}.
Arguments NewMergeObjectsEntry {St}.
Arguments LogTxnEntry {St}.
Arguments GetColumnDataByIds {St}.
Arguments DoMergeAndWrite {St}.

(** ** The monad of the task: state, trace, errors and panics *)

Inductive Outcome (A : Type) :=
| Ok (a : A)
| Err (e : error)
| Panic (msg : string).

Arguments Ok {A}.
Arguments Err {A}.
Arguments Panic {A}.

Definition M (St A : Type) : Type := St -> Outcome A * St * list Event.

Definition ret {St A} (a : A) : M St A := fun s => (Ok a, s, []).

Definition throw {St A} (e : error) : M St A := fun s => (Err e, s, []).

Definition panic {St A} (msg : string) : M St A := fun s => (Panic msg, s, []).

Definition bind {St A B} (m : M St A) (k : A -> M St B) : M St B :=
  fun s =>
    match m s with
    | (Ok a, s1, t1) => let '(o, s2, t2) := k a s1 in (o, s2, t1 ++ t2)
    | (Err e, s1, t1) => (Err e, s1, t1)
    | (Panic p, s1, t1) => (Panic p, s1, t1)
    end.

(** [v, err := f(...)] followed by a test of [err]: the error becomes a
    value. *)
Definition try {St A} (m : M St A) : M St (Res A) :=
  fun s =>
    match m s with
    | (Ok a, s1, t1) => (Ok (inl a), s1, t1)
    | (Err e, s1, t1) => (Ok (inr e), s1, t1)
    | (Panic p, s1, t1) => (Panic p, s1, t1)
    end.

(** A call on a collaborator: run it, record it, and turn its error into
    [Err]. *)
Definition call {St A} (f : St -> Res A * St) (ev : Res A -> Event)
  : M St A :=
  fun s =>
    let '(r, s1) := f s in
    (match r with inl a => Ok a | inr e => Err e end, s1, [ev r]).

(** A call that cannot fail. *)
Definition emit {St} (ev : Event) : M St unit := fun s => (Ok tt, s, [ev]).

Declare Scope task_scope.
Delimit Scope task_scope with task.
Notation "x <- m ;; k" := (bind m (fun x => k))
  (at level 100, m at next level, right associativity) : task_scope.
Notation "m ;;; k" := (bind m (fun _ => k))
  (at level 100, right associativity) : task_scope.
Local Open Scope task_scope.

(** ** The functions of the task *)

Section Task.
Context {St : Type} (X : Collaborators St).

#[local] Abbreviation M := (M St).

(** [for i, obj := range mergedObjs]: [mergedBlkCnt[i]] is the running
    total before object [i], and the total grows by [obj.BlockCnt()]. *)
Fixpoint blkOffsets (objs : list catalog.ObjectEntry) (total : nat)
  : list nat * nat :=
  match objs with
  | [] => ([], total)
  | obj :: rest =>
      let '(offs, tot) := blkOffsets rest (total + catalog.BlockCnt obj)%nat in
      (total :: offs, tot)
  end.

(** [for _, meta := range mergedObjs]: every handle is looked up in the one
    relation [rl]. *)
Fixpoint resolveHandles (rl : handle.Relation)
    (metas : list catalog.ObjectEntry) (handles : list handle.Object)
  : M (list handle.Object) :=
  match metas with
  | [] => ret handles
  | meta :: rest =>
      obj <- call (GetObject X rl (catalog.obj_ID meta))
                  (EvGetObject rl (catalog.obj_ID meta)) ;;
      resolveHandles rl rest (handles ++ [obj])
  end.

(** On the two early [return]s Go hands back the partly built task with
    the error; callers drop it, and so does [Err]. *)
Definition NewMergeObjectsTask (ctx : tasks.Context) (txn : txnif.AsyncTxn)
    (mergedObjs : list catalog.ObjectEntry) (rt : dbutils.Runtime)
  : M mergeObjectsTask :=
  match mergedObjs with
  | [] => panic "empty mergedObjs"
  | first :: _ =>
      let '(offs, total) := blkOffsets mergedObjs 0 in
      let did := catalog.db_ID (catalog.GetDB (catalog.GetTable first)) in
      database <- call (GetDatabaseByID X txn did)
                       (EvGetDatabaseByID txn did) ;;
      let tid := catalog.tbl_ID (catalog.GetTable first) in
      rl <- call (GetRelationByID X database tid)
                 (EvGetRelationByID database tid) ;;
      handles <- resolveHandles rl mergedObjs [] ;;
      ret {| BaseTask := Some (tasks.NewBaseTask tasks.DataCompactionTask ctx);
             txn := txn;
             rt := rt;
             mergedObjs := mergedObjs;
             mergedObjsHandle := handles;
             mergedBlkCnt := offs;
             totalMergedBlkCnt := total;
             createdBObjs := [];
             commitEntry := None;
             rel := rl;
             did := did;
             tid := tid |}
  end.

(** *** PrepareData *)

Definition uint16 (j : nat) : Z := Z.of_nat j mod 65536.

(** [releaseF]: close every view that is not nil, in slot order. *)
Fixpoint closeFrom (k : nat) (views : list (option containers.BlockView))
  : M unit :=
  match views with
  | [] => ret tt
  | None :: rest => closeFrom (S k) rest
  | Some v :: rest => emit (EvClose k v) ;;; closeFrom (S k) rest
  end.

Definition releaseF (views : list (option containers.BlockView)) : M unit :=
  closeFrom 0 views.

(** [for _, def := range schema.ColDefs], skipping the physical-address
    column. *)
Fixpoint collectCols (defs : list catalog.ColDef)
    (idxs : list Z) (attrs : list string) : list Z * list string :=
  match defs with
  | [] => (idxs, attrs)
  | def :: rest =>
      if catalog.IsPhyAddr def then collectCols rest idxs attrs
      else collectCols rest (idxs ++ [catalog.Idx def])
                            (attrs ++ [catalog.col_Name def])
  end.

(** [a[k]] and [a[k] = x]: out of range is a run-time panic. *)
Definition index {A} (a : list A) (k : nat) : M A :=
  match a !! k with
  | Some x => ret x
  | None => panic "index out of range"
  end.

Definition store {A} (a : list A) (k : nat) (x : A) : M (list A) :=
  if decide (k < length a)%nat then ret (<[k := x]> a)
  else panic "index out of range".

(** [for j := 0; j < maxBlockOffset-minBlockOffset; j++]: [n] blocks are
    still to be read.  A failed read leaves nil in its slot and stops. *)
Fixpoint readBlocks (obj : handle.Object) (idxs : list Z)
    (minBlockOffset n j : nat) (views : list (option containers.BlockView))
  : M (list (option containers.BlockView) * option error) :=
  match n with
  | O => ret (views, None)
  | S n' =>
      r <- try (call (GetColumnDataByIds X obj (uint16 j) idxs)
                     (EvGetColumnDataByIds obj (uint16 j) idxs)) ;;
      views' <- store views (minBlockOffset + j)%nat
                  (match r with inl v => Some v | inr _ => None end) ;;
      match r with
      | inr e => ret (views', Some e)
      | inl _ => readBlocks obj idxs minBlockOffset n' (S j) views'
      end
  end.

(** [for i, obj := range task.mergedObjsHandle]. *)
Fixpoint readObjects (task : mergeObjectsTask) (idxs : list Z)
    (handles : list handle.Object) (i : nat)
    (views : list (option containers.BlockView))
  : M (list (option containers.BlockView) * option error) :=
  match handles with
  | [] => ret (views, None)
  | obj :: rest =>
      maxBlockOffset <-
        (if decide (Z.of_nat i <> Z.of_nat (length (mergedObjs task)) - 1)
         then index (mergedBlkCnt task) (i + 1)
         else ret (totalMergedBlkCnt task)) ;;
      minBlockOffset <- index (mergedBlkCnt task) i ;;
      r <- readBlocks obj idxs minBlockOffset
             (maxBlockOffset - minBlockOffset) 0 views ;;
      match r with
      | (views', Some e) => ret (views', Some e)
      | (views', None) => readObjects task idxs rest (S i) views'
      end
  end.

(** [for i, col := range view.Columns { batch.Vecs[i] = ... }]. *)
Fixpoint setVecs (cols : list containers.ColumnView) (i : nat)
    (vecs : list (option (list Z))) : list (option (list Z)) :=
  match cols with
  | [] => vecs
  | col :: rest =>
      setVecs rest (S i) (<[i := Some (containers.GetData col)]> vecs)
  end.

Definition mismatch : string := "mismatch".

(** [for _, view := range views]: one batch and one mask per slot. *)
Fixpoint buildBatches (attrs : list string)
    (views : list (option containers.BlockView))
    (batches : list batch.Batch) (dels : list (list nat))
  : M (list batch.Batch * list (list nat)) :=
  match views with
  | [] => ret (batches, dels)
  | None :: _ => panic "nil pointer dereference"
  | Some view :: rest =>
      let b := batch.New attrs in
      if decide (length attrs <> length (containers.Columns view))
      then panic mismatch
      else
        let b := {| batch.Attrs := batch.Attrs b;
                    batch.Vecs := setVecs (containers.Columns view) 0
                                    (batch.Vecs b);
                    batch.rowCount := batch.rowCount b |} in
        match containers.Columns view with
        | [] => panic "index out of range"
        | c0 :: _ =>
            buildBatches attrs rest
              (batches ++ [batch.SetRowCount (containers.Length c0) b])
              (dels ++ [containers.DeleteMask view])
        end
  end.

(** The deferred function releases the views when [err] is set; a panic
    leaves [err] nil, so nothing is released then.  On success the release
    function is returned to the caller. *)
Definition PrepareData (task : mergeObjectsTask)
  : M (list batch.Batch * list (list nat) * M unit) :=
  let views := replicate (totalMergedBlkCnt task) None in
  let schema := handle.Schema (rel task) in
  if decide (length (catalog.ColDefs schema) = 0%nat)
  then panic "makeslice: cap out of range"
  else
    let '(idxs, attrs) := collectCols (catalog.ColDefs schema) [] [] in
    r <- readObjects task idxs (mergedObjsHandle task) 0 views ;;
    match r with
    | (views', Some e) => releaseF views' ;;; throw e
    | (views', None) =>
        bd <- buildBatches attrs views' [] [] ;;
        ret (fst bd, snd bd, releaseF views')
    end.

(** *** PrepareCommitEntry, PrepareNewWriterFunc *)

(** The entry is built and also kept in [task.commitEntry]. *)
Definition PrepareCommitEntry (task : mergeObjectsTask)
  : mergeObjectsTask * mergesort.MergeCommitEntry :=
  let schema := handle.Schema (rel task) in
  let commitEntry :=
    {| mergesort.DbID := did task;
       mergesort.TableID := tid task;
       mergesort.Tablename := catalog.Name schema;
       mergesort.StartTs := txnif.GetStartTS (txn task);
       mergesort.MergedObjs := map catalog.GetObjectStats (mergedObjs task);
       mergesort.CreatedObjectStats := [];
       mergesort.Booking := [] |} in
  ({| BaseTask := BaseTask task; txn := txn task; rt := rt task;
      mergedObjs := mergedObjs task;
      mergedObjsHandle := mergedObjsHandle task;
      mergedBlkCnt := mergedBlkCnt task;
      totalMergedBlkCnt := totalMergedBlkCnt task;
      createdBObjs := createdBObjs task;
      commitEntry := Some commitEntry;
      rel := rel task; did := did task; tid := tid task |},
   commitEntry).

Fixpoint collectSeqnums (defs : list catalog.ColDef) (seqnums : list Z)
  : list Z :=
  match defs with
  | [] => seqnums
  | def :: rest =>
      if catalog.IsPhyAddr def then collectSeqnums rest seqnums
      else collectSeqnums rest (seqnums ++ [catalog.SeqNum def])
  end.

(** The writer factory is [GetMustNewWriter] applied to these arguments. *)
Definition PrepareNewWriterFunc (task : mergeObjectsTask)
  : Outcome WriterParams :=
  let schema := handle.Schema (rel task) in
  if decide (length (catalog.ColDefs schema) = 0%nat)
  then Panic "makeslice: cap out of range"
  else
    let seqnums := collectSeqnums (catalog.ColDefs schema) [] in
    let '(sortkeyPos, sortkeyIsPK) :=
      if catalog.HasPK schema
      then (catalog.GetSingleSortKeyIdx schema, true)
      else if catalog.HasSortKey schema
      then (catalog.GetSingleSortKeyIdx schema, false)
      else (-1, false) in
    Ok {| w_fs := dbutils.rt_ID (rt task);
          w_ver := catalog.Version schema;
          w_seqnums := seqnums;
          w_sortkeyPos := sortkeyPos;
          w_sortkeyIsPK := sortkeyIsPK |}.

(** *** HandleMergeEntryInTxn *)

(** [for _, drop := range entry.MergedObjs]. *)
Fixpoint dropMerged (rl : handle.Relation)
    (drops : list objectio.ObjectStats)
    (mergedObjs : list catalog.ObjectEntry)
  : M (list catalog.ObjectEntry) :=
  match drops with
  | [] => ret mergedObjs
  | drop :: rest =>
      let objID := objectio.ObjectName_ObjectId drop in
      obj <- call (GetObject X rl objID) (EvGetObject rl objID) ;;
      let mergedObjs := mergedObjs ++ [handle.GetMeta obj] in
      call (SoftDeleteObject X rl objID) (EvSoftDeleteObject rl objID) ;;;
      dropMerged rl rest mergedObjs
  end.

(** [for _, stats := range entry.CreatedObjectStats]. *)
Fixpoint createObjs (rl : handle.Relation)
    (statsl : list objectio.ObjectStats)
    (createdObjs : list catalog.ObjectEntry)
  : M (list catalog.ObjectEntry) :=
  match statsl with
  | [] => ret createdObjs
  | stats :: rest =>
      let objID := objectio.ObjectName_ObjectId stats in
      obj <- call (CreateNonAppendableObject X rl false objID)
                  (EvCreateNonAppendableObject rl false objID) ;;
      let createdObjs := createdObjs ++ [handle.GetMeta obj] in
      call (UpdateStats X obj stats) (EvUpdateStats obj stats) ;;;
      emit (EvSetSorted (handle.GetMeta obj)) ;;;
      createObjs rl rest createdObjs
  end.

(** [entry] is a pointer; reading [entry.DbID] through nil panics. *)
Definition HandleMergeEntryInTxn (txn : txnif.AsyncTxn)
    (entry : option mergesort.MergeCommitEntry) (rt : dbutils.Runtime)
  : M (list catalog.ObjectEntry) :=
  match entry with
  | None => panic "nil pointer dereference"
  | Some entry =>
      database <- call (GetDatabaseByID X txn (mergesort.DbID entry))
                       (EvGetDatabaseByID txn (mergesort.DbID entry)) ;;
      rl <- call (GetRelationByID X database (mergesort.TableID entry))
                 (EvGetRelationByID database (mergesort.TableID entry)) ;;
      mergedObjs <- dropMerged rl (mergesort.MergedObjs entry) [] ;;
      createdObjs <- createObjs rl (mergesort.CreatedObjectStats entry) [] ;;
      txnEntry <-
        call (NewMergeObjectsEntry X txn rl mergedObjs createdObjs
                (mergesort.Booking entry) rt)
             (EvNewMergeObjectsEntry txn rl mergedObjs createdObjs
                (mergesort.Booking entry)) ;;
      call (LogTxnEntry X txn (mergesort.DbID entry)
              (mergesort.TableID entry) txnEntry [])
           (EvLogTxnEntry txn (mergesort.DbID entry)
              (mergesort.TableID entry) txnEntry []) ;;;
      ret createdObjs
  end.

(** *** Execute *)

Definition set_commitEntry (task : mergeObjectsTask)
    (ce : option mergesort.MergeCommitEntry) : mergeObjectsTask :=
  {| BaseTask := BaseTask task; txn := txn task; rt := rt task;
     mergedObjs := mergedObjs task;
     mergedObjsHandle := mergedObjsHandle task;
     mergedBlkCnt := mergedBlkCnt task;
     totalMergedBlkCnt := totalMergedBlkCnt task;
     createdBObjs := createdBObjs task;
     commitEntry := ce;
     rel := rel task; did := did task; tid := tid task |}.

Definition set_createdBObjs (task : mergeObjectsTask)
    (objs : list catalog.ObjectEntry) : mergeObjectsTask :=
  {| BaseTask := BaseTask task; txn := txn task; rt := rt task;
     mergedObjs := mergedObjs task;
     mergedObjsHandle := mergedObjsHandle task;
     mergedBlkCnt := mergedBlkCnt task;
     totalMergedBlkCnt := totalMergedBlkCnt task;
     createdBObjs := objs;
     commitEntry := commitEntry task;
     rel := rel task; did := did task; tid := tid task |}.

(** The engine is called with the task as its host. *)
Definition doMergeAndWrite (sortkeyPos maxRows : Z) (task : mergeObjectsTask)
  : M (Res unit * option mergesort.MergeCommitEntry) :=
  fun s =>
    let '(r, ce, s1) := DoMergeAndWrite X sortkeyPos maxRows task s in
    (Ok (r, ce), s1, [EvDoMergeAndWrite sortkeyPos maxRows r]).

Definition phase1 : string := "1-DoMergeAndWrite".
Definition phase2 : string := "2-HandleMergeEntryInTxn".

(** The body of [Execute]: the task as it leaves it, the value of [err]
    and the value of [phaseDesc] at the [return]. *)
Definition Execute_body (task : mergeObjectsTask)
  : M (mergeObjectsTask * option error * string) :=
  let schema := handle.Schema (rel task) in
  let sortkeyPos :=
    if catalog.HasSortKey schema then catalog.GetSingleSortKeyIdx schema
    else -1 in
  let phaseDesc := phase1 in
  r1 <- doMergeAndWrite sortkeyPos (catalog.BlockMaxRows schema) task ;;
  let task := set_commitEntry task (snd r1) in
  match fst r1 with
  | inr e => ret (task, Some e, phaseDesc)
  | inl _ =>
      let phaseDesc := phase2 in
      r2 <- try (HandleMergeEntryInTxn (txn task) (commitEntry task)
                   (rt task)) ;;
      match r2 with
      | inr e => ret (set_createdBObjs task [], Some e, phaseDesc)
      | inl objs =>
          emit EvPerfCounter ;;;
          ret (set_createdBObjs task objs, None, phaseDesc)
      end
  end.

(** The deferred function logs the error with the phase when [err] is
    set. *)
Definition Execute (task : mergeObjectsTask)
  : M (mergeObjectsTask * option error) :=
  r <- Execute_body task ;;
  match r with
  | (task', Some e, phaseDesc) =>
      emit (EvLogError (BaseTask task') e phaseDesc) ;;;
      ret (task', Some e)
  | (task', None, _) => ret (task', None)
  end.

Definition GetCreatedObjects (task : mergeObjectsTask)
  : list catalog.ObjectEntry := createdBObjs task.

End Task.

Arguments releaseF {St}.
Arguments closeFrom {St}.
Arguments PrepareCommitEntry : simpl never.

(** ** A scripted collaborator

    A concrete implementation used to run the task: the state counts the
    calls made so far, and the call whose number is [failAt] fails.  Every
    relation has the schema [schema], every looked-up or created object has
    [blocks] blocks, and a block view has the columns [cols] gives for the
    requested indices. *)

Module Sim.
Record Script := {
  failAt : option nat;
  schema : catalog.Schema;
  blocks : nat;
  cols : Z -> list Z -> list containers.ColumnView;
  created : list objectio.ObjectStats
}.

Definition injected : error := "injected failure".

Definition step {A} (sc : Script) (a : A) (n : nat) : Res A * nat :=
  (if decide (failAt sc = Some n) then inr injected else inl a, S n).

Definition object (sc : Script) (rl : handle.Relation)
    (id : objectio.ObjectId) : handle.Object :=
  {| handle.GetMeta :=
       {| catalog.obj_ID := id;
          catalog.GetTable :=
            {| catalog.tbl_ID := handle.hrel_ID rl;
               catalog.GetDB := {| catalog.db_ID := 1 |} |};
          catalog.BlockCnt := blocks sc;
          catalog.GetObjectStats :=
            {| objectio.ObjectName_ObjectId := id;
               objectio.Rows := 0%N;
               objectio.BlkCnt := N.of_nat (blocks sc) |}
       |} |}.

(** The engine leaves the entry of [PrepareCommitEntry] in the task, with
    the scripted statistics of the objects it wrote. *)
Definition engine (sc : Script) (task : mergeObjectsTask)
  : mergesort.MergeCommitEntry :=
  let e := snd (PrepareCommitEntry task) in
  {| mergesort.DbID := mergesort.DbID e;
     mergesort.TableID := mergesort.TableID e;
     mergesort.Tablename := mergesort.Tablename e;
     mergesort.StartTs := mergesort.StartTs e;
     mergesort.MergedObjs := mergesort.MergedObjs e;
     mergesort.CreatedObjectStats := created sc;
     mergesort.Booking := [(0, 0)%nat] |}.

Definition X (sc : Script) : Collaborators nat :=
  {| GetDatabaseByID := fun _ id => step sc {| handle.hdb_ID := id |};
     GetRelationByID := fun _ id =>
       step sc {| handle.hrel_ID := id; handle.Schema := schema sc |};
     GetObject := fun rl id => step sc (object sc rl id);
     SoftDeleteObject := fun _ _ => step sc tt;
     CreateNonAppendableObject := fun rl _ id => step sc (object sc rl id);
     UpdateStats := fun _ _ => step sc tt;
     NewMergeObjectsEntry := fun _ _ _ _ _ _ n =>
       step sc {| txnentries.entry_ID := N.of_nat n |} n;
     LogTxnEntry := fun _ _ _ _ _ => step sc tt;
     GetColumnDataByIds := fun _ blk idxs =>
       step sc {| containers.Columns := cols sc blk idxs;
                  containers.DeleteMask := [] |};
     DoMergeAndWrite := fun _ _ task n =>
       let '(r, n') := step sc tt n in
       (r, match r with inl _ => Some (engine sc task) | inr _ => None end,
        n') |}.

(** A table with the physical-address column and two data columns. *)
Definition colA : catalog.ColDef :=
  {| catalog.col_Name := "a"; catalog.Idx := 0; catalog.SeqNum := 0;
     catalog.IsPhyAddr := false |}.
Definition colB : catalog.ColDef :=
  {| catalog.col_Name := "b"; catalog.Idx := 1; catalog.SeqNum := 1;
     catalog.IsPhyAddr := false |}.
Definition colPhy : catalog.ColDef :=
  {| catalog.col_Name := "__phyaddr"; catalog.Idx := 2; catalog.SeqNum := 2;
     catalog.IsPhyAddr := true |}.

Definition table (sk : option catalog.SortKeyDef) : catalog.Schema :=
  {| catalog.Name := "t"; catalog.Version := 3; catalog.BlockMaxRows := 8192;
     catalog.ColDefs := [colA; colB; colPhy];
     catalog.SortKey := sk |}.

(** One column per requested index, each with two rows. *)
Definition goodCols (blk : Z) (idxs : list Z) : list containers.ColumnView :=
  map (fun i => {| containers.GetData := [blk; i] |}) idxs.

(** One column, whatever was requested. *)
Definition badCols (blk : Z) (idxs : list Z) : list containers.ColumnView :=
  [{| containers.GetData := [blk] |}].

Definition script (fail : option nat) (sk : option catalog.SortKeyDef)
    (cs : Z -> list Z -> list containers.ColumnView) : Script :=
  {| failAt := fail; schema := table sk; blocks := 2; cols := cs;
     created := [{| objectio.ObjectName_ObjectId := 100%N;
                    objectio.Rows := 5%N; objectio.BlkCnt := 1%N |}] |}.

Definition theTxn : txnif.AsyncTxn :=
  {| txnif.txn_ID := 7%N; txnif.GetStartTS := 42 |}.
Definition theRt : dbutils.Runtime := {| dbutils.rt_ID := 1%N |}.
Definition theCtx : tasks.Context := {| tasks.ctx_ID := 1%N |}.

Definition source (id : objectio.ObjectId) : catalog.ObjectEntry :=
  handle.GetMeta
    (object (script None None goodCols)
       {| handle.hrel_ID := 5; handle.Schema := table None |} id).

Definition sources : list catalog.ObjectEntry := [source 10%N; source 11%N].

Definition theEntry : mergesort.MergeCommitEntry :=
  {| mergesort.DbID := 1; mergesort.TableID := 5;
     mergesort.Tablename := "t"; mergesort.StartTs := 42;
     mergesort.MergedObjs := map catalog.GetObjectStats sources;
     mergesort.CreatedObjectStats := created (script None None goodCols);
     mergesort.Booking := [(0, 0)%nat] |}.

(** The constructor run on [sources] from the initial state, the task it
    builds, and the task's functions run from the state it leaves. *)
Definition newRun (sc : Script) :=
  NewMergeObjectsTask (X sc) theCtx theTxn sources theRt 0%nat.

Definition noTask (sc : Script) : mergeObjectsTask :=
  {| BaseTask := None; txn := theTxn; rt := theRt; mergedObjs := [];
     mergedObjsHandle := []; mergedBlkCnt := []; totalMergedBlkCnt := 0;
     createdBObjs := []; commitEntry := None;
     rel := {| handle.hrel_ID := 0; handle.Schema := schema sc |};
     did := 0; tid := 0 |}.

Definition taskOf (sc : Script) : mergeObjectsTask :=
  match (newRun sc).1.1 with
  | Ok t => t
  | _ => noTask sc
  end.

Definition prepRun (sc : Script) :=
  PrepareData (X sc) (taskOf sc) (newRun sc).1.2.

Definition execRun (sc : Script) :=
  Execute (X sc) (taskOf sc) (newRun sc).1.2.

(** The catalog-apply phase run on [theEntry] from the initial state. *)
Definition applyRun (sc : Script) :=
  HandleMergeEntryInTxn (X sc) theTxn (Some theEntry) theRt 0%nat.

Definition primaryKey : catalog.SortKeyDef :=
  {| catalog.sk_Idx := 1; catalog.sk_IsPrimary := true |}.

(** What the runs return, when they return. *)
Definition createdOf (sc : Script) : list catalog.ObjectEntry :=
  match (applyRun sc).1.1 with
  | Ok objs => objs
  | _ => []
  end.

Definition batchesOf (sc : Script) : list batch.Batch :=
  match (prepRun sc).1.1 with
  | Ok (bs, _, _) => bs
  | _ => []
  end.

Definition delsOf (sc : Script) : list (list nat) :=
  match (prepRun sc).1.1 with
  | Ok (_, ds, _) => ds
  | _ => []
  end.

Definition releaseOf (sc : Script) : M nat unit :=
  match (prepRun sc).1.1 with
  | Ok (_, _, release) => release
  | _ => ret tt
  end.

(** The scripts used below: nothing fails; the third block read fails;
    the views have one column and nothing fails; the views have one column
    and the second block read fails; the sixth call of the catalog-apply
    phase fails; the table has a primary key. *)
Definition allGood : Script := script None None goodCols.
Definition thirdReadFails : Script := script (Some 6%nat) None goodCols.
Definition oneColumn : Script := script None None badCols.
Definition oneColumnSecondReadFails : Script :=
  script (Some 5%nat) None badCols.
Definition secondLookupFails : Script := script (Some 4%nat) None goodCols.
Definition withPrimaryKey : Script := script None (Some primaryKey) goodCols.

Definition theRel : handle.Relation :=
  {| handle.hrel_ID := 5; handle.Schema := table None |}.

(** The object the catalog-apply phase creates for [theEntry]. *)
Definition createdObj : catalog.ObjectEntry :=
  handle.GetMeta (object allGood theRel 100%N).

(** The view a block read hands out under [oneColumn]. *)
Definition oneColumnView : containers.BlockView :=
  {| containers.Columns := badCols 0 [0; 1]; containers.DeleteMask := [] |}.

(** The lookup that fails under [secondLookupFails]. *)
Definition failedLookup : Event :=
  EvGetObject theRel 11%N (inr injected).
End Sim.

(** ** Reading traces *)

(** The views handed out by successful block reads, in order. *)
Definition acquired (t : list Event) : list containers.BlockView :=
  omap (fun ev => match ev with
                  | EvGetColumnDataByIds _ _ _ (inl v) => Some v
                  | _ => None
                  end) t.

(** The release of the views [vs], each in its own slot. *)
Definition closes (vs : list containers.BlockView) : list Event :=
  imap EvClose vs.

Definition is_close (ev : Event) : bool :=
  match ev with EvClose _ _ => true | _ => false end.

(** The identifiers of the objects that were soft-deleted. *)
Definition softDeleted (t : list Event) : list objectio.ObjectId :=
  omap (fun ev => match ev with
                  | EvSoftDeleteObject _ id (inl _) => Some id
                  | _ => None
                  end) t.

(** The entries of the objects that were looked up. *)
Definition lookedUp (t : list Event) : list catalog.ObjectEntry :=
  omap (fun ev => match ev with
                  | EvGetObject _ _ (inl h) => Some (handle.GetMeta h)
                  | _ => None
                  end) t.

(** The identifiers non-appendable objects were created with, and the
    entries of the objects created. *)
Definition createdIds (t : list Event) : list objectio.ObjectId :=
  omap (fun ev => match ev with
                  | EvCreateNonAppendableObject _ _ id (inl _) => Some id
                  | _ => None
                  end) t.

Definition createdMetas (t : list Event) : list catalog.ObjectEntry :=
  omap (fun ev => match ev with
                  | EvCreateNonAppendableObject _ _ _ (inl h) =>
                      Some (handle.GetMeta h)
                  | _ => None
                  end) t.

(** The statistics attached, with the entry they were attached to. *)
Definition statsAttached (t : list Event)
  : list (catalog.ObjectEntry * objectio.ObjectStats) :=
  omap (fun ev => match ev with
                  | EvUpdateStats h stats (inl _) =>
                      Some (handle.GetMeta h, stats)
                  | _ => None
                  end) t.

(** The entries [SetSorted] was called on. *)
Definition sortedMarks (t : list Event) : list catalog.ObjectEntry :=
  omap (fun ev => match ev with EvSetSorted o => Some o | _ => None end) t.

Definition is_log (ev : Event) : bool :=
  match ev with EvLogTxnEntry _ _ _ _ _ _ => true | _ => false end.

Definition is_engine (ev : Event) : bool :=
  match ev with EvDoMergeAndWrite _ _ _ => true | _ => false end.

(** The calls of the catalog-apply phase: lookups, soft-deletes, creations,
    statistics, the sorted mark and the log entry.  Nothing else is a call
    on the catalog or the transaction. *)
Definition catalog_op (ev : Event) : bool :=
  match ev with
  | EvGetDatabaseByID _ _ _ | EvGetRelationByID _ _ _ | EvGetObject _ _ _
  | EvSoftDeleteObject _ _ _ | EvCreateNonAppendableObject _ _ _ _
  | EvUpdateStats _ _ _ | EvSetSorted _
  | EvNewMergeObjectsEntry _ _ _ _ _ _ | EvLogTxnEntry _ _ _ _ _ _ => true
  | _ => false
  end.

(** Any call on the catalog, the transaction or the block reader. *)
Definition storage_or_catalog_op (ev : Event) : bool :=
  match ev with
  | EvGetColumnDataByIds _ _ _ _ | EvClose _ _ => true
  | _ => catalog_op ev
  end.

(** The trace of the drop loop when nothing fails. *)
Fixpoint dropTrace (rl : handle.Relation) (drops : list objectio.ObjectStats)
    (hs : list handle.Object) : list Event :=
  match drops, hs with
  | drop :: drops', h :: hs' =>
      EvGetObject rl (objectio.ObjectName_ObjectId drop) (inl h)
      :: EvSoftDeleteObject rl (objectio.ObjectName_ObjectId drop) (inl tt)
      :: dropTrace rl drops' hs'
  | _, _ => []
  end.

(** The trace of the create loop when nothing fails. *)
Fixpoint createTrace (rl : handle.Relation)
    (statsl : list objectio.ObjectStats) (hs : list handle.Object)
  : list Event :=
  match statsl, hs with
  | stats :: statsl', h :: hs' =>
      EvCreateNonAppendableObject rl false
        (objectio.ObjectName_ObjectId stats) (inl h)
      :: EvUpdateStats h stats (inl tt)
      :: EvSetSorted (handle.GetMeta h)
      :: createTrace rl statsl' hs'
  | _, _ => []
  end.

(** The block reads of a merge, in the order of the global block offsets:
    object [i]'s blocks follow those of the objects before it. *)
Fixpoint plan (hs : list handle.Object) (cnts : list nat)
  : list (handle.Object * nat) :=
  match hs, cnts with
  | h :: hs', c :: cnts' => (pair h <$> seq 0 c) ++ plan hs' cnts'
  | _, _ => []
  end.

Definition readEv (idxs : list Z) (p : handle.Object * nat)
    (r : Res containers.BlockView) : Event :=
  EvGetColumnDataByIds p.1 (uint16 p.2) idxs r.

Definition readsOk (idxs : list Z) (ps : list (handle.Object * nat))
    (vs : list containers.BlockView) : list Event :=
  zip_with (fun p v => readEv idxs p (inl v)) ps vs.

(** [prefixSum objs i]: the number of blocks of the first [i] objects. *)
Definition prefixSum (objs : list catalog.ObjectEntry) (i : nat) : nat :=
  sum_list (catalog.BlockCnt <$> take i objs).

(** The table's sort-key position, [-1] when it has none. *)
Definition tableSortKeyPos (s : catalog.Schema) : Z :=
  match catalog.SortKey s with
  | Some k => catalog.sk_Idx k
  | None => -1
  end.

(** The columns [PrepareData] asks for and puts in a batch. *)
Definition dataCols (s : catalog.Schema) : list catalog.ColDef :=
  List.filter (fun d => negb (catalog.IsPhyAddr d)) (catalog.ColDefs s).

(** The batch made from a view. *)
Definition mkBatch (attrs : list string) (v : containers.BlockView)
  : batch.Batch :=
  {| batch.Attrs := attrs;
     batch.Vecs := (fun c => Some (containers.GetData c))
                     <$> containers.Columns v;
     batch.rowCount :=
       match containers.Columns v with
       | c0 :: _ => containers.Length c0
       | [] => 0%nat
       end |}.

(** [sat m Q]: from every state, the outcome and the trace of [m] satisfy
    [Q]. *)
Definition sat {St A} (m : M St A) (Q : Outcome A -> list Event -> Prop)
  : Prop :=
  forall s, Q (m s).1.1 (m s).2.

(** The failure discipline of a phase: every call is a catalog call, and the
    phase stops at the first call that fails, with that call's error. *)
Definition disciplined {A} (o : Outcome A) (t : list Event) : Prop :=
  Forall (fun ev => catalog_op ev = true) t /\
  match o with
  | Ok _ => Forall (fun ev => ev_err ev = None) t
  | Err e => exists pre ev, t = pre ++ [ev] /\ ev_err ev = Some e /\
                            Forall (fun ev' => ev_err ev' = None) pre
  | Panic _ => False
  end.

(** ** More readers of traces *)

Definition is_lookup (ev : Event) : bool :=
  match ev with
  | EvGetDatabaseByID _ _ _ | EvGetRelationByID _ _ _ | EvGetObject _ _ _ =>
      true
  | _ => false
  end.

(** A call of [CreateNonAppendableObject], whether it succeeds or not. *)
Definition is_create (ev : Event) : bool :=
  match ev with EvCreateNonAppendableObject _ _ _ _ => true | _ => false end.

(** A call of [SoftDeleteObject], whether it succeeds or not. *)
Definition is_softDelete (ev : Event) : bool :=
  match ev with EvSoftDeleteObject _ _ _ => true | _ => false end.

Definition is_read (ev : Event) : bool :=
  match ev with EvGetColumnDataByIds _ _ _ _ => true | _ => false end.

(** [always P]: every call of the trace satisfies [P]. *)
Definition always (P : Event -> bool) {A} (o : Outcome A) (t : list Event)
  : Prop :=
  Forall (fun ev => P ev = true) t.

(** The commit entry [e] once the engine has put in the statistics of the
    objects it wrote and the booking. *)
Definition filled (e : mergesort.MergeCommitEntry)
    (cs : list objectio.ObjectStats) (bk : list (nat * nat))
  : mergesort.MergeCommitEntry :=
  {| mergesort.DbID := mergesort.DbID e;
     mergesort.TableID := mergesort.TableID e;
     mergesort.Tablename := mergesort.Tablename e;
     mergesort.StartTs := mergesort.StartTs e;
     mergesort.MergedObjs := mergesort.MergedObjs e;
     mergesort.CreatedObjectStats := cs;
     mergesort.Booking := bk |}.

(** The scripted collaborator with an engine that succeeds without ever
    asking the task for its commit entry. *)
Definition forgetfulEngine (sc : Sim.Script) : Collaborators nat :=
  {| GetDatabaseByID := GetDatabaseByID (Sim.X sc);
     GetRelationByID := GetRelationByID (Sim.X sc);
     GetObject := GetObject (Sim.X sc);
     SoftDeleteObject := SoftDeleteObject (Sim.X sc);
     CreateNonAppendableObject := CreateNonAppendableObject (Sim.X sc);
     UpdateStats := UpdateStats (Sim.X sc);
     NewMergeObjectsEntry := NewMergeObjectsEntry (Sim.X sc);
     LogTxnEntry := LogTxnEntry (Sim.X sc);
     GetColumnDataByIds := GetColumnDataByIds (Sim.X sc);
     DoMergeAndWrite := fun _ _ _ n => (inl tt, None, S n) |}.

(** Source objects without blocks. *)
Definition emptySource (id : objectio.ObjectId) : catalog.ObjectEntry :=
  {| catalog.obj_ID := id;
     catalog.GetTable := catalog.GetTable (Sim.source id);
     catalog.BlockCnt := 0;
     catalog.GetObjectStats := catalog.GetObjectStats (Sim.source id) |}.

Definition emptySources : list catalog.ObjectEntry :=
  [emptySource 20%N; emptySource 21%N].

(** The creation that fails when the seventh call of the catalog-apply phase
    fails. *)
Definition creationFails : Sim.Script := Sim.script (Some 6%nat) None Sim.goodCols.

(** The relation lookup of the constructor fails. *)
Definition relationLookupFails : Sim.Script :=
  Sim.script (Some 1%nat) None Sim.goodCols.

Definition failedRelationLookup : Event :=
  EvGetRelationByID {| handle.hdb_ID := 1 |} 5 (inr Sim.injected).

(** The constructor run on the sources without blocks, and [PrepareData]
    run on the task it builds. *)
Definition emptyNewRun :=
  NewMergeObjectsTask (Sim.X Sim.allGood) Sim.theCtx Sim.theTxn emptySources
    Sim.theRt 0%nat.

Definition emptyTask : mergeObjectsTask :=
  match emptyNewRun.1.1 with
  | Ok t => t
  | _ => Sim.noTask Sim.allGood
  end.

Definition emptyPrepRun := PrepareData (Sim.X Sim.allGood) emptyTask emptyNewRun.1.2.

(** The catalog-apply phase run on the entry of [PrepareCommitEntry], filled
    in by the engine, from the state the constructor leaves. *)
Definition filledRun :=
  HandleMergeEntryInTxn (Sim.X Sim.allGood)
    (txn (Sim.taskOf Sim.allGood))
    (Some (filled (PrepareCommitEntry (Sim.taskOf Sim.allGood)).2
             (Sim.created Sim.allGood) [(0, 0)%nat]))
    (rt (Sim.taskOf Sim.allGood)) (Sim.newRun Sim.allGood).1.2.

Definition filledCreated : list catalog.ObjectEntry :=
  match filledRun.1.1 with
  | Ok objs => objs
  | _ => []
  end.

(** The creation and the last soft delete of [Sim.applyRun Sim.allGood], and
    the creation that fails under [creationFails]. *)
Definition theCreation : Event :=
  EvCreateNonAppendableObject Sim.theRel false 100%N
    (inl (Sim.object Sim.allGood Sim.theRel 100%N)).

Definition lastSoftDelete : Event :=
  EvSoftDeleteObject Sim.theRel 11%N (inl tt).

Definition failedCreation : Event :=
  EvCreateNonAppendableObject Sim.theRel false 100%N (inr Sim.injected).

(** What [Execute] returns under [Sim.allGood]. *)
Definition executedTask : mergeObjectsTask :=
  match (Sim.execRun Sim.allGood).1.1 with
  | Ok (t, _) => t
  | _ => Sim.noTask Sim.allGood
  end.

(** * The index-build operator (package [indexbuild])

    The operator collects the batches of the build side and offers one
    runtime filter to the probe side.  Its container is a heap cell reached
    through [arg.ctr]; it is part of the world, together with the batches
    still to be received.  The cancellation check, the copying append and
    the [select] of [sendFilter] are calls on collaborators, over an
    abstract state, and every call is recorded. *)

Module indexbuild.

(** Modelled from the spec: the state constants of the container are
    declared outside src/; the operator is a three-state machine: receive,
    filter, stop.  [Call]'s [default] case is the stop state. *)
Inductive State := ReceiveBatch | HandleRuntimeFilter | End.

(** Modelled from the spec: the container is declared outside src/; these
    are the fields build.go uses.  [ctr_batch] is the field [batch]. *)
Record container := {
  state : State;
  isMerge : bool;
  ctr_batch : option batch.Batch
}.

(** [new(container)]; the zero state is taken to be the receive state. *)
Definition newContainer : container :=
  {| state := ReceiveBatch; isMerge := false; ctr_batch := None |}.

(** [RuntimeFilterSenders[i]]: the fields build.go reads.  [Expr] is a
    pointer, nil when the sender has no expression; [Spec] is taken to be
    set. *)
Record RuntimeFilterSpec := {
  UpperLimit : Z;
  Expr : option N
}.

Record RuntimeFilterChanMsg := {
  Spec : RuntimeFilterSpec;
  Chan : N
}.

Record Argument := {
  RuntimeFilterSenders : list RuntimeFilterChanMsg;
  GetIsFirst : bool
}.

Record Process := { MergeReceivers : nat }.

Inductive RuntimeFilterTyp :=
  RuntimeFilter_PASS | RuntimeFilter_DROP | RuntimeFilter_IN.

Record RuntimeFilter := {
  Typ : RuntimeFilterTyp;
  Card : Z;
  Data : list Z
}.

Inductive ExecStatus := ExecStop | ExecNext | ExecHasMore.

Record CallResult := {
  Status : ExecStatus;
  Batch : option batch.Batch
}.

(** What a receive gives: a batch, nil at the end of the stream, or an
    error. *)
Definition Msg : Type := Res (option batch.Batch).

Inductive Ev :=
| EvCancelCheck (r : option error * bool)
| EvInitReceiver (merge : bool)
| EvAnalStart
| EvAnalStop
| EvReceive (allRegs : bool) (m : Msg)
| EvPutBatch (b : batch.Batch)
| EvAnalInput (b : batch.Batch) (isFirst : bool)
| EvAppendWithCopy (acc : option batch.Batch) (b : batch.Batch)
    (r : option batch.Batch * option error)
| EvInfof (msg : string)
| EvDone
| EvSend (chan : N) (f : RuntimeFilter)
| EvWaitStop.

(** The collaborators.  [SelectDone] tells which case of the [select] fires:
    the context's [Done] or the send on the channel.  [AppendWithCopy]
    returns both a batch and an error, as in Go: the batch is stored even
    when the error is set. *)
Record Env (St : Type) := {
  CancelCheck : St -> (option error * bool) * St;
  AppendWithCopy : option batch.Batch -> batch.Batch -> St ->
                   (option batch.Batch * option error) * St;
  SelectDone : St -> bool * St;
  IsEmpty : batch.Batch -> bool;
  InplaceSort : list Z -> list Z;
  MarshalBinary : list Z -> Res (list Z);
  NewCallResult : CallResult;
  CancelResult : CallResult
}.

Arguments CancelCheck {St}.
Arguments AppendWithCopy {St}.
Arguments SelectDone {St}.
Arguments IsEmpty {St}.
Arguments InplaceSort {St}.
Arguments MarshalBinary {St}.
Arguments NewCallResult {St}.
Arguments CancelResult {St}.

(** The world: the batches still to be received, the container behind
    [arg.ctr] (nil before [Prepare]) and the collaborators' state. *)
Record World (St : Type) := {
  inbox : list Msg;
  ctr : option container;
  ext : St
}.

Arguments inbox {St}.
Arguments ctr {St}.
Arguments ext {St}.

Definition IM (St A : Type) : Type :=
  World St -> Outcome A * World St * list Ev.

Definition iret {St A} (a : A) : IM St A := fun w => (Ok a, w, []).
Definition ithrow {St A} (e : error) : IM St A := fun w => (Err e, w, []).
Definition ipanic {St A} (p : string) : IM St A := fun w => (Panic p, w, []).
Definition iemit {St} (ev : Ev) : IM St unit := fun w => (Ok tt, w, [ev]).

Definition ibind {St A B} (m : IM St A) (k : A -> IM St B) : IM St B :=
  fun w =>
    match m w with
    | (Ok a, w1, t1) => let '(o, w2, t2) := k a w1 in (o, w2, t1 ++ t2)
    | (Err e, w1, t1) => (Err e, w1, t1)
    | (Panic p, w1, t1) => (Panic p, w1, t1)
    end.

(** [err := f(...)] followed by a test of [err]. *)
Definition itry {St A} (m : IM St A) : IM St (Res A) :=
  fun w =>
    match m w with
    | (Ok a, w1, t1) => (Ok (inl a), w1, t1)
    | (Err e, w1, t1) => (Ok (inr e), w1, t1)
    | (Panic p, w1, t1) => (Panic p, w1, t1)
    end.

(** [defer d]: [d] runs when the body returns, and also when it panics. *)
Definition deferred {St A} (m : IM St A) (d : Ev) : IM St A :=
  fun w => let '(o, w1, t1) := m w in (o, w1, t1 ++ [d]).

Definition oracle {St A} (f : St -> A * St) (ev : A -> Ev) : IM St A :=
  fun w =>
    let '(a, s) := f (ext w) in
    (Ok a, {| inbox := inbox w; ctr := ctr w; ext := s |}, [ev a]).

Definition nilDeref : string := "nil pointer dereference".

(** Reading and writing the container through [arg.ctr]. *)
Definition getCtr {St} : IM St container :=
  fun w =>
    match ctr w with
    | Some c => (Ok c, w, [])
    | None => (Panic nilDeref, w, [])
    end.

Definition setCtr {St} (c : container) : IM St unit :=
  fun w => (Ok tt, {| inbox := inbox w; ctr := Some c; ext := ext w |}, []).

Definition setState {St} (st : State) : IM St unit :=
  ibind getCtr (fun c =>
    setCtr {| state := st; isMerge := isMerge c; ctr_batch := ctr_batch c |}).

Definition setBatch {St} (b : option batch.Batch) : IM St unit :=
  ibind getCtr (fun c =>
    setCtr {| state := state c; isMerge := isMerge c; ctr_batch := b |}).

(** [RuntimeFilterSenders[0]]. *)
Definition sender0 {St} (ap : Argument) : IM St RuntimeFilterChanMsg :=
  match RuntimeFilterSenders ap with
  | s :: _ => iret s
  | [] => ipanic "index out of range"
  end.

(** [b.RowCount()] through a pointer that may be nil. *)
Definition RowCount {St} (b : option batch.Batch) : IM St Z :=
  match b with
  | Some b => iret (Z.of_nat (batch.rowCount b))
  | None => ipanic nilDeref
  end.

Definition int32 (n : Z) : Z := (n + 2147483648) mod 4294967296 - 2147483648.

Definition argName : string := "index_build".

(** [String]: what is written to the buffer. *)
Definition String (buf : string) : string :=
  (buf ++ argName ++ ": index build ")%string.

Section Operator.
Context {St : Type} (E : Env St).

Definition noSenders : string := "there must be runtime filter in index build!".

Definition Prepare (arg : Argument) (proc : Process) : IM St (option error) :=
  match RuntimeFilterSenders arg with
  | [] => ipanic noSenders
  | _ :: _ =>
      ibind (setCtr newContainer) (fun _ =>
      if decide (1 < MergeReceivers proc)%nat
      then
        ibind (iemit (EvInitReceiver true)) (fun _ =>
        ibind getCtr (fun c =>
        ibind (setCtr {| state := state c; isMerge := true;
                         ctr_batch := ctr_batch c |}) (fun _ =>
        iret None)))
      else
        ibind (iemit (EvInitReceiver false)) (fun _ => iret None))
  end.

(** The loop of [collectBuildBatches], over the batches still to be
    received: a receive takes the next one, and gives nil once there is
    none. *)
Fixpoint collectFrom (ap : Argument) (isFirst : bool) (msgs : list Msg)
  : IM St unit :=
  ibind getCtr (fun c =>
  match msgs with
  | [] => iemit (EvReceive (isMerge c) (inl None))
  | m :: rest =>
      ibind (fun w => (Ok tt,
                       {| inbox := rest; ctr := ctr w; ext := ext w |},
                       [EvReceive (isMerge c) m])) (fun _ =>
      match m with
      | inr e => ithrow e
      | inl None => iret tt
      | inl (Some currentBatch) =>
          if IsEmpty E currentBatch
          then ibind (iemit (EvPutBatch currentBatch)) (fun _ =>
               collectFrom ap isFirst rest)
          else
            ibind (iemit (EvAnalInput currentBatch isFirst)) (fun _ =>
            ibind (oracle (AppendWithCopy E (ctr_batch c) currentBatch)
                          (EvAppendWithCopy (ctr_batch c) currentBatch))
                  (fun r =>
            ibind (setBatch r.1) (fun _ =>
            match r.2 with
            | Some e => ithrow e
            | None =>
                ibind (iemit (EvPutBatch currentBatch)) (fun _ =>
                ibind (RowCount r.1) (fun rows =>
                ibind (sender0 ap) (fun s0 =>
                if decide (UpperLimit (Spec s0) < rows)
                then iret tt
                else collectFrom ap isFirst rest)))
            end)))
      end)
  end).

Definition collectBuildBatches (ap : Argument) (isFirst : bool) : IM St unit :=
  fun w => collectFrom ap isFirst (inbox w) w.

Definition build (ap : Argument) (isFirst : bool) : IM St unit :=
  collectBuildBatches ap isFirst.

(** The channel of the send case is evaluated on entering the [select].
    Both cases end the operator; only one hands the filter over. *)
Definition sendFilter (ap : Argument) (runtimeFilter : RuntimeFilter)
  : IM St unit :=
  ibind (sender0 ap) (fun s0 =>
  ibind (oracle (SelectDone E)
           (fun done => if done then EvDone
                        else EvSend (Chan s0) runtimeFilter)) (fun _ =>
  ibind (setState End) (fun _ =>
  iemit EvWaitStop))).

Definition oneVector : string :=
  "there must be only 1 vector in index build batch".

Definition pass : RuntimeFilter :=
  {| Typ := RuntimeFilter_PASS; Card := 0; Data := [] |}.
Definition drop : RuntimeFilter :=
  {| Typ := RuntimeFilter_DROP; Card := 0; Data := [] |}.

(** The filter chosen before the row count is compared with the limit:
    PASS without an expression, DROP without rows. *)
Definition earlyFilter (s0 : RuntimeFilterChanMsg) : IM St (option RuntimeFilter) :=
  match Expr (Spec s0) with
  | None => iret (Some pass)
  | Some _ =>
      ibind getCtr (fun c =>
      match ctr_batch c with
      | None => iret (Some drop)
      | Some b => if decide (batch.rowCount b = 0%nat) then iret (Some drop)
                  else iret None
      end)
  end.

Definition handleRuntimeFilter (ap : Argument) : IM St unit :=
  ibind (sender0 ap) (fun s0 =>
  ibind (earlyFilter s0) (fun early =>
  match early with
  | Some runtimeFilter => sendFilter ap runtimeFilter
  | None =>
      ibind (sender0 ap) (fun s0 =>
      let inFilterCardLimit := UpperLimit (Spec s0) in
      ibind getCtr (fun c =>
      ibind (RowCount (ctr_batch c)) (fun rows =>
      if decide (inFilterCardLimit < rows)
      then sendFilter ap pass
      else
        match ctr_batch c with
        | None => ipanic nilDeref
        | Some b =>
            match batch.Vecs b with
            | [vec] =>
                match vec with
                | None => ipanic nilDeref
                | Some v =>
                    let sorted := InplaceSort E v in
                    ibind (setBatch
                             (Some {| batch.Attrs := batch.Attrs b;
                                      batch.Vecs := [Some sorted];
                                      batch.rowCount := batch.rowCount b |}))
                          (fun _ =>
                    match MarshalBinary E sorted with
                    | inr e => ithrow e
                    | inl data =>
                        sendFilter ap
                          {| Typ := RuntimeFilter_IN;
                             Card := int32 (Z.of_nat (length sorted));
                             Data := data |}
                    end)
                end
            | _ => ipanic oneVector
            end
        end)))
  end)).

Definition outOfRounds : string := "more than three rounds".

(** The [for { switch ctr.state }] of [Call]; [n] bounds the rounds. *)
Fixpoint rounds (n : nat) (arg : Argument) (result : CallResult)
  : IM St (CallResult * option error) :=
  match n with
  | O => ipanic outOfRounds
  | S n' =>
      ibind getCtr (fun c =>
      match state c with
      | ReceiveBatch =>
          ibind (itry (build arg (GetIsFirst arg))) (fun r =>
          match r with
          | inr err => iret (result, Some err)
          | inl _ =>
              ibind (setState HandleRuntimeFilter) (fun _ =>
              rounds n' arg result)
          end)
      | HandleRuntimeFilter =>
          ibind (iemit (EvInfof
            "testbug: begin handle RuntimeFilter in index build")) (fun _ =>
          ibind (itry (handleRuntimeFilter arg)) (fun r =>
          match r with
          | inr err => iret (result, Some err)
          | inl _ =>
              ibind (iemit (EvInfof
                "testbug: finish handle RuntimeFilter in index build"))
                (fun _ =>
              ibind (setState End) (fun _ =>
              rounds n' arg result))
          end))
      | End =>
          ibind (match ctr_batch c with
                 | Some b => ibind (iemit (EvPutBatch b)) (fun _ =>
                             setBatch None)
                 | None => iret tt
                 end) (fun _ =>
          iret ({| Status := ExecStop; Batch := None |}, None))
      end)
  end.

Definition Call (arg : Argument) : IM St (CallResult * option error) :=
  ibind (oracle (CancelCheck E) EvCancelCheck) (fun cc =>
  if cc.2 then iret (CancelResult E, cc.1)
  else
    ibind (iemit EvAnalStart) (fun _ =>
    deferred (rounds 3 arg (NewCallResult E)) EvAnalStop)).

End Operator.

(** *** Reading the traces of the operator *)

Definition received (t : list Ev) : list batch.Batch :=
  omap (fun ev => match ev with
                  | EvReceive _ (inl (Some b)) => Some b
                  | _ => None
                  end) t.

Definition pooled (t : list Ev) : list batch.Batch :=
  omap (fun ev => match ev with EvPutBatch b => Some b | _ => None end) t.

Definition appended (t : list Ev) : list batch.Batch :=
  omap (fun ev => match ev with
                  | EvAppendWithCopy _ b _ => Some b
                  | _ => None
                  end) t.

Definition sentFilters (t : list Ev) : list RuntimeFilter :=
  omap (fun ev => match ev with EvSend _ f => Some f | _ => None end) t.

Definition receives (t : list Ev) : nat :=
  length (List.filter (fun ev => match ev with
                                 | EvReceive _ _ => true
                                 | _ => false
                                 end) t).

Definition is_startStop (ev : Ev) : bool :=
  match ev with EvAnalStart | EvAnalStop => true | _ => false end.

(** The calls [collectBuildBatches] makes, when it receives in the mode
    [allRegs]. *)
Definition collects (allRegs : bool) (ev : Ev) : Prop :=
  match ev with
  | EvReceive a _ => a = allRegs
  | EvPutBatch _ | EvAnalInput _ _ | EvAppendWithCopy _ _ _ => True
  | _ => False
  end.

(** A receive of the trace, if [ev] is one, is made in the mode [allRegs]. *)
Definition receivesIn (allRegs : bool) (ev : Ev) : Prop :=
  match ev with EvReceive a _ => a = allRegs | _ => True end.

(** The result of the [default] case of [Call]. *)
Definition stopped : CallResult := {| Status := ExecStop; Batch := None |}.

(** What a run of the loop of [Call] leaves behind, from the batches [msgs]
    still to be received and the container [c]. *)
Definition afterLoop {St} (msgs : list Msg) (c : container)
    (result : CallResult) (o : Outcome (CallResult * option error))
    (w' : World St) (t : list Ev) : Prop :=
  suffix (inbox w') msgs /\
  Forall (receivesIn (isMerge c)) t /\
  Forall (fun ev => is_startStop ev = false) t /\
  (length (sentFilters t) <= 1)%nat /\
  match o with
  | Ok (res, None) =>
      res = stopped /\
      ctr w' = Some {| state := End; isMerge := isMerge c; ctr_batch := None |}
  | Ok (res, Some e) =>
      res = result /\ sentFilters t = [] /\
      exists c', ctr w' = Some c' /\ state c' <> End /\ isMerge c' = isMerge c
  | Err _ => False
  | Panic p => p = nilDeref \/ p = oneVector
  end.

(** [wp w m Q]: the run of [m] from the world [w] satisfies [Q]. *)
Definition wp {St A} (w : World St) (m : IM St A)
    (Q : Outcome A -> World St -> list Ev -> Prop) : Prop :=
  Q (m w).1.1 (m w).1.2 (m w).2.

End indexbuild.

(** ** A scripted environment for the index-build operator

    The state counts the calls made.  The append whose call number is
    [appendFailsAt] fails, and leaves the build batch as it was; otherwise
    it adds the rows of the new batch to the build batch.  Vectors are
    sorted by insertion. *)

Module IxSim.

Record Script := {
  cancelled : option error * bool;
  appendFailsAt : option nat;
  selectDone : bool;
  marshalFails : bool
}.

Definition failure : error := "scripted failure".

Fixpoint insert (x : Z) (l : list Z) : list Z :=
  match l with
  | [] => [x]
  | y :: l' => if decide (x <= y) then x :: l else y :: insert x l'
  end.

Fixpoint sort (l : list Z) : list Z :=
  match l with
  | [] => []
  | x :: l' => insert x (sort l')
  end.

Definition vecOf (b : batch.Batch) : list Z :=
  match batch.Vecs b with
  | [Some v] => v
  | _ => []
  end.

Definition append (acc : option batch.Batch) (b : batch.Batch)
  : batch.Batch :=
  match acc with
  | None => b
  | Some a =>
      {| batch.Attrs := batch.Attrs a;
         batch.Vecs := [Some (vecOf a ++ vecOf b)];
         batch.rowCount := (batch.rowCount a + batch.rowCount b)%nat |}
  end.

Definition E (sc : Script) : indexbuild.Env nat :=
  {| indexbuild.CancelCheck := fun n => (cancelled sc, S n);
     indexbuild.AppendWithCopy := fun acc b n =>
       (if decide (appendFailsAt sc = Some n) then (acc, Some failure)
        else (Some (append acc b), None), S n);
     indexbuild.SelectDone := fun n => (selectDone sc, S n);
     indexbuild.IsEmpty := fun b => Nat.eqb (batch.rowCount b) 0;
     indexbuild.InplaceSort := sort;
     indexbuild.MarshalBinary := fun v =>
       if marshalFails sc then inr failure else inl v;
     indexbuild.NewCallResult :=
       {| indexbuild.Status := indexbuild.ExecNext;
          indexbuild.Batch := None |};
     indexbuild.CancelResult :=
       {| indexbuild.Status := indexbuild.ExecStop;
          indexbuild.Batch := None |} |}.

Definition keys (v : list Z) : batch.Batch :=
  {| batch.Attrs := ["k"]; batch.Vecs := [Some v];
     batch.rowCount := length v |}.

Definition plain : Script :=
  {| cancelled := (None, false); appendFailsAt := None; selectDone := false;
     marshalFails := false |}.

Definition cancelledScript : Script :=
  {| cancelled := (Some failure, true); appendFailsAt := None;
     selectDone := false; marshalFails := false |}.

Definition secondAppendFails : Script :=
  {| cancelled := (None, false); appendFailsAt := Some 2%nat;
     selectDone := false; marshalFails := false |}.

Definition marshalFailsScript : Script :=
  {| cancelled := (None, false); appendFailsAt := None; selectDone := false;
     marshalFails := true |}.

(** A sender with an expression and the limit [limit]. *)
Definition sender (limit : Z) : indexbuild.RuntimeFilterChanMsg :=
  {| indexbuild.Spec := {| indexbuild.UpperLimit := limit;
                           indexbuild.Expr := Some 1%N |};
     indexbuild.Chan := 9%N |}.

Definition arg (limit : Z) : indexbuild.Argument :=
  {| indexbuild.RuntimeFilterSenders := [sender limit];
     indexbuild.GetIsFirst := true |}.

(** Three batches, the second one empty, then the end of the stream. *)
Definition stream : list indexbuild.Msg :=
  [inl (Some (keys [3; 1])); inl (Some (keys [])); inl (Some (keys [2]));
   inl None].

(** The world after [Prepare], with [stream] to be received. *)
Definition start : indexbuild.World nat :=
  {| indexbuild.inbox := stream;
     indexbuild.ctr := Some indexbuild.newContainer;
     indexbuild.ext := 0%nat |}.

Definition callRun (sc : Script) (limit : Z) :=
  indexbuild.Call (E sc) (arg limit) start.

Definition collectRun (sc : Script) (limit : Z) :=
  indexbuild.collectBuildBatches (E sc) (arg limit) true start.

(** The world in which the three keys were collected and the filter is to be
    chosen. *)
Definition collected : indexbuild.World nat :=
  {| indexbuild.inbox := [];
     indexbuild.ctr :=
       Some {| indexbuild.state := indexbuild.HandleRuntimeFilter;
               indexbuild.isMerge := false;
               indexbuild.ctr_batch := Some (keys [3; 1; 2]) |};
     indexbuild.ext := 5%nat |}.

Definition filterRun (sc : Script) (limit : Z) :=
  indexbuild.handleRuntimeFilter (E sc) (arg limit) collected.

Definition inFilter : indexbuild.RuntimeFilter :=
  {| indexbuild.Typ := indexbuild.RuntimeFilter_IN;
     indexbuild.Card := 3; indexbuild.Data := [1; 2; 3] |}.

(** The world before [Prepare], and a process with two merge receivers. *)
Definition unprepared : indexbuild.World nat :=
  {| indexbuild.inbox := stream; indexbuild.ctr := None;
     indexbuild.ext := 0%nat |}.

Definition twoReceivers : indexbuild.Process :=
  {| indexbuild.MergeReceivers := 2 |}.

Definition prepareRun (limit : Z) :=
  indexbuild.Prepare (St:=nat) (arg limit) twoReceivers unprepared.

Definition preparedCallRun (sc : Script) (limit : Z) :=
  indexbuild.Call (E sc) (arg limit) (prepareRun limit).1.2.

(** The call after [callRun]. *)
Definition secondCallRun (sc : Script) (limit : Z) :=
  indexbuild.Call (E sc) (arg limit) (callRun sc limit).1.2.

End IxSim.

(** ** Proofs *)

Section Proofs.
Context {St : Type} (X : Collaborators St).

#[local] Abbreviation M := (M St).

(** *** Rules for [sat] *)

Lemma sat_mono {A} (m : M A) (Q Q' : Outcome A -> list Event -> Prop) :
  sat m Q -> (forall o t, Q o t -> Q' o t) -> sat m Q'.
Proof. intros H HQ s. apply HQ, H. Qed.

Lemma sat_ret {A} (a : A) (Q : Outcome A -> list Event -> Prop) :
  Q (Ok a) [] -> sat (St:=St) (ret a) Q.
Proof. intros H s. exact H. Qed.

Lemma sat_throw {A} (e : error) (Q : Outcome A -> list Event -> Prop) :
  Q (Err e) [] -> sat (St:=St) (throw e) Q.
Proof. intros H s. exact H. Qed.

Lemma sat_panic {A} (p : string) (Q : Outcome A -> list Event -> Prop) :
  Q (Panic p) [] -> sat (St:=St) (panic p) Q.
Proof. intros H s. exact H. Qed.

Lemma sat_emit (ev : Event) (Q : Outcome unit -> list Event -> Prop) :
  Q (Ok tt) [ev] -> sat (St:=St) (emit ev) Q.
Proof. intros H s. exact H. Qed.

Lemma sat_call {A} (f : St -> Res A * St) (ev : Res A -> Event)
    (Q : Outcome A -> list Event -> Prop) :
  (forall a, Q (Ok a) [ev (inl a)]) ->
  (forall e, Q (Err e) [ev (inr e)]) ->
  sat (call f ev) Q.
Proof.
  intros Hok Herr s. unfold call. destruct (f s) as [[a|e] s1]; simpl; auto.
Qed.

Lemma sat_try {A} (m : M A) (Q : Outcome (Res A) -> list Event -> Prop) :
  sat m (fun o t => match o with
                    | Ok a => Q (Ok (inl a)) t
                    | Err e => Q (Ok (inr e)) t
                    | Panic p => Q (Panic p) t
                    end) ->
  sat (try m) Q.
Proof.
  intros H s. specialize (H s). unfold try.
  destruct (m s) as [[[a|e|p] s1] t1]; exact H.
Qed.

Lemma sat_bind {A B} (m : M A) (k : A -> M B)
    (Q : Outcome B -> list Event -> Prop) :
  sat m (fun o t => match o with
                    | Ok a => sat (k a) (fun o' t' => Q o' (t ++ t'))
                    | Err e => Q (Err e) t
                    | Panic p => Q (Panic p) t
                    end) ->
  sat (bind m k) Q.
Proof.
  intros H s. specialize (H s). unfold bind.
  destruct (m s) as [[[a|e|p] s1] t1]; simpl in *; try exact H.
  specialize (H s1). destruct (k a s1) as [[o2 s2] t2]. exact H.
Qed.

(** [sat] read backwards, at one run. *)
Lemma sat_run {A} (m : M A) (Q : Outcome A -> list Event -> Prop) s o s' t :
  sat m Q -> m s = (o, s', t) -> Q o t.
Proof. intros H E. specialize (H s). rewrite E in H. exact H. Qed.

(** Success shapes compose along [bind]. *)
Lemma sat_bind_ok {A B} (m : M A) (k : A -> M B)
    (P1 : A -> list Event -> Prop) (P2 : A -> B -> list Event -> Prop) :
  sat m (fun o t => forall a, o = Ok a -> P1 a t) ->
  (forall a, sat (k a) (fun o t => forall b, o = Ok b -> P2 a b t)) ->
  sat (bind m k)
      (fun o t => forall b, o = Ok b ->
                  exists a t1 t2, t = t1 ++ t2 /\ P1 a t1 /\ P2 a b t2).
Proof.
  intros Hm Hk. apply sat_bind. eapply sat_mono; [exact Hm|].
  intros [a|e|p] t H; [|discriminate..].
  eapply sat_mono; [apply Hk|]. intros o' t' H' b ->.
  exists a, t, t'. auto.
Qed.

(** *** The failure discipline of the catalog-apply phase *)

Lemma disc_ret {A} (a : A) : sat (St:=St) (ret a) disciplined.
Proof. apply sat_ret. split; constructor. Qed.

Lemma disc_call {A} (f : St -> Res A * St) (ev : Res A -> Event) :
  (forall r, catalog_op (ev r) = true) ->
  (forall r, ev_err (ev r) = res_err r) ->
  sat (call f ev) disciplined.
Proof.
  intros Hc He. apply sat_call.
  - intros a. split; [by repeat constructor|].
    repeat constructor. by rewrite He.
  - intros e. split; [by repeat constructor|].
    exists [], (ev (inr e)). rewrite He. by repeat split.
Qed.

Lemma disc_emit (ev : Event) :
  catalog_op ev = true -> ev_err ev = None ->
  sat (St:=St) (emit ev) disciplined.
Proof. intros Hc He. apply sat_emit. split; by repeat constructor. Qed.

Lemma disc_bind {A B} (m : M A) (k : A -> M B) :
  sat m disciplined -> (forall a, sat (k a) disciplined) ->
  sat (bind m k) disciplined.
Proof.
  intros Hm Hk. apply sat_bind. eapply sat_mono; [exact Hm|].
  intros [a|e|p] t [Hc Ho]; [|by split|done].
  eapply sat_mono; [apply Hk|]. intros o' t' [Hc' Ho'].
  split; [by apply Forall_app|].
  destruct o' as [b|e|p]; [by apply Forall_app| |done].
  destruct Ho' as (pre & ev & -> & He & Hpre).
  exists (t ++ pre), ev. rewrite app_assoc.
  repeat split; [done|]. by apply Forall_app.
Qed.

Lemma dropMerged_disciplined rl drops acc :
  sat (dropMerged X rl drops acc) disciplined.
Proof.
  revert acc. induction drops as [|drop rest IH]; intros acc; simpl.
  - apply disc_ret.
  - apply disc_bind; [by apply disc_call|]. intros obj.
    apply disc_bind; [by apply disc_call|]. intros _. apply IH.
Qed.

Lemma createObjs_disciplined rl statsl acc :
  sat (createObjs X rl statsl acc) disciplined.
Proof.
  revert acc. induction statsl as [|stats rest IH]; intros acc; simpl.
  - apply disc_ret.
  - apply disc_bind; [by apply disc_call|]. intros obj.
    apply disc_bind; [by apply disc_call|]. intros _.
    apply disc_bind; [by apply disc_emit|]. intros _. apply IH.
Qed.

Lemma HandleMergeEntryInTxn_disciplined txn entry rt :
  sat (HandleMergeEntryInTxn X txn (Some entry) rt) disciplined.
Proof.
  unfold HandleMergeEntryInTxn.
  apply disc_bind; [by apply disc_call|]. intros database.
  apply disc_bind; [by apply disc_call|]. intros rl.
  apply disc_bind; [apply dropMerged_disciplined|]. intros mergedObjs.
  apply disc_bind; [apply createObjs_disciplined|]. intros createdObjs.
  apply disc_bind; [by apply disc_call|]. intros txnEntry.
  apply disc_bind; [by apply disc_call|]. intros _. apply disc_ret.
Qed.

(** *** The trace of a successful catalog-apply phase *)

Lemma call_ok {A} (f : St -> Res A * St) (ev : Res A -> Event) :
  sat (call f ev) (fun o t => forall a, o = Ok a -> t = [ev (inl a)]).
Proof. apply sat_call; [by intros a ? [= ->]|by intros]. Qed.

Lemma ret_ok {A} (a : A) :
  sat (St:=St) (ret a) (fun o t => forall b, o = Ok b -> b = a /\ t = []).
Proof. apply sat_ret. by intros b [= <-]. Qed.

Lemma dropMerged_ok rl drops acc :
  sat (dropMerged X rl drops acc)
      (fun o t => forall res, o = Ok res ->
         exists hs, length hs = length drops /\
                    res = acc ++ (handle.GetMeta <$> hs) /\
                    t = dropTrace rl drops hs).
Proof.
  revert acc. induction drops as [|drop rest IH]; intros acc; simpl.
  - apply sat_ret. intros res [= <-]. exists []. by rewrite app_nil_r.
  - eapply sat_mono.
    { apply sat_bind_ok; [apply call_ok|]. intros obj.
      apply sat_bind_ok; [apply call_ok|]. intros ?. apply IH. }
    simpl. intros o t H res Hres.
    destruct (H res Hres) as (obj & t1 & t2 & -> & -> & u & t3 & t4 & ->
                              & -> & hs & Hlen & -> & ->).
    exists (obj :: hs). simpl. rewrite Hlen, <- app_assoc. by destruct u.
Qed.

Lemma createObjs_ok rl statsl acc :
  sat (createObjs X rl statsl acc)
      (fun o t => forall res, o = Ok res ->
         exists hs, length hs = length statsl /\
                    res = acc ++ (handle.GetMeta <$> hs) /\
                    t = createTrace rl statsl hs).
Proof.
  revert acc. induction statsl as [|stats rest IH]; intros acc; simpl.
  - apply sat_ret. intros res [= <-]. exists []. by rewrite app_nil_r.
  - eapply sat_mono.
    { apply sat_bind_ok; [apply call_ok|]. intros obj.
      apply sat_bind_ok; [apply call_ok|]. intros ?.
      apply sat_bind_ok with
        (P1 := fun _ t => t = [EvSetSorted (handle.GetMeta obj)]);
        [by apply sat_emit|].
      intros ?. apply IH. }
    simpl. intros o t H res Hres.
    destruct (H res Hres) as (obj & t1 & t2 & -> & -> & u & t3 & t4 & ->
                              & -> & u' & t5 & t6 & -> & -> & hs & Hlen
                              & -> & ->).
    exists (obj :: hs). simpl. rewrite Hlen, <- app_assoc. by destruct u.
Qed.

(** A successful call makes exactly these calls, in this order. *)
Lemma HandleMergeEntryInTxn_ok txn entry rt :
  sat (HandleMergeEntryInTxn X txn (Some entry) rt)
      (fun o t => forall res, o = Ok res ->
         exists db rl dropH newH e,
           length dropH = length (mergesort.MergedObjs entry) /\
           length newH = length (mergesort.CreatedObjectStats entry) /\
           res = handle.GetMeta <$> newH /\
           t = [EvGetDatabaseByID txn (mergesort.DbID entry) (inl db);
                EvGetRelationByID db (mergesort.TableID entry) (inl rl)]
               ++ dropTrace rl (mergesort.MergedObjs entry) dropH
               ++ createTrace rl (mergesort.CreatedObjectStats entry) newH
               ++ [EvNewMergeObjectsEntry txn rl (handle.GetMeta <$> dropH)
                     (handle.GetMeta <$> newH) (mergesort.Booking entry)
                     (inl e);
                   EvLogTxnEntry txn (mergesort.DbID entry)
                     (mergesort.TableID entry) e [] (inl tt)]).
Proof.
  unfold HandleMergeEntryInTxn. eapply sat_mono.
  { apply sat_bind_ok; [apply call_ok|]. intros db.
    apply sat_bind_ok; [apply call_ok|]. intros rl.
    apply sat_bind_ok; [apply dropMerged_ok|]. intros mergedObjs.
    apply sat_bind_ok; [apply createObjs_ok|]. intros createdObjs.
    apply sat_bind_ok; [apply call_ok|]. intros txnEntry.
    apply sat_bind_ok with (P2 := fun _ b t => b = createdObjs /\ t = []);
      [apply call_ok|].
    intros ?. apply sat_ret. by intros b [= <-]. }
  simpl. intros o t H res Hres.
  destruct (H res Hres) as
    (db & ? & ? & -> & -> & rl & ? & ? & -> & -> & dropped & ? & ? & ->
     & (dropH & HdL & Hd & ->) & created & ? & ? & ->
     & (newH & HnL & Hn & ->) & e & ? & ? & -> & -> & u & ? & ? & -> & ->
     & Hr & ->).
  simpl in Hd, Hn. subst dropped created res.
  exists db, rl, dropH, newH, e. destruct u.
  repeat split; [done..|]. by simpl.
Qed.

(** *** What the loops' traces contain *)

Lemma dropTrace_reads rl drops hs :
  length hs = length drops ->
  softDeleted (dropTrace rl drops hs)
    = objectio.ObjectName_ObjectId <$> drops /\
  lookedUp (dropTrace rl drops hs) = handle.GetMeta <$> hs /\
  createdIds (dropTrace rl drops hs) = [] /\
  createdMetas (dropTrace rl drops hs) = [] /\
  statsAttached (dropTrace rl drops hs) = [] /\
  sortedMarks (dropTrace rl drops hs) = [] /\
  Forall (fun ev => is_log ev = false) (dropTrace rl drops hs).
Proof.
  revert hs. induction drops as [|drop rest IH]; intros [|h hs] Hlen;
    simplify_eq/=; [by repeat split|].
  destruct (IH hs Hlen) as (-> & -> & -> & -> & -> & -> & HF).
  repeat split; by repeat constructor.
Qed.

Lemma createTrace_reads rl statsl hs :
  length hs = length statsl ->
  softDeleted (createTrace rl statsl hs) = [] /\
  lookedUp (createTrace rl statsl hs) = [] /\
  createdIds (createTrace rl statsl hs)
    = objectio.ObjectName_ObjectId <$> statsl /\
  createdMetas (createTrace rl statsl hs) = handle.GetMeta <$> hs /\
  statsAttached (createTrace rl statsl hs)
    = zip (handle.GetMeta <$> hs) statsl /\
  sortedMarks (createTrace rl statsl hs) = handle.GetMeta <$> hs /\
  Forall (fun ev => is_log ev = false) (createTrace rl statsl hs).
Proof.
  revert hs. induction statsl as [|stats rest IH]; intros [|h hs] Hlen;
    simplify_eq/=; [by repeat split|].
  destruct (IH hs Hlen) as (-> & -> & -> & -> & -> & -> & HF).
  repeat split; by repeat constructor.
Qed.

(** *** The constructor *)

Lemma resolveHandles_ok rl metas acc :
  sat (resolveHandles X rl metas acc)
      (fun o t => forall hs, o = Ok hs ->
         exists hs', hs = acc ++ hs' /\ length hs' = length metas /\
           t = zip_with (fun meta h =>
                           EvGetObject rl (catalog.obj_ID meta) (inl h))
                        metas hs').
Proof.
  revert acc. induction metas as [|meta rest IH]; intros acc; simpl.
  - apply sat_ret. intros hs [= <-]. exists []. by rewrite app_nil_r.
  - eapply sat_mono.
    { apply sat_bind_ok; [apply call_ok|]. intros obj. apply IH. }
    simpl. intros o t H hs Hhs.
    destruct (H hs Hhs) as (obj & t1 & t2 & -> & -> & hs' & -> & Hlen & ->).
    exists (obj :: hs'). simpl. by rewrite Hlen, <- app_assoc.
Qed.

(** What a successfully built task holds, and the calls that built it. *)
Lemma NewMergeObjectsTask_ok ctx tx objs r :
  sat (NewMergeObjectsTask X ctx tx objs r)
      (fun o t => forall task, o = Ok task ->
         exists first rest db,
           objs = first :: rest /\
           mergedObjs task = objs /\
           txn task = tx /\
           did task = catalog.db_ID (catalog.GetDB (catalog.GetTable first)) /\
           tid task = catalog.tbl_ID (catalog.GetTable first) /\
           mergedBlkCnt task = (blkOffsets objs 0).1 /\
           totalMergedBlkCnt task = (blkOffsets objs 0).2 /\
           length (mergedObjsHandle task) = length objs /\
           t = [EvGetDatabaseByID tx (did task) (inl db);
                EvGetRelationByID db (tid task) (inl (rel task))]
               ++ zip_with (fun meta h =>
                              EvGetObject (rel task) (catalog.obj_ID meta)
                                (inl h))
                    objs (mergedObjsHandle task)).
Proof.
  unfold NewMergeObjectsTask. destruct objs as [|first rest].
  { apply sat_panic. discriminate. }
  destruct (blkOffsets (first :: rest) 0) as [offs total] eqn:Hoffs.
  eapply sat_mono.
  { apply sat_bind_ok; [apply call_ok|]. intros db.
    apply sat_bind_ok; [apply call_ok|]. intros rl.
    apply sat_bind_ok; [apply resolveHandles_ok|]. intros handles.
    apply ret_ok. }
  simpl. intros o t H task Htask.
  destruct (H task Htask) as
    (db & ? & ? & -> & -> & rl & ? & ? & -> & -> & handles & ? & ? & ->
     & (hs' & -> & Hlen & ->) & -> & ->).
  exists first, rest, db. simpl in *. rewrite app_nil_r.
  by repeat split.
Qed.

(** *** NewMergeObjectsTask *)

(** C1 (as the code has it): constructing a merge task with an empty
    source-object list panics with "empty mergedObjs".  The panic comes
    before any call on the catalog or on storage: the trace is empty and
    the state is unchanged.  No error value is returned. *)
Theorem NewMergeObjectsTask_empty_panics ctx tx r s :
  NewMergeObjectsTask X ctx tx [] r s = (Panic "empty mergedObjs", s, []).
Proof. reflexivity. Qed.

(** C10: a task that was built took its database id, its table id and its
    relation from the first source object's table alone: one database
    lookup by that database id, one relation lookup by that table id, and
    then one object lookup per source object, each in that one relation.
    The commit entry's ids are those of the first source object. *)
Theorem NewMergeObjectsTask_first_table ctx tx objs r s task s' t :
  NewMergeObjectsTask X ctx tx objs r s = (Ok task, s', t) ->
  exists first rest db,
    objs = first :: rest /\
    did task = catalog.db_ID (catalog.GetDB (catalog.GetTable first)) /\
    tid task = catalog.tbl_ID (catalog.GetTable first) /\
    t = [EvGetDatabaseByID tx (did task) (inl db);
         EvGetRelationByID db (tid task) (inl (rel task))]
        ++ zip_with (fun meta h =>
                       EvGetObject (rel task) (catalog.obj_ID meta) (inl h))
             objs (mergedObjsHandle task) /\
    length (mergedObjsHandle task) = length objs /\
    mergesort.DbID (PrepareCommitEntry task).2
      = catalog.db_ID (catalog.GetDB (catalog.GetTable first)) /\
    mergesort.TableID (PrepareCommitEntry task).2
      = catalog.tbl_ID (catalog.GetTable first).
Proof.
  intros Hrun.
  destruct (sat_run _ _ _ _ _ _ (NewMergeObjectsTask_ok ctx tx objs r) Hrun
              task eq_refl)
    as (first & rest & db & -> & _ & _ & Hdid & Htid & _ & _ & Hlen & ->).
  exists first, rest, db. by repeat split.
Qed.

(** *** PrepareNewWriterFunc and Execute *)

Lemma collectSeqnums_spec defs acc :
  collectSeqnums defs acc
  = acc ++ map catalog.SeqNum
             (List.filter (fun d => negb (catalog.IsPhyAddr d)) defs).
Proof.
  revert acc. induction defs as [|d defs IH]; intros acc; simpl.
  - by rewrite app_nil_r.
  - destruct (catalog.IsPhyAddr d); simpl; rewrite IH; [done|].
    by rewrite <- app_assoc.
Qed.

(** C4: for a schema with at least one column definition, the sort-key
    position [Execute] passes to [DoMergeAndWrite] is the one the writer
    factory is built with: the table's sort-key position, or [-1] for
    none.  The factory's primary-key flag is set exactly when the table
    has a sort key that is the primary key; its version and sequence
    numbers are the schema's. *)
Theorem writer_sortkey_is_Execute_sortkey task s :
  catalog.ColDefs (handle.Schema (rel task)) <> [] ->
  (exists r rest,
     (Execute X task s).2
     = EvDoMergeAndWrite (tableSortKeyPos (handle.Schema (rel task)))
         (catalog.BlockMaxRows (handle.Schema (rel task))) r :: rest) /\
  exists w,
    PrepareNewWriterFunc task = Ok w /\
    w_sortkeyPos w = tableSortKeyPos (handle.Schema (rel task)) /\
    (w_sortkeyIsPK w = true <->
     exists k, catalog.SortKey (handle.Schema (rel task)) = Some k /\
               catalog.sk_IsPrimary k = true) /\
    w_ver w = catalog.Version (handle.Schema (rel task)) /\
    w_seqnums w = map catalog.SeqNum (dataCols (handle.Schema (rel task))).
Proof.
  set (schema := handle.Schema (rel task)).
  set (pos := tableSortKeyPos schema).
  intros Hcols. split.
  - unfold Execute, Execute_body, bind, doMergeAndWrite.
    change (handle.Schema (rel task)) with schema.
    assert (Hpos : (if catalog.HasSortKey schema
                    then catalog.GetSingleSortKeyIdx schema else -1) = pos).
    { unfold pos, tableSortKeyPos, catalog.HasSortKey,
        catalog.GetSingleSortKeyIdx.
      by destruct (catalog.SortKey schema). }
    rewrite Hpos.
    destruct (DoMergeAndWrite X pos (catalog.BlockMaxRows schema) task s)
      as [[r ce] s1].
    exists r. simpl. destruct r as [u|e]; simpl; [|by eexists].
    unfold try.
    destruct (HandleMergeEntryInTxn X _ ce _ s1) as [[[objs|e|p] s2] t2];
      simpl; by eexists.
  - unfold PrepareNewWriterFunc. change (handle.Schema (rel task)) with schema.
    destruct (decide (length (catalog.ColDefs schema) = 0%nat)) as [H0|_].
    { by destruct (catalog.ColDefs schema). }
    unfold pos, tableSortKeyPos, catalog.HasPK, catalog.HasSortKey,
      catalog.GetSingleSortKeyIdx, dataCols.
    destruct (catalog.SortKey schema) as [[idx [|]]|]; simpl;
      eexists; (split; [reflexivity|]); simpl;
      rewrite collectSeqnums_spec; repeat split; try done;
      try (intros; by eexists); try (by intros (k & [= <-] & ?));
      by intros (k & ? & ?).
Qed.

(** *** HandleMergeEntryInTxn *)

(** C2 (as the code has it): in a successful catalog-apply phase every
    created object is marked sorted, once, after its statistics are
    attached: the objects marked sorted are exactly the created objects
    that are returned, one per created-object statistics entry.  The mark
    does not depend on the table having a sort key. *)
Theorem HandleMergeEntryInTxn_marks_all_sorted tx entry r s created s' t :
  HandleMergeEntryInTxn X tx (Some entry) r s = (Ok created, s', t) ->
  sortedMarks t = created /\
  (statsAttached t).*1 = created /\
  length created = length (mergesort.CreatedObjectStats entry).
Proof.
  intros Hrun.
  destruct (sat_run _ _ _ _ _ _ (HandleMergeEntryInTxn_ok tx entry r) Hrun
              created eq_refl)
    as (db & rl & dropH & newH & e & HdL & HnL & -> & ->).
  destruct (dropTrace_reads rl _ _ HdL) as (_ & _ & _ & _ & Hd1 & Hd2 & _).
  destruct (createTrace_reads rl _ _ HnL) as (_ & _ & _ & _ & Hc1 & Hc2 & _).
  unfold sortedMarks, statsAttached in *. rewrite !omap_app.
  rewrite Hd1, Hd2, Hc1, Hc2. simpl. rewrite !app_nil_r.
  repeat split; [|by rewrite length_fmap].
  apply fst_zip. rewrite length_fmap. lia.
Qed.

(** C6: a successful catalog-apply phase soft-deletes every source object
    of the commit entry, creates one non-appendable object per
    created-object statistics entry under the identifier embedded in the
    statistics and attaches these statistics to it, and ends by appending
    one log entry to the transaction under (database id, table id): the
    entry built from the source objects looked up, the created objects and
    the booking map.  The created objects are returned. *)
Theorem HandleMergeEntryInTxn_applies_entry tx entry r s created s' t :
  HandleMergeEntryInTxn X tx (Some entry) r s = (Ok created, s', t) ->
  softDeleted t
    = objectio.ObjectName_ObjectId <$> mergesort.MergedObjs entry /\
  createdIds t
    = objectio.ObjectName_ObjectId <$> mergesort.CreatedObjectStats entry /\
  createdMetas t = created /\
  statsAttached t = zip created (mergesort.CreatedObjectStats entry) /\
  exists rl e pre,
    t = pre ++ [EvNewMergeObjectsEntry tx rl (lookedUp pre) created
                  (mergesort.Booking entry) (inl e);
                EvLogTxnEntry tx (mergesort.DbID entry)
                  (mergesort.TableID entry) e [] (inl tt)] /\
    length (lookedUp pre) = length (mergesort.MergedObjs entry) /\
    Forall (fun ev => is_log ev = false) pre.
Proof.
  intros Hrun.
  destruct (sat_run _ _ _ _ _ _ (HandleMergeEntryInTxn_ok tx entry r) Hrun
              created eq_refl)
    as (db & rl & dropH & newH & e & HdL & HnL & -> & ->).
  destruct (dropTrace_reads rl _ _ HdL)
    as (Hd1 & Hd2 & Hd3 & Hd4 & Hd5 & _ & Hd7).
  destruct (createTrace_reads rl _ _ HnL)
    as (Hc1 & Hc2 & Hc3 & Hc4 & Hc5 & _ & Hc7).
  unfold softDeleted, createdIds, createdMetas, statsAttached, lookedUp
    in *.
  rewrite !omap_app, Hd1, Hd3, Hd4, Hd5, Hc1, Hc3, Hc4, Hc5. simpl.
  rewrite !app_nil_r. repeat split; try done.
  exists rl, e,
    ([EvGetDatabaseByID tx (mergesort.DbID entry) (inl db);
      EvGetRelationByID db (mergesort.TableID entry) (inl rl)]
     ++ dropTrace rl (mergesort.MergedObjs entry) dropH
     ++ createTrace rl (mergesort.CreatedObjectStats entry) newH).
  rewrite !omap_app, Hd2, Hc2. simpl. rewrite app_nil_r, length_fmap.
  repeat split; [by rewrite <- !app_assoc|done|].
  repeat constructor. by apply Forall_app.
Qed.

(** C7: when a call of the catalog-apply phase fails (a database, relation
    or object lookup, a soft-delete, an object creation, a statistics
    update, the building or the appending of the log entry),
    [HandleMergeEntryInTxn] returns that call's error and no created
    objects.  The failing call is the last call it makes; all calls before
    it succeeded, and every call made is one of the phase's own forward
    calls: nothing is undone. *)
Theorem HandleMergeEntryInTxn_aborts_on_failure tx entry r s o s' t ev e :
  HandleMergeEntryInTxn X tx (Some entry) r s = (o, s', t) ->
  In ev t -> ev_err ev = Some e ->
  o = Err e /\
  (exists pre, t = pre ++ [ev] /\
               Forall (fun ev' => ev_err ev' = None) pre) /\
  Forall (fun ev' => catalog_op ev' = true) t.
Proof.
  intros Hrun Hin Hev.
  destruct (sat_run _ _ _ _ _ _
              (HandleMergeEntryInTxn_disciplined tx entry r) Hrun)
    as [Hcat Ho].
  apply list_elem_of_In in Hin.
  destruct o as [created|e'|p]; [|clear Hcat|done].
  - rewrite Forall_forall in Ho. specialize (Ho ev Hin). congruence.
  - destruct Ho as (pre & ev' & -> & Hev' & Hpre).
    apply elem_of_app in Hin as [Hin|Hin].
    + rewrite Forall_forall in Hpre. specialize (Hpre ev Hin). congruence.
    + apply list_elem_of_singleton in Hin as ->.
      assert (e' = e) as -> by congruence.
      split; [done|]. split; [by exists pre|].
      destruct (sat_run _ _ _ _ _ _
                  (HandleMergeEntryInTxn_disciplined tx entry r) Hrun)
        as [Hcat _]. exact Hcat.
Qed.

(** *** Execute *)

Lemma HandleMergeEntryInTxn_no_engine tx ce r s :
  Forall (fun ev => is_engine ev = false)
         (HandleMergeEntryInTxn X tx ce r s).2.
Proof.
  destruct ce as [entry|]; [|by constructor].
  destruct (HandleMergeEntryInTxn_disciplined tx entry r s) as [Hcat _].
  eapply Forall_impl; [exact Hcat|]. by intros [].
Qed.

(** C8: [Execute] first runs the merge-and-write phase, once.  If it
    fails, the error is logged with the phase name "1-DoMergeAndWrite" and
    returned as it is, and no call of the catalog-apply phase is made.
    Otherwise the catalog-apply phase runs, once; if it fails, its error
    is logged with the phase name "2-HandleMergeEntryInTxn" and returned
    as it is.  Neither phase is run a second time. *)
Theorem Execute_runs_phases_in_order task s :
  exists r ce s1,
    DoMergeAndWrite X (tableSortKeyPos (handle.Schema (rel task)))
      (catalog.BlockMaxRows (handle.Schema (rel task))) task s
    = (r, ce, s1) /\
    let first :=
      EvDoMergeAndWrite (tableSortKeyPos (handle.Schema (rel task)))
        (catalog.BlockMaxRows (handle.Schema (rel task))) r in
    let task1 := set_commitEntry task ce in
    match r with
    | inr e =>
        Execute X task s
        = (Ok (task1, Some e), s1,
           [first; EvLogError (BaseTask task) e phase1])
    | inl _ =>
        exists o2 s2 t2,
          HandleMergeEntryInTxn X (txn task) ce (rt task) s1
          = (o2, s2, t2) /\
          Forall (fun ev => is_engine ev = false) t2 /\
          match o2 with
          | Ok objs =>
              Execute X task s
              = (Ok (set_createdBObjs task1 objs, None), s2,
                 first :: t2 ++ [EvPerfCounter])
          | Err e =>
              Execute X task s
              = (Ok (set_createdBObjs task1 [], Some e), s2,
                 first :: t2 ++ [EvLogError (BaseTask task) e phase2])
          | Panic p => Execute X task s = (Panic p, s2, first :: t2)
          end
    end.
Proof.
  assert (Hpos : (if catalog.HasSortKey (handle.Schema (rel task))
                  then catalog.GetSingleSortKeyIdx (handle.Schema (rel task))
                  else -1) = tableSortKeyPos (handle.Schema (rel task))).
  { unfold tableSortKeyPos, catalog.HasSortKey, catalog.GetSingleSortKeyIdx.
    by destruct (catalog.SortKey _). }
  unfold Execute, Execute_body, bind, doMergeAndWrite. rewrite Hpos.
  destruct (DoMergeAndWrite X _ _ task s) as [[r ce] s1].
  exists r, ce, s1. split; [done|]. simpl.
  destruct r as [u|e]; simpl; [|done].
  pose proof (HandleMergeEntryInTxn_no_engine (txn task) ce (rt task) s1)
    as Hne.
  unfold try.
  destruct (HandleMergeEntryInTxn X (txn task) ce (rt task) s1)
    as [[o2 s2] t2].
  exists o2, s2, t2. split; [done|]. split; [done|].
  destruct o2 as [objs|e|p]; simpl; by rewrite ?app_nil_r, <- ?app_assoc.
Qed.

(** *** PrepareData: the pieces *)

Lemma collectCols_spec defs idxs attrs :
  collectCols defs idxs attrs
  = (idxs ++ map catalog.Idx
               (List.filter (fun d => negb (catalog.IsPhyAddr d)) defs),
     attrs ++ map catalog.col_Name
                (List.filter (fun d => negb (catalog.IsPhyAddr d)) defs)).
Proof.
  revert idxs attrs. induction defs as [|d defs IH]; intros idxs attrs; simpl.
  - by rewrite !app_nil_r.
  - destruct (catalog.IsPhyAddr d); simpl; rewrite IH; [done|].
    by rewrite <- !app_assoc.
Qed.

Lemma closeFrom_nil k n (s : St) :
  closeFrom k (replicate n None) s = (Ok tt, s, []).
Proof. revert k. induction n as [|n IH]; intros k; simpl; [done|apply IH]. Qed.

Lemma closeFrom_run k vs n (s : St) :
  closeFrom k ((Some <$> vs) ++ replicate n None) s
  = (Ok tt, s, imap (fun i v => EvClose (k + i) v) vs).
Proof.
  revert k. induction vs as [|v vs IH]; intros k; simpl.
  - apply closeFrom_nil.
  - unfold bind, emit. rewrite IH. simpl. rewrite Nat.add_0_r.
    do 2 f_equal. apply imap_ext. intros i x _. simpl. f_equal. lia.
Qed.

(** The release function closes each of the views once, in its slot. *)
Lemma releaseF_run vs n (s : St) :
  releaseF ((Some <$> vs) ++ replicate n None) s = (Ok tt, s, closes vs).
Proof. unfold releaseF. by rewrite closeFrom_run. Qed.

Lemma setVecs_fill cols i pre :
  length pre = i ->
  setVecs cols i (pre ++ replicate (length cols) None)
  = pre ++ ((fun c => Some (containers.GetData c)) <$> cols).
Proof.
  revert i pre. induction cols as [|c cols IH]; intros i pre Hi; simpl.
  - done.
  - rewrite <- Hi, <- (Nat.add_0_r (length pre)), insert_app_r. simpl.
    rewrite (cons_middle (Some _)), app_assoc.
    rewrite IH; [by rewrite <- app_assoc|]. rewrite length_app. simpl. lia.
Qed.

Lemma store_slot {A} (pre post : list A) (x y : A) :
  store (pre ++ x :: post) (length pre) y
  = ret (St:=St) (pre ++ y :: post).
Proof.
  unfold store. rewrite decide_True.
  - by rewrite <- (Nat.add_0_r (length pre)), insert_app_r.
  - rewrite length_app. simpl. lia.
Qed.

Lemma acquired_readsOk idxs ps vs :
  (length vs <= length ps)%nat -> acquired (readsOk idxs ps vs) = vs.
Proof.
  revert vs. induction ps as [|p ps IH]; intros [|v vs] Hlen;
    simpl in *; try done; try lia.
  unfold acquired in *. simpl. f_equal. apply IH. lia.
Qed.

Lemma readsOk_app_l idxs ps qs vs :
  (length vs <= length ps)%nat ->
  readsOk idxs (ps ++ qs) vs = readsOk idxs ps vs.
Proof.
  revert vs. induction ps as [|p ps IH]; intros [|v vs] Hlen;
    simpl in *; try done; try lia.
  - by destruct qs.
  - unfold readsOk in *. simpl. f_equal. apply IH. lia.
Qed.

Lemma readsOk_app idxs ps qs vs ws :
  length vs = length ps ->
  readsOk idxs (ps ++ qs) (vs ++ ws)
  = readsOk idxs ps vs ++ readsOk idxs qs ws.
Proof. intros Hlen. unfold readsOk. by apply zip_with_app. Qed.

Lemma readsOk_no_close idxs ps vs :
  Forall (fun ev => is_close ev = false) (readsOk idxs ps vs) /\
  Forall (fun ev => ev_err ev = None) (readsOk idxs ps vs).
Proof.
  revert vs. induction ps as [|p ps IH]; intros [|v vs]; simpl;
    try by split; constructor.
  destruct (IH vs). split; by constructor.
Qed.

(** The reads of one object: they fill the slots after those already
    filled, and stop at the first failure. *)
Lemma readBlocks_spec obj idxs minOff n :
  forall j vs r,
    length vs = (minOff + j)%nat -> (n <= r)%nat ->
    sat (readBlocks X obj idxs minOff n j ((Some <$> vs) ++ replicate r None))
        (fun o t => exists vs',
           match o with
           | Ok (views', None) =>
               length vs' = n /\
               views' = (Some <$> (vs ++ vs')) ++ replicate (r - n) None /\
               t = readsOk idxs (pair obj <$> seq j n) vs'
           | Ok (views', Some e) =>
               (length vs' < n)%nat /\
               views' = (Some <$> (vs ++ vs'))
                        ++ replicate (r - length vs') None /\
               t = readsOk idxs (pair obj <$> seq j n) vs'
                   ++ [readEv idxs (obj, (j + length vs')%nat) (inr e)]
           | _ => False
           end).
Proof.
  induction n as [|n IH]; intros j vs r Hlen Hr; simpl.
  - apply sat_ret. exists []. simpl.
    by rewrite app_nil_r, Nat.sub_0_r.
  - destruct r as [|r]; [lia|]. simpl.
    apply sat_bind, sat_try, sat_call.
    + intros v. rewrite <- Hlen, <- length_fmap with (f := Some).
      rewrite store_slot. apply sat_bind, sat_ret.
      replace ((Some <$> vs) ++ Some v :: replicate r None)
        with ((Some <$> (vs ++ [v])) ++ replicate r None)
        by (by rewrite fmap_app, <- app_assoc).
      eapply sat_mono.
      { apply (IH (S j) (vs ++ [v]) r); [|lia].
        rewrite length_app. simpl. lia. }
      simpl. intros [[views' [e|]]|e|p] t [vs' H]; try done.
      * destruct H as (Hlt & -> & ->). exists (v :: vs'). simpl.
        rewrite <- !app_assoc, Nat.add_succ_r. simpl.
        split; [lia|]. by split.
      * destruct H as (Hlt & -> & ->). exists (v :: vs'). simpl.
        rewrite <- !app_assoc. simpl. split; [lia|]. by split.
    + intros e. rewrite <- Hlen, <- length_fmap with (f := Some).
      rewrite store_slot. apply sat_bind, sat_ret, sat_ret.
      exists []. simpl. rewrite app_nil_r, Nat.add_0_r.
      split; [lia|]. by split.
Qed.

Lemma drop_cons_inv {A} (l : list A) i x l' :
  drop i l = x :: l' -> l !! i = Some x /\ drop (S i) l = l'.
Proof.
  revert i. induction l as [|y l IH]; intros [|i] H; simpl in *;
    try done; [by simplify_eq|by apply IH].
Qed.

Lemma blkOffsets_total objs base :
  (blkOffsets objs base).2
  = (base + sum_list (catalog.BlockCnt <$> objs))%nat.
Proof.
  revert base. induction objs as [|o objs IH]; intros base; csimpl; [lia|].
  specialize (IH (base + catalog.BlockCnt o)%nat).
  destruct (blkOffsets objs _) as [offs tot]. csimpl in *. lia.
Qed.

(** The reads of all the objects, for a task whose offsets are the running
    block totals of its source objects. *)
Lemma readObjects_spec task idxs :
  forall hs os i base vs,
    length hs = length os ->
    drop i (mergedBlkCnt task) = (blkOffsets os base).1 ->
    totalMergedBlkCnt task = (blkOffsets os base).2 ->
    length (mergedObjs task) = (i + length os)%nat ->
    length vs = base ->
    sat (readObjects X task idxs hs i
           ((Some <$> vs)
            ++ replicate (sum_list (catalog.BlockCnt <$> os)) None))
        (fun o t => exists vs',
           match o with
           | Ok (views', None) =>
               length vs' = length (plan hs (catalog.BlockCnt <$> os)) /\
               views' = Some <$> (vs ++ vs') /\
               t = readsOk idxs (plan hs (catalog.BlockCnt <$> os)) vs'
           | Ok (views', Some e) =>
               exists p,
                 plan hs (catalog.BlockCnt <$> os) !! length vs' = Some p /\
                 views' = (Some <$> (vs ++ vs'))
                          ++ replicate
                               (sum_list (catalog.BlockCnt <$> os)
                                - length vs') None /\
                 t = readsOk idxs (plan hs (catalog.BlockCnt <$> os)) vs'
                     ++ [readEv idxs p (inr e)]
           | _ => False
           end).
Proof.
  induction hs as [|obj rest IH]; intros [|ob os] i base vs Hlen Hdrop Htot
    Hobjs Hvs; simplify_eq/=.
  { apply sat_ret. exists []. by rewrite !app_nil_r. }
  destruct (blkOffsets os (length vs + catalog.BlockCnt ob))
    as [offs tot] eqn:E.
  simpl in *. apply drop_cons_inv in Hdrop as [Hmin Hdrop].
  apply sat_bind.
  assert (Hmax : forall Q,
    Q (Ok (length vs + catalog.BlockCnt ob)%nat) [] ->
    sat (if decide (Z.of_nat i <> Z.of_nat (length (mergedObjs task)) - 1)
         then index (mergedBlkCnt task) (i + 1)
         else ret (St:=St) (totalMergedBlkCnt task)) Q).
  { intros Q HQ. destruct (decide _) as [Hne|Heq].
    - destruct os as [|ob2 os]; [simpl in *; lia|]. simpl in E.
      destruct (blkOffsets os _) as [offs2 tot2]. injection E as <- <-.
      apply drop_cons_inv in Hdrop as [Hnext _].
      unfold index. rewrite Nat.add_1_r, Hnext. by apply sat_ret.
    - destruct os as [|ob2 os]; [|simpl in *; lia]. simpl in E.
      injection E as <- <-. rewrite Htot. by apply sat_ret. }
  apply Hmax. apply sat_bind. unfold index. rewrite Hmin.
  apply sat_ret, sat_bind. simpl.
  replace (length vs + catalog.BlockCnt ob - length vs)%nat
    with (catalog.BlockCnt ob) by lia.
  eapply sat_mono.
  { apply readBlocks_spec with (vs := vs); [|apply Nat.le_add_r]. lia. }
  simpl. intros [[views' [e|]]|e|p] t [vs1 H]; try done.
  - destruct H as (Hlt & -> & ->). apply sat_ret.
    exists vs1, (obj, length vs1).
    rewrite app_nil_r. split; [|split; [done|]].
    + rewrite lookup_app_l by (by rewrite length_fmap, length_seq).
      rewrite list_lookup_fmap, lookup_seq_lt by done. done.
    + by rewrite readsOk_app_l
        by (rewrite length_fmap, length_seq; lia).
  - destruct H as (Hl1 & -> & ->).
    replace (catalog.BlockCnt ob + sum_list (catalog.BlockCnt <$> os)
             - catalog.BlockCnt ob)%nat
      with (sum_list (catalog.BlockCnt <$> os)) by lia.
    eapply sat_mono.
    { apply (IH os (S i) (length vs + catalog.BlockCnt ob)%nat (vs ++ vs1));
        [done|by rewrite E|by rewrite E|lia|].
      rewrite length_app. lia. }
    simpl. intros [[views' [e|]]|e|p] t [vs2 H]; try done.
    + destruct H as (p & Hp & -> & ->). exists (vs1 ++ vs2), p.
      rewrite length_app, <- !app_assoc.
      split; [|split].
      * rewrite lookup_app_r by (rewrite length_fmap, length_seq; lia).
        rewrite length_fmap, length_seq.
        by replace (length vs1 + length vs2 - catalog.BlockCnt ob)%nat
          with (length vs2) by lia.
      * do 2 f_equal. lia.
      * rewrite readsOk_app by (by rewrite length_fmap, length_seq).
        by rewrite <- app_assoc.
    + destruct H as (Hl2 & -> & ->). exists (vs1 ++ vs2).
      rewrite !length_app, <- !app_assoc, length_fmap, length_seq.
      split; [lia|]. split; [done|].
      by rewrite readsOk_app by (by rewrite length_fmap, length_seq).
Qed.

(** Building the batches makes no call.  It panics at the first view whose
    column count is not the number of attributes, or that has no
    column. *)
Lemma buildBatches_spec attrs vs :
  forall bs ds,
    sat (buildBatches (St:=St) attrs (Some <$> vs) bs ds)
        (fun o t =>
           t = [] /\
           match o with
           | Ok (bs', ds') =>
               bs' = bs ++ (mkBatch attrs <$> vs) /\
               ds' = ds ++ (containers.DeleteMask <$> vs) /\
               Forall (fun v => length (containers.Columns v)
                                = length attrs) vs
           | Err _ => False
           | Panic p =>
               p = mismatch ->
               Exists (fun v => length (containers.Columns v)
                                <> length attrs) vs
           end /\
           (Exists (fun v => length (containers.Columns v)
                             <> length attrs) vs ->
            exists p, o = Panic p)).
Proof.
  induction vs as [|v vs IH]; intros bs ds; simpl.
  - apply sat_ret. rewrite !app_nil_r. repeat split; try done.
    by intros ?%Exists_nil.
  - destruct (decide (length attrs <> length (containers.Columns v)))
      as [Hne|Heq].
    { apply sat_panic. repeat split.
      - intros _. by left.
      - intros _. by eexists. }
    apply dec_stable in Heq.
    destruct (containers.Columns v) as [|c0 cols] eqn:Hcols.
    { apply sat_panic. repeat split; [done|]. intros _. by eexists. }
    eapply sat_mono; [apply IH|].
    simpl. intros o t (-> & Ho & Hex). split; [done|]. split.
    + destruct o as [[bs' ds']|e|p]; [|done|].
      * destruct Ho as (-> & -> & HF). rewrite <- !app_assoc.
        split; [|split; [done|]].
        -- pose proof (setVecs_fill (c0 :: cols) 0 [] eq_refl) as Hb.
           f_equal. cbn [app]. f_equal.
           unfold mkBatch, batch.SetRowCount. rewrite Hcols, Heq.
           cbn [batch.Attrs batch.Vecs]. f_equal. exact Hb.
        -- constructor; [by rewrite Hcols|done].
      * intros Hp. right. by apply Ho.
    + intros [Hv|Hvs]%Exists_cons; [by rewrite Hcols in Hv|by apply Hex].
Qed.

Lemma length_plan hs cnts :
  length hs = length cnts -> length (plan hs cnts) = sum_list cnts.
Proof.
  revert cnts. induction hs as [|h hs IH]; intros [|c cnts] Hlen;
    simplify_eq/=; [done|].
  rewrite length_app, length_fmap, length_seq. by rewrite IH.
Qed.

Lemma plan_lookup hs cnts i h c j :
  hs !! i = Some h -> cnts !! i = Some c -> (j < c)%nat ->
  plan hs cnts !! (sum_list (take i cnts) + j)%nat = Some (h, j).
Proof.
  revert cnts i. induction hs as [|h0 hs IH]; intros [|c0 cnts] [|i] Hh Hc Hj;
    simplify_eq/=.
  - rewrite lookup_app_l by (by rewrite length_fmap, length_seq).
    by rewrite list_lookup_fmap, lookup_seq_lt.
  - rewrite lookup_app_r by (rewrite length_fmap, length_seq; lia).
    rewrite length_fmap, length_seq.
    replace (c0 + sum_list (take i cnts) + j - c0)%nat
      with (sum_list (take i cnts) + j)%nat by lia.
    by apply IH.
Qed.

Lemma sat_releaseF vs n (Q : Outcome unit -> list Event -> Prop) :
  Q (Ok tt) (closes vs) ->
  sat (St:=St) (releaseF ((Some <$> vs) ++ replicate n None)) Q.
Proof. intros HQ s. by rewrite releaseF_run. Qed.

Lemma readObjects_views0 task :
  totalMergedBlkCnt task = (blkOffsets (mergedObjs task) 0).2 ->
  replicate (totalMergedBlkCnt task) None
  = (Some <$> []) ++ replicate
                       (sum_list (catalog.BlockCnt <$> mergedObjs task))
                       (@None containers.BlockView).
Proof. intros ->. by rewrite blkOffsets_total. Qed.

(** *** PrepareData, for a task whose offsets are the running block
    totals of its source objects *)

Lemma PrepareData_spec task :
  mergedBlkCnt task = (blkOffsets (mergedObjs task) 0).1 ->
  totalMergedBlkCnt task = (blkOffsets (mergedObjs task) 0).2 ->
  length (mergedObjsHandle task) = length (mergedObjs task) ->
  sat (PrepareData X task)
      (fun o t =>
         let schema := handle.Schema (rel task) in
         let P := plan (mergedObjsHandle task)
                    (catalog.BlockCnt <$> mergedObjs task) in
         let idxs := map catalog.Idx (dataCols schema) in
         let attrs := map catalog.col_Name (dataCols schema) in
         (catalog.ColDefs schema = [] /\ t = [] /\
          o = Panic "makeslice: cap out of range") \/
         (catalog.ColDefs schema <> [] /\
          exists vs,
            match o with
            | Ok (bs, ds, release) =>
                length vs = length P /\
                t = readsOk idxs P vs /\
                bs = mkBatch attrs <$> vs /\
                ds = containers.DeleteMask <$> vs /\
                Forall (fun v => length (containers.Columns v)
                                 = length attrs) vs /\
                release = releaseF (Some <$> vs)
            | Err e =>
                exists p,
                  P !! length vs = Some p /\
                  t = readsOk idxs P vs ++ [readEv idxs p (inr e)]
                      ++ closes vs
            | Panic p =>
                length vs = length P /\
                t = readsOk idxs P vs /\
                (p = mismatch ->
                 Exists (fun v => length (containers.Columns v)
                                  <> length attrs) vs)
            end)).
Proof.
  intros Hblk Htot Hlen. unfold PrepareData.
  destruct (decide (length (catalog.ColDefs (handle.Schema (rel task)))
                    = 0%nat)) as [H0|Hne].
  { apply sat_panic. left.
    by destruct (catalog.ColDefs (handle.Schema (rel task))). }
  assert (Hcols : catalog.ColDefs (handle.Schema (rel task)) <> []).
  { by intros E; rewrite E in Hne. }
  rewrite collectCols_spec. cbn [app].
  fold (dataCols (handle.Schema (rel task))).
  rewrite (readObjects_views0 task Htot).
  apply sat_bind. eapply sat_mono.
  { by apply (readObjects_spec task _ (mergedObjsHandle task)
                (mergedObjs task) 0 0 []). }
  cbn beta. intros [[views' [e|]]|e|p] t [vs H]; try done.
  - destruct H as (p & Hp & -> & ->). cbn [app].
    apply sat_bind, sat_releaseF, sat_throw.
    right. split; [done|]. exists vs, p. by rewrite app_nil_r, <- app_assoc.
  - destruct H as (Hl & -> & ->). cbn [app].
    apply sat_bind. eapply sat_mono; [apply buildBatches_spec|].
    cbn beta. intros [[bs ds]|e|p] t (-> & Ho & Hex); [|done|].
    + destruct Ho as (-> & -> & HF). apply sat_ret.
      right. split; [done|]. exists vs. by rewrite !app_nil_r.
    + right. split; [done|]. exists vs. by rewrite !app_nil_r.
Qed.

(** A task out of the constructor meets the conditions of
    [PrepareData_spec]. *)
Lemma NewMergeObjectsTask_offsets ctx tx objs r s task s' t :
  NewMergeObjectsTask X ctx tx objs r s = (Ok task, s', t) ->
  mergedObjs task = objs /\
  mergedBlkCnt task = (blkOffsets (mergedObjs task) 0).1 /\
  totalMergedBlkCnt task = (blkOffsets (mergedObjs task) 0).2 /\
  length (mergedObjsHandle task) = length (mergedObjs task).
Proof.
  intros Hrun.
  destruct (sat_run _ _ _ _ _ _ (NewMergeObjectsTask_ok ctx tx objs r) Hrun
              task eq_refl)
    as (first & rest & db & -> & Hobjs & _ & _ & _ & Hblk & Htot & Hlen & _).
  by rewrite Hobjs.
Qed.

Lemma acquired_closeFrom k vs :
  acquired (imap (fun i v => EvClose (k + i) v) vs) = [].
Proof.
  revert k. induction vs as [|v vs IH]; intros k; [done|].
  rewrite imap_cons. unfold acquired in *. simpl.
  rewrite <- (IH (S k)). f_equal. apply imap_ext. intros i x _. simpl.
  f_equal. lia.
Qed.

Lemma acquired_closes vs : acquired (closes vs) = [].
Proof. apply (acquired_closeFrom 0). Qed.

Lemma acquired_app t1 t2 : acquired (t1 ++ t2) = acquired t1 ++ acquired t2.
Proof. apply omap_app. Qed.

(** C3: for a task out of the constructor, when a block read fails in
    [PrepareData], the trace of the call is the reads followed by one
    close for each view the reads handed out, each view in its own slot,
    and then the error is returned: every acquired view is released
    exactly once before the return.  On success no view is closed during
    the call, and the returned release function closes every acquired view
    exactly once. *)
Theorem PrepareData_releases_views ctx tx objs r s0 task s1 t0 s o s' t :
  NewMergeObjectsTask X ctx tx objs r s0 = (Ok task, s1, t0) ->
  PrepareData X task s = (o, s', t) ->
  match o with
  | Err e =>
      exists reads,
        t = reads ++ closes (acquired reads) /\
        Forall (fun ev => is_close ev = false) reads /\
        exists pre ev, reads = pre ++ [ev] /\ ev_err ev = Some e
  | Ok (_, _, release) =>
      Forall (fun ev => is_close ev = false) t /\
      forall s2, release s2 = (Ok tt, s2, closes (acquired t))
  | Panic _ => True
  end.
Proof.
  intros Hnew Hrun.
  destruct (NewMergeObjectsTask_offsets _ _ _ _ _ _ _ _ Hnew)
    as (_ & Hblk & Htot & Hlen).
  pose proof (sat_run _ _ _ _ _ _ (PrepareData_spec task Hblk Htot Hlen) Hrun)
    as [(_ & _ & ->)|(_ & vs & H)]; [done|].
  cbn zeta in H. destruct o as [[[bs ds] release]|e|p]; [| |done].
  - destruct H as (Hl & -> & _ & _ & _ & ->).
    split; [apply readsOk_no_close|]. intros s2.
    rewrite acquired_readsOk by lia.
    by rewrite <- (app_nil_r (Some <$> vs)), (releaseF_run vs 0).
  - destruct H as (p & Hp & ->). apply lookup_lt_Some in Hp.
    exists (readsOk (map catalog.Idx (dataCols (handle.Schema (rel task))))
              (plan (mergedObjsHandle task)
                 (catalog.BlockCnt <$> mergedObjs task)) vs
            ++ [readEv (map catalog.Idx (dataCols (handle.Schema (rel task))))
                  p (inr e)]).
    rewrite acquired_app, acquired_readsOk by lia. simpl.
    rewrite app_nil_r, <- app_assoc. split; [done|]. split.
    + apply Forall_app. split; [apply readsOk_no_close|by repeat constructor].
    + by eexists _, _.
Qed.

(** C5: for a task out of the constructor, a successful [PrepareData]
    returns one batch and one delete mask per source block and made one
    read per source block.  Block [j] of object [i] is at the global
    offset [prefixSum i + j]: the read at that position asks object [i]'s
    handle for block [uint16 j] and for the indices of the schema's
    columns other than the physical-address column, and the batch and the
    mask at that position are made from the view this read handed out.
    The batch carries the names of exactly these columns and one vector
    per column.  For an object of at most 65536 blocks [uint16 j] is [j]
    itself. *)
Theorem PrepareData_one_batch_per_block
    ctx tx objs r s0 task s1 t0 s bs ds release s' t :
  NewMergeObjectsTask X ctx tx objs r s0 = (Ok task, s1, t0) ->
  PrepareData X task s = (Ok (bs, ds, release), s', t) ->
  length bs = prefixSum objs (length objs) /\
  length ds = prefixSum objs (length objs) /\
  length t = prefixSum objs (length objs) /\
  forall i obj j,
    objs !! i = Some obj -> (j < catalog.BlockCnt obj)%nat ->
    exists h v,
      mergedObjsHandle task !! i = Some h /\
      t !! (prefixSum objs i + j)%nat
      = Some (EvGetColumnDataByIds h (uint16 j)
                (map catalog.Idx (dataCols (handle.Schema (rel task))))
                (inl v)) /\
      bs !! (prefixSum objs i + j)%nat
      = Some (mkBatch
                (map catalog.col_Name (dataCols (handle.Schema (rel task))))
                v) /\
      ds !! (prefixSum objs i + j)%nat = Some (containers.DeleteMask v) /\
      length (containers.Columns v)
      = length (dataCols (handle.Schema (rel task))) /\
      (Z.of_nat (catalog.BlockCnt obj) <= 65536 -> uint16 j = Z.of_nat j).
Proof.
  intros Hnew Hrun.
  destruct (NewMergeObjectsTask_offsets _ _ _ _ _ _ _ _ Hnew)
    as (Hobjs & Hblk & Htot & Hlen).
  pose proof (sat_run _ _ _ _ _ _ (PrepareData_spec task Hblk Htot Hlen) Hrun)
    as [(_ & _ & ?)|(_ & vs & H)]; [done|].
  cbn zeta in H. destruct H as (Hl & -> & -> & -> & HF & _).
  rewrite Hobjs in *.
  assert (HP : length (plan (mergedObjsHandle task)
                         (catalog.BlockCnt <$> objs))
               = prefixSum objs (length objs)).
  { rewrite length_plan by (by rewrite length_fmap).
    unfold prefixSum. by rewrite firstn_all. }
  rewrite !length_fmap. unfold readsOk at 1.
  rewrite length_zip_with, Hl, Nat.min_id, HP.
  repeat split; try done.
  intros i obj j Hi Hj.
  destruct (lookup_lt_is_Some_2 (mergedObjsHandle task) i) as [h Hh].
  { rewrite Hlen. by eapply lookup_lt_Some. }
  assert (Hp : plan (mergedObjsHandle task) (catalog.BlockCnt <$> objs)
               !! (prefixSum objs i + j)%nat = Some (h, j)).
  { unfold prefixSum. rewrite fmap_take.
    apply plan_lookup with (c := catalog.BlockCnt obj); [done| |done].
    by rewrite list_lookup_fmap, Hi. }
  destruct (lookup_lt_is_Some_2 vs (prefixSum objs i + j)) as [v Hv].
  { rewrite Hl. by eapply lookup_lt_Some. }
  exists h, v. split; [done|]. split; [|split; [|split; [|split]]].
  - unfold readsOk. by rewrite lookup_zip_with, Hp, Hv.
  - by rewrite list_lookup_fmap, Hv.
  - by rewrite list_lookup_fmap, Hv.
  - rewrite Forall_lookup in HF. rewrite (HF _ _ Hv).
    by rewrite length_map.
  - intros Hcnt. unfold uint16. apply Z.mod_small. lia.
Qed.

(** C9 (as the code has it): for a task out of the constructor, when every
    block read of [PrepareData] succeeds and some acquired view's column
    count differs from the number of requested columns, [PrepareData]
    panics and returns no error.  When every acquired view has exactly the
    requested number of columns, the mismatch panic does not occur. *)
Theorem PrepareData_mismatch_panics ctx tx objs r s0 task s1 t0 s o s' t :
  NewMergeObjectsTask X ctx tx objs r s0 = (Ok task, s1, t0) ->
  PrepareData X task s = (o, s', t) ->
  (Forall (fun ev => ev_err ev = None) t ->
   Exists (fun v => length (containers.Columns v)
                    <> length (dataCols (handle.Schema (rel task))))
          (acquired t) ->
   exists p, o = Panic p) /\
  (Forall (fun v => length (containers.Columns v)
                    = length (dataCols (handle.Schema (rel task))))
          (acquired t) ->
   o <> Panic mismatch).
Proof.
  intros Hnew Hrun.
  destruct (NewMergeObjectsTask_offsets _ _ _ _ _ _ _ _ Hnew)
    as (_ & Hblk & Htot & Hlen).
  pose proof (sat_run _ _ _ _ _ _ (PrepareData_spec task Hblk Htot Hlen) Hrun)
    as [(_ & _ & ->)|(_ & vs & H)]; [split; [by eexists|done]|].
  cbn zeta in H. rewrite length_map in H.
  destruct o as [[[bs ds] release]|e|p].
  - destruct H as (Hl & -> & _ & _ & HF & _).
    rewrite acquired_readsOk by lia. split; [|done].
    intros _ Hex. apply Exists_exists in Hex as (v & Hv & Hne).
    rewrite Forall_forall in HF. by specialize (HF v Hv).
  - destruct H as (p & Hp & ->). split; [|done].
    intros Hok _. apply Forall_app in Hok as [_ Hok].
    apply Forall_app in Hok as [Hok _]. by inversion Hok.
  - destruct H as (Hl & -> & Hmis). split; [by eexists|].
    rewrite acquired_readsOk by lia. intros HF [= ->].
    apply Exists_exists in Hmis as (v & Hv & Hne); [|done].
    rewrite Forall_forall in HF. by specialize (HF v Hv).
Qed.

(** *** More about the constructor *)

Lemma always_ret P {A} (a : A) : sat (St:=St) (ret a) (always P).
Proof. apply sat_ret. constructor. Qed.

Lemma always_call P {A} (f : St -> Res A * St) (ev : Res A -> Event) :
  (forall r, P (ev r) = true) -> sat (call f ev) (always P).
Proof. intros H. apply sat_call; intros; by repeat constructor. Qed.

Lemma always_emit P (ev : Event) :
  P ev = true -> sat (St:=St) (emit ev) (always P).
Proof. intros H. apply sat_emit. by repeat constructor. Qed.

Lemma always_bind P {A B} (m : M A) (k : A -> M B) :
  sat m (always P) -> (forall a, sat (k a) (always P)) ->
  sat (bind m k) (always P).
Proof.
  intros Hm Hk. apply sat_bind. eapply sat_mono; [exact Hm|].
  intros [a|e|p] t Ht; try exact Ht.
  eapply sat_mono; [apply Hk|]. intros o' t' Ht'. by apply Forall_app.
Qed.

Lemma prefixSum_S objs i o :
  objs !! i = Some o ->
  prefixSum objs (S i) = (prefixSum objs i + catalog.BlockCnt o)%nat.
Proof.
  intros Hi. unfold prefixSum.
  rewrite (take_S_r _ _ _ Hi), fmap_app, sum_list_with_app. simpl. lia.
Qed.

Lemma blkOffsets_lookup objs base i :
  (i < length objs)%nat ->
  (blkOffsets objs base).1 !! i = Some (base + prefixSum objs i)%nat.
Proof.
  revert base i. induction objs as [|o objs IH]; intros base i Hi;
    simpl in *; [lia|].
  specialize (IH (base + catalog.BlockCnt o)%nat).
  destruct (blkOffsets objs _) as [offs tot]. simpl in *.
  destruct i as [|i]; simpl.
  - unfold prefixSum. simpl. f_equal. lia.
  - rewrite IH by lia. unfold prefixSum. csimpl. f_equal. lia.
Qed.

Lemma blkOffsets_length objs base :
  length (blkOffsets objs base).1 = length objs.
Proof.
  revert base. induction objs as [|o objs IH]; intros base; simpl; [done|].
  specialize (IH (base + catalog.BlockCnt o)%nat).
  destruct (blkOffsets objs _) as [offs tot]. simpl in *. by rewrite IH.
Qed.

Lemma prefixSum_mono objs i j :
  (i <= j)%nat -> (prefixSum objs i <= prefixSum objs j)%nat.
Proof.
  induction 1 as [|j Hij IH]; [done|].
  destruct (objs !! j) as [o|] eqn:Hj.
  - rewrite (prefixSum_S _ _ _ Hj). lia.
  - apply lookup_ge_None in Hj. unfold prefixSum in *.
    rewrite (take_ge objs (S j)) by lia. rewrite (take_ge objs j) in IH by lia.
    done.
Qed.

(** X1: the block offsets of a built task are the running block totals of
    its source objects: there is one offset per object, the offset of object
    [i] is the number of blocks of the objects before it, the total is the
    number of blocks of all of them, and the offsets never decrease and
    never exceed the total. *)
Theorem NewMergeObjectsTask_block_offsets ctx tx objs r s task s' t :
  NewMergeObjectsTask X ctx tx objs r s = (Ok task, s', t) ->
  length (mergedBlkCnt task) = length objs /\
  (forall i, (i < length objs)%nat ->
             mergedBlkCnt task !! i = Some (prefixSum objs i)) /\
  totalMergedBlkCnt task = prefixSum objs (length objs) /\
  (forall i j a b,
     (i <= j)%nat ->
     mergedBlkCnt task !! i = Some a -> mergedBlkCnt task !! j = Some b ->
     (a <= b)%nat /\ (b <= totalMergedBlkCnt task)%nat).
Proof.
  intros Hrun.
  destruct (NewMergeObjectsTask_offsets _ _ _ _ _ _ _ _ Hrun)
    as (Hobjs & Hblk & Htot & _).
  rewrite Hobjs in *.
  assert (Hlen : length (mergedBlkCnt task) = length objs)
    by (by rewrite Hblk, blkOffsets_length).
  assert (Hlook : forall i, (i < length objs)%nat ->
                            mergedBlkCnt task !! i = Some (prefixSum objs i)).
  { intros i Hi. by rewrite Hblk, blkOffsets_lookup. }
  assert (Htotal : totalMergedBlkCnt task = prefixSum objs (length objs)).
  { rewrite Htot, blkOffsets_total. unfold prefixSum. by rewrite firstn_all. }
  repeat split; try done.
  - pose proof (lookup_lt_Some _ _ _ H0) as Hi.
    pose proof (lookup_lt_Some _ _ _ H1) as Hj.
    rewrite Hlook in H0, H1 by lia. simplify_eq. by apply prefixSum_mono.
  - pose proof (lookup_lt_Some _ _ _ H1) as Hj.
    rewrite Hlook in H1 by lia. simplify_eq. rewrite Htotal.
    apply prefixSum_mono. lia.
Qed.

Lemma resolveHandles_disciplined rl metas acc :
  sat (resolveHandles X rl metas acc) disciplined.
Proof.
  revert acc. induction metas as [|meta rest IH]; intros acc; simpl.
  - apply disc_ret.
  - apply disc_bind; [by apply disc_call|]. intros obj. apply IH.
Qed.

Lemma resolveHandles_lookups rl metas acc :
  sat (resolveHandles X rl metas acc) (always is_lookup).
Proof.
  revert acc. induction metas as [|meta rest IH]; intros acc; simpl.
  - apply always_ret.
  - apply always_bind; [by apply always_call|]. intros obj. apply IH.
Qed.

(** X2: the constructor only looks up: a database, a relation and objects.
    When one of its lookups fails, that lookup is the last call it makes,
    all lookups before it succeeded, and the constructor returns that
    lookup's error. *)
Theorem NewMergeObjectsTask_stops_at_failed_lookup
    ctx tx objs r s o s' t ev e :
  NewMergeObjectsTask X ctx tx objs r s = (o, s', t) ->
  In ev t -> ev_err ev = Some e ->
  o = Err e /\
  (exists pre, t = pre ++ [ev] /\ Forall (fun ev' => ev_err ev' = None) pre) /\
  Forall (fun ev' => is_lookup ev' = true) t.
Proof.
  intros Hrun Hin Hev.
  destruct objs as [|first rest].
  { unfold NewMergeObjectsTask, panic in Hrun. injection Hrun as <- <- <-.
    destruct Hin. }
  assert (Hd : sat (NewMergeObjectsTask X ctx tx (first :: rest) r)
                 disciplined).
  { unfold NewMergeObjectsTask.
    destruct (blkOffsets (first :: rest) 0) as [offs total].
    apply disc_bind; [by apply disc_call|]. intros db.
    apply disc_bind; [by apply disc_call|]. intros rl.
    apply disc_bind; [apply resolveHandles_disciplined|]. intros hs.
    apply disc_ret. }
  assert (Hl : sat (NewMergeObjectsTask X ctx tx (first :: rest) r)
                 (always is_lookup)).
  { unfold NewMergeObjectsTask.
    destruct (blkOffsets (first :: rest) 0) as [offs total].
    apply always_bind; [by apply always_call|]. intros db.
    apply always_bind; [by apply always_call|]. intros rl.
    apply always_bind; [apply resolveHandles_lookups|]. intros hs.
    apply always_ret. }
  pose proof (sat_run _ _ _ _ _ _ Hd Hrun) as [_ Ho].
  pose proof (sat_run _ _ _ _ _ _ Hl Hrun) as Hlook.
  apply list_elem_of_In in Hin.
  destruct o as [task|e'|p]; [| |done].
  - rewrite Forall_forall in Ho. specialize (Ho ev Hin). congruence.
  - destruct Ho as (pre & ev' & -> & Hev' & Hpre).
    apply elem_of_app in Hin as [Hin|Hin].
    + rewrite Forall_forall in Hpre. specialize (Hpre ev Hin). congruence.
    + apply list_elem_of_singleton in Hin as ->.
      assert (e' = e) as -> by congruence.
      split; [done|]. split; [by exists pre|exact Hlook].
Qed.

(** *** More about PrepareData *)

Lemma length_readsOk idxs ps vs :
  (length vs <= length ps)%nat -> length (readsOk idxs ps vs) = length vs.
Proof. intros H. unfold readsOk. rewrite length_zip_with. lia. Qed.

(** X3: for a task out of the constructor, [PrepareData] reads the blocks in
    the order of the global block offsets and stops at the first read that
    fails: when it returns an error, the trace is the first planned reads,
    all successful, then the next planned read, failing with the error
    returned, then the release of the views acquired, and nothing else. *)
Theorem PrepareData_stops_at_failed_read
    ctx tx objs r s0 task s1 t0 s e s' t :
  NewMergeObjectsTask X ctx tx objs r s0 = (Ok task, s1, t0) ->
  PrepareData X task s = (Err e, s', t) ->
  exists vs p,
    plan (mergedObjsHandle task) (catalog.BlockCnt <$> objs) !! length vs
    = Some p /\
    t = readsOk (map catalog.Idx (dataCols (handle.Schema (rel task))))
          (plan (mergedObjsHandle task) (catalog.BlockCnt <$> objs)) vs
        ++ [readEv (map catalog.Idx (dataCols (handle.Schema (rel task))))
              p (inr e)]
        ++ closes vs.
Proof.
  intros Hnew Hrun.
  destruct (NewMergeObjectsTask_offsets _ _ _ _ _ _ _ _ Hnew)
    as (Hobjs & Hblk & Htot & Hlen).
  pose proof (sat_run _ _ _ _ _ _ (PrepareData_spec task Hblk Htot Hlen) Hrun)
    as [(_ & _ & ?)|(_ & vs & H)]; [done|].
  cbn zeta in H. rewrite Hobjs in H. destruct H as (p & Hp & ->).
  by exists vs, p.
Qed.

(** X4: for a task out of the constructor, when [PrepareData] panics no
    view is released: every call of the trace is a successful block read
    and none is a close.  When the panic is the column-count mismatch, at
    least one view was acquired and is left unreleased. *)
Theorem PrepareData_panic_releases_nothing
    ctx tx objs r s0 task s1 t0 s p s' t :
  NewMergeObjectsTask X ctx tx objs r s0 = (Ok task, s1, t0) ->
  PrepareData X task s = (Panic p, s', t) ->
  Forall (fun ev => is_close ev = false) t /\
  length (acquired t) = length t /\
  (p = mismatch -> acquired t <> []).
Proof.
  intros Hnew Hrun.
  destruct (NewMergeObjectsTask_offsets _ _ _ _ _ _ _ _ Hnew)
    as (Hobjs & Hblk & Htot & Hlen).
  pose proof (sat_run _ _ _ _ _ _ (PrepareData_spec task Hblk Htot Hlen) Hrun)
    as [(_ & -> & [= ->])|(_ & vs & H)]; [by repeat split|].
  cbn zeta in H. destruct H as (Hl & -> & Hmis).
  rewrite acquired_readsOk, length_readsOk by lia.
  split; [apply readsOk_no_close|]. split; [done|].
  intros Hp ->. specialize (Hmis Hp). by apply Exists_nil in Hmis.
Qed.

Lemma releaseF_run_all vs (s : St) :
  releaseF (Some <$> vs) s = (Ok tt, s, closes vs).
Proof. rewrite <- (app_nil_r (Some <$> vs)). apply (releaseF_run vs 0). Qed.

(** X5: the release function [PrepareData] returns is not idempotent: it
    keeps no record of what it closed, so invoking it twice closes every
    acquired view twice. *)
Theorem PrepareData_release_twice_closes_twice
    ctx tx objs r s0 task s1 t0 s bs ds release s' t :
  NewMergeObjectsTask X ctx tx objs r s0 = (Ok task, s1, t0) ->
  PrepareData X task s = (Ok (bs, ds, release), s', t) ->
  forall s2,
    bind release (fun _ => release) s2
    = (Ok tt, s2, closes (acquired t) ++ closes (acquired t)).
Proof.
  intros Hnew Hrun s2.
  destruct (NewMergeObjectsTask_offsets _ _ _ _ _ _ _ _ Hnew)
    as (Hobjs & Hblk & Htot & Hlen).
  pose proof (sat_run _ _ _ _ _ _ (PrepareData_spec task Hblk Htot Hlen) Hrun)
    as [(_ & _ & ?)|(_ & vs & H)]; [done|].
  cbn zeta in H. destruct H as (Hl & -> & _ & _ & _ & ->).
  rewrite acquired_readsOk by lia. unfold bind.
  by rewrite !releaseF_run_all.
Qed.

Lemma sat_and {A} (m : M A) (Q1 Q2 : Outcome A -> list Event -> Prop) :
  sat m Q1 -> sat m Q2 -> sat m (fun o t => Q1 o t /\ Q2 o t).
Proof. intros H1 H2 s. split; [apply H1|apply H2]. Qed.

Lemma buildBatches_panics attrs vs :
  forall bs ds,
    sat (buildBatches (St:=St) attrs (Some <$> vs) bs ds)
        (fun o t =>
           forall p, o = Panic p ->
             Exists (fun v => length (containers.Columns v) <> length attrs \/
                              containers.Columns v = []) vs).
Proof.
  induction vs as [|v vs IH]; intros bs ds; simpl.
  - by apply sat_ret.
  - destruct (decide (length attrs <> length (containers.Columns v)))
      as [Hne|Heq].
    { apply sat_panic. intros p _. left. by left. }
    destruct (containers.Columns v) as [|c0 cols] eqn:Hcols.
    { apply sat_panic. intros p _. left. by right. }
    eapply sat_mono; [apply IH|]. simpl. intros o t H p Hp. right. eauto.
Qed.

(** The conditions under which [PrepareData] panics. *)
Lemma PrepareData_panic_spec task :
  mergedBlkCnt task = (blkOffsets (mergedObjs task) 0).1 ->
  totalMergedBlkCnt task = (blkOffsets (mergedObjs task) 0).2 ->
  length (mergedObjsHandle task) = length (mergedObjs task) ->
  sat (PrepareData X task)
      (fun o t =>
         forall p, o = Panic p ->
           catalog.ColDefs (handle.Schema (rel task)) = [] \/
           Exists (fun v =>
                     length (containers.Columns v)
                     <> length (dataCols (handle.Schema (rel task))) \/
                     containers.Columns v = [])
                  (acquired t)).
Proof.
  intros Hblk Htot Hlen. unfold PrepareData.
  destruct (decide (length (catalog.ColDefs (handle.Schema (rel task)))
                    = 0%nat)) as [H0|Hne].
  { apply sat_panic. intros p _. left.
    by destruct (catalog.ColDefs (handle.Schema (rel task))). }
  rewrite collectCols_spec. cbn [app].
  fold (dataCols (handle.Schema (rel task))).
  rewrite (readObjects_views0 task Htot).
  apply sat_bind. eapply sat_mono.
  { by apply (readObjects_spec task _ (mergedObjsHandle task)
                (mergedObjs task) 0 0 []). }
  cbn beta. intros [[views' [e|]]|e|p] t [vs H]; try done.
  - destruct H as (p & Hp & -> & ->). cbn [app].
    by apply sat_bind, sat_releaseF, sat_throw.
  - destruct H as (Hl & -> & ->). cbn [app].
    apply sat_bind. eapply sat_mono.
    { apply sat_and; [apply buildBatches_spec|apply buildBatches_panics]. }
    cbn beta. intros [[bs ds]|e|p] t [(-> & _) H];
      [by apply sat_ret|done|].
    intros p' [= <-]. right. rewrite app_nil_r.
    rewrite acquired_readsOk by lia.
    specialize (H p eq_refl). by rewrite length_map in H.
Qed.

(** X6: for a task out of the constructor, [PrepareData] panics only when
    the schema has no column definition at all, or when some acquired view
    has a column count other than the number of requested columns, or no
    column.  In particular no index of the task's own arrays is ever out of
    range. *)
Theorem PrepareData_panics_only_on_bad_views
    ctx tx objs r s0 task s1 t0 s p s' t :
  NewMergeObjectsTask X ctx tx objs r s0 = (Ok task, s1, t0) ->
  PrepareData X task s = (Panic p, s', t) ->
  catalog.ColDefs (handle.Schema (rel task)) = [] \/
  Exists (fun v =>
            length (containers.Columns v)
            <> length (dataCols (handle.Schema (rel task))) \/
            containers.Columns v = [])
         (acquired t).
Proof.
  intros Hnew Hrun.
  destruct (NewMergeObjectsTask_offsets _ _ _ _ _ _ _ _ Hnew)
    as (Hobjs & Hblk & Htot & Hlen).
  exact (sat_run _ _ _ _ _ _ (PrepareData_panic_spec task Hblk Htot Hlen) Hrun
           p eq_refl).
Qed.

(** X7: when none of the source objects has a block and the schema has a
    column definition, [PrepareData] reads nothing and returns no batch and
    no mask, with a release function that closes nothing. *)
Theorem PrepareData_without_blocks
    ctx tx objs r s0 task s1 t0 s o s' t :
  NewMergeObjectsTask X ctx tx objs r s0 = (Ok task, s1, t0) ->
  Forall (fun obj => catalog.BlockCnt obj = 0%nat) objs ->
  catalog.ColDefs (handle.Schema (rel task)) <> [] ->
  PrepareData X task s = (o, s', t) ->
  t = [] /\
  exists release,
    o = Ok ([], [], release) /\ forall s2, release s2 = (Ok tt, s2, []).
Proof.
  intros Hnew Hzero Hcols Hrun.
  destruct (NewMergeObjectsTask_offsets _ _ _ _ _ _ _ _ Hnew)
    as (Hobjs & Hblk & Htot & Hlen).
  assert (HP : length (plan (mergedObjsHandle task)
                         (catalog.BlockCnt <$> mergedObjs task)) = 0%nat).
  { rewrite length_plan by (by rewrite length_fmap). rewrite Hobjs.
    clear -Hzero. induction Hzero as [|obj objs H0 _ IH]; [done|].
    csimpl. by rewrite H0, IH. }
  pose proof (sat_run _ _ _ _ _ _ (PrepareData_panic_spec task Hblk Htot Hlen)
                Hrun) as Hpanic.
  pose proof (sat_run _ _ _ _ _ _ (PrepareData_spec task Hblk Htot Hlen) Hrun)
    as [(? & _)|(_ & vs & H)]; [done|].
  cbn zeta in H. destruct o as [[[bs ds] release]|e|p].
  - destruct H as (Hl & -> & -> & -> & _ & ->).
    rewrite HP in Hl. destruct vs; [|done].
    split; [by destruct (plan _ _)|]. eexists. split; [done|].
    intros s2. apply (releaseF_run_all [] s2).
  - destruct H as (p & Hp & _). apply lookup_lt_Some in Hp. lia.
  - destruct H as (Hl & -> & _). rewrite HP in Hl. destruct vs; [|done].
    destruct (Hpanic p eq_refl) as [?|Hex]; [done|].
    assert (Ht : readsOk (map catalog.Idx (dataCols (handle.Schema (rel task))))
                   (plan (mergedObjsHandle task)
                      (catalog.BlockCnt <$> mergedObjs task)) [] = [])
      by (by destruct (plan _ _)).
    rewrite Ht in Hex. by apply Exists_nil in Hex.
Qed.

(** *** More about the catalog-apply phase *)

Lemma always_mono (P Q : Event -> bool) {A} (m : M A) :
  (forall ev, P ev = true -> Q ev = true) ->
  sat m (always P) -> sat m (always Q).
Proof.
  intros HPQ H. eapply sat_mono; [exact H|]. intros o t Ht.
  eapply Forall_impl; [exact Ht|]. exact HPQ.
Qed.

Lemma dropMerged_no_create rl drops acc :
  sat (dropMerged X rl drops acc) (always (fun ev => negb (is_create ev))).
Proof.
  revert acc. induction drops as [|drop rest IH]; intros acc; simpl.
  - apply always_ret.
  - apply always_bind; [by apply always_call|]. intros obj.
    apply always_bind; [by apply always_call|]. intros _. apply IH.
Qed.

Lemma createObjs_no_softDelete rl statsl acc :
  sat (createObjs X rl statsl acc)
      (always (fun ev => negb (is_softDelete ev))).
Proof.
  revert acc. induction statsl as [|stats rest IH]; intros acc; simpl.
  - apply always_ret.
  - apply always_bind; [by apply always_call|]. intros obj.
    apply always_bind; [by apply always_call|]. intros _.
    apply always_bind; [by apply always_emit|]. intros _. apply IH.
Qed.

Lemma softDeleted_none t :
  Forall (fun ev => negb (is_softDelete ev) = true) t -> softDeleted t = [].
Proof.
  induction 1 as [|ev t Hev _ IH]; [done|].
  destruct ev; try discriminate; exact IH.
Qed.

(** Every run of the phase is a first part without creation followed by a
    second part without soft delete; the second part starts only after all
    the source objects were soft-deleted. *)
Lemma HandleMergeEntryInTxn_two_parts tx entry r :
  sat (HandleMergeEntryInTxn X tx (Some entry) r)
      (fun o t =>
         exists t1 t2,
           t = t1 ++ t2 /\
           Forall (fun ev => negb (is_create ev) = true) t1 /\
           Forall (fun ev => negb (is_softDelete ev) = true) t2 /\
           (t2 <> [] ->
            softDeleted t1
            = objectio.ObjectName_ObjectId <$> mergesort.MergedObjs entry)).
Proof.
  unfold HandleMergeEntryInTxn.
  apply sat_bind, sat_call;
    [|intros e; exists [EvGetDatabaseByID tx (mergesort.DbID entry) (inr e)],
                       []; by repeat constructor].
  intros db. apply sat_bind, sat_call;
    [|intros e;
      exists [EvGetDatabaseByID tx (mergesort.DbID entry) (inl db);
              EvGetRelationByID db (mergesort.TableID entry) (inr e)], [];
      by repeat constructor].
  intros rl. apply sat_bind. eapply sat_mono.
  { apply sat_and; [apply dropMerged_ok|apply dropMerged_no_create]. }
  cbn beta. intros o td [Hok Hnc].
  destruct o as [mergedObjs|e|p].
  - destruct (Hok mergedObjs eq_refl) as (hs & Hlen & -> & ->).
    eapply sat_mono.
    { apply always_bind; [apply createObjs_no_softDelete|]. intros created.
      apply always_bind; [by apply always_call|]. intros txnEntry.
      apply always_bind; [by apply always_call|]. intros _.
      apply always_ret. }
    cbn beta. intros o t2 Ht2.
    exists ([EvGetDatabaseByID tx (mergesort.DbID entry) (inl db);
             EvGetRelationByID db (mergesort.TableID entry) (inl rl)]
            ++ dropTrace rl (mergesort.MergedObjs entry) hs), t2.
    split; [done|]. split; [by repeat constructor|]. split; [done|].
    intros _. destruct (dropTrace_reads rl _ _ Hlen) as (Hd & _).
    unfold softDeleted in *. by rewrite omap_app, Hd.
  - exists ([EvGetDatabaseByID tx (mergesort.DbID entry) (inl db);
             EvGetRelationByID db (mergesort.TableID entry) (inl rl)] ++ td),
           [].
    rewrite app_nil_r. split; [done|]. split; [by repeat constructor|].
    by split.
  - exists ([EvGetDatabaseByID tx (mergesort.DbID entry) (inl db);
             EvGetRelationByID db (mergesort.TableID entry) (inl rl)] ++ td),
           [].
    rewrite app_nil_r. split; [done|]. split; [by repeat constructor|].
    by split.
Qed.

(** X8: in every run of the catalog-apply phase, also one that fails, each
    soft delete comes before each creation attempt. *)
Theorem HandleMergeEntryInTxn_deletes_before_creates
    tx entry r s o s' t i j evc evd :
  HandleMergeEntryInTxn X tx (Some entry) r s = (o, s', t) ->
  t !! i = Some evc -> is_create evc = true ->
  t !! j = Some evd -> is_softDelete evd = true ->
  (j < i)%nat.
Proof.
  intros Hrun Hi Hc Hj Hd.
  destruct (sat_run _ _ _ _ _ _ (HandleMergeEntryInTxn_two_parts tx entry r)
              Hrun) as (t1 & t2 & -> & H1 & H2 & _).
  rewrite Forall_lookup in H1. rewrite Forall_lookup in H2.
  destruct (decide (i < length t1)%nat) as [Hlt|Hge].
  { rewrite lookup_app_l in Hi by done. specialize (H1 _ _ Hi).
    by rewrite Hc in H1. }
  destruct (decide (j < length t1)%nat) as [Hlt|Hge']; [lia|].
  rewrite lookup_app_r in Hj by lia. specialize (H2 _ _ Hj).
  by rewrite Hd in H2.
Qed.

(** X9: in every run of the catalog-apply phase in which a creation was
    attempted, all the source objects of the entry were soft-deleted before,
    whatever the outcome: when the phase fails after that point it returns
    the error and leaves the soft deletes to the transaction. *)
Theorem HandleMergeEntryInTxn_creates_after_all_deletes
    tx entry r s o s' t ev :
  HandleMergeEntryInTxn X tx (Some entry) r s = (o, s', t) ->
  In ev t -> is_create ev = true ->
  softDeleted t = objectio.ObjectName_ObjectId <$> mergesort.MergedObjs entry.
Proof.
  intros Hrun Hin Hc.
  destruct (sat_run _ _ _ _ _ _ (HandleMergeEntryInTxn_two_parts tx entry r)
              Hrun) as (t1 & t2 & -> & H1 & H2 & Hall).
  apply list_elem_of_In, elem_of_app in Hin as [Hin|Hin].
  { rewrite Forall_forall in H1. specialize (H1 _ Hin). by rewrite Hc in H1. }
  unfold softDeleted at 1. rewrite omap_app.
  fold (softDeleted t1). fold (softDeleted t2).
  rewrite (softDeleted_none t2 H2), app_nil_r. apply Hall.
  intros ->. by apply not_elem_of_nil in Hin.
Qed.

Lemma HandleMergeEntryInTxn_created_metas tx entry r s created s' t :
  HandleMergeEntryInTxn X tx (Some entry) r s = (Ok created, s', t) ->
  createdMetas t = created /\
  length created = length (mergesort.CreatedObjectStats entry).
Proof.
  intros Hrun.
  destruct (sat_run _ _ _ _ _ _ (HandleMergeEntryInTxn_ok tx entry r) Hrun
              created eq_refl)
    as (db & rl & dropH & newH & e & HdL & HnL & -> & ->).
  destruct (dropTrace_reads rl _ _ HdL) as (_ & _ & _ & Hd & _).
  destruct (createTrace_reads rl _ _ HnL) as (_ & _ & _ & Hc & _).
  unfold createdMetas in *. rewrite !omap_app, Hd, Hc. simpl.
  rewrite app_nil_r. split; [done|]. by rewrite length_fmap.
Qed.

(** X10: the constructor, [PrepareCommitEntry] and the catalog-apply phase
    agree on the objects: when the phase succeeds on the entry of
    [PrepareCommitEntry], filled in with the statistics of the created
    objects and the booking, it looks up the database and the table of the
    first source object, soft-deletes exactly the objects named in the
    statistics of the source objects, in their order, and returns one
    created object per statistics entry filled in. *)
Theorem PrepareCommitEntry_then_HandleMergeEntryInTxn
    ctx tx objs r s0 task s1 t0 cs bk s created s' t :
  NewMergeObjectsTask X ctx tx objs r s0 = (Ok task, s1, t0) ->
  HandleMergeEntryInTxn X (txn task)
    (Some (filled (PrepareCommitEntry task).2 cs bk)) (rt task) s
  = (Ok created, s', t) ->
  softDeleted t
  = (fun o => objectio.ObjectName_ObjectId (catalog.GetObjectStats o))
      <$> objs /\
  length created = length cs /\
  exists first rest db rl more,
    objs = first :: rest /\
    t = EvGetDatabaseByID tx
          (catalog.db_ID (catalog.GetDB (catalog.GetTable first))) (inl db)
        :: EvGetRelationByID db (catalog.tbl_ID (catalog.GetTable first))
             (inl rl)
        :: more.
Proof.
  intros Hnew Hrun.
  destruct (sat_run _ _ _ _ _ _ (NewMergeObjectsTask_ok ctx tx objs r) Hnew
              task eq_refl)
    as (first & rest & db0 & -> & Hobjs & Htx & Hdid & Htid & _).
  destruct (sat_run _ _ _ _ _ _
              (HandleMergeEntryInTxn_ok (txn task) _ (rt task)) Hrun
              created eq_refl)
    as (db & rl & dropH & newH & e & HdL & HnL & -> & ->).
  unfold PrepareCommitEntry, filled in *. cbn [snd mergesort.DbID
    mergesort.TableID mergesort.MergedObjs mergesort.CreatedObjectStats
    mergesort.Booking] in *.
  rewrite Hobjs, Htx, Hdid, Htid in *.
  destruct (dropTrace_reads rl _ _ HdL) as (Hd & _).
  destruct (createTrace_reads rl _ _ HnL) as (Hc & _).
  split; [|split].
  - unfold softDeleted in *. rewrite !omap_app, Hd, Hc. simpl.
    rewrite app_nil_r. by rewrite <- list_fmap_compose.
  - by rewrite length_fmap.
  - by eexists first, rest, db, rl, _.
Qed.

(** *** More about Execute *)

Lemma createdMetas_catalog_only pos rows r t u :
  createdMetas (EvDoMergeAndWrite pos rows r :: t ++ [u]) = createdMetas t
  \/ is_create u = true.
Proof.
  unfold createdMetas.
  change (EvDoMergeAndWrite pos rows r :: t ++ [u])
    with ([EvDoMergeAndWrite pos rows r] ++ t ++ [u]).
  rewrite !omap_app. simpl. destruct u; simpl; rewrite ?app_nil_r; auto.
Qed.

(** X11: what [GetCreatedObjects] gives after [Execute] has returned.  When
    the merge-and-write phase failed, it gives what it gave before.  When
    the catalog-apply phase failed, it gives nothing, even if objects were
    created before the failure.  When [Execute] succeeded, it gives exactly
    the objects created in the catalog during the call. *)
Theorem GetCreatedObjects_after_Execute task s task' err s' t :
  Execute X task s = (Ok (task', err), s', t) ->
  exists pos rows r rest,
    t = EvDoMergeAndWrite pos rows r :: rest /\
    match r, err with
    | inr _, _ => GetCreatedObjects task' = GetCreatedObjects task
    | inl _, Some _ => GetCreatedObjects task' = []
    | inl _, None => GetCreatedObjects task' = createdMetas t
    end.
Proof.
  unfold Execute, Execute_body, bind, doMergeAndWrite.
  destruct (DoMergeAndWrite X _ _ task s) as [[r ce] s1].
  destruct r as [u|e]; cbn [fst snd].
  2:{ simpl. intros [= <- <- <- <-]. by eexists _, _, _, _. }
  unfold try.
  destruct (HandleMergeEntryInTxn X _ _ _ s1) as [[o2 s2] t2] eqn:Hrun.
  destruct o2 as [objs|e|p]; simpl; [| |done].
  - intros [= <- <- <- <-]. eexists _, _, _, _. split; [done|].
    cbn [GetCreatedObjects set_createdBObjs createdBObjs].
    destruct ce as [entry|];
      [|by unfold HandleMergeEntryInTxn, panic in Hrun].
    cbn [set_commitEntry txn commitEntry rt] in Hrun.
    destruct (HandleMergeEntryInTxn_created_metas _ _ _ _ _ _ _ Hrun)
      as [Hm _].
    rewrite app_nil_r.
    by destruct (createdMetas_catalog_only
                   (if catalog.HasSortKey (handle.Schema (rel task))
                    then catalog.GetSingleSortKeyIdx (handle.Schema (rel task))
                    else -1)
                   (catalog.BlockMaxRows (handle.Schema (rel task)))
                   (inl u) t2 EvPerfCounter) as [->|?].
  - intros [= <- <- <- <-]. by eexists _, _, _, _.
Qed.

(** X12: when the engine succeeds but leaves no commit entry in the task,
    [Execute] panics on the nil entry: it makes no call on the catalog and
    logs nothing, since no error was set. *)
Theorem Execute_panics_without_commit_entry task s s1 :
  DoMergeAndWrite X (tableSortKeyPos (handle.Schema (rel task)))
    (catalog.BlockMaxRows (handle.Schema (rel task))) task s
  = (inl tt, None, s1) ->
  Execute X task s
  = (Panic "nil pointer dereference", s1,
     [EvDoMergeAndWrite (tableSortKeyPos (handle.Schema (rel task)))
        (catalog.BlockMaxRows (handle.Schema (rel task))) (inl tt)]).
Proof.
  intros Heng.
  assert (Hpos : (if catalog.HasSortKey (handle.Schema (rel task))
                  then catalog.GetSingleSortKeyIdx (handle.Schema (rel task))
                  else -1) = tableSortKeyPos (handle.Schema (rel task))).
  { unfold tableSortKeyPos, catalog.HasSortKey, catalog.GetSingleSortKeyIdx.
    by destruct (catalog.SortKey _). }
  unfold Execute, Execute_body, bind, doMergeAndWrite.
  by rewrite Hpos, Heng.
Qed.

End Proofs.

(** ** The theorems on the scripted collaborator *)

(** C1, the claim as stated fails: with an empty source-object list the
    constructor returns no error, for any error. *)
Lemma NewMergeObjectsTask_empty_returns_no_error :
  ~ exists e,
      (NewMergeObjectsTask (Sim.X Sim.allGood) Sim.theCtx Sim.theTxn []
         Sim.theRt 0%nat).1.1 = Err e.
Proof. intros [e H]. vm_compute in H. discriminate. Qed.

(** C2, the claim as stated fails: the table has no sort key, the engine is
    given the position [-1], and the created object is marked sorted all the
    same. *)
Lemma Execute_marks_sorted_without_sort_key :
  catalog.HasSortKey (handle.Schema (rel (Sim.taskOf Sim.allGood))) = false /\
  (Sim.execRun Sim.allGood).2 !! 0%nat
  = Some (EvDoMergeAndWrite (-1) 8192 (inl tt)) /\
  (Sim.execRun Sim.allGood).2 !! 9%nat = Some (EvSetSorted Sim.createdObj) /\
  exists task,
    (Sim.execRun Sim.allGood).1.1 = Ok (task, None) /\
    createdBObjs task = [Sim.createdObj].
Proof.
  repeat split; try (vm_compute; reflexivity).
  eexists. split; vm_compute; reflexivity.
Qed.

(** C9, the claim as stated fails: the first view acquired has one column
    where two were requested, the second read fails, and [PrepareData]
    returns the error instead of panicking. *)
Lemma PrepareData_mismatch_returns_error :
  In Sim.oneColumnView (acquired (Sim.prepRun Sim.oneColumnSecondReadFails).2) /\
  length (containers.Columns Sim.oneColumnView)
  <> length (dataCols (handle.Schema
                         (rel (Sim.taskOf Sim.oneColumnSecondReadFails)))) /\
  (Sim.prepRun Sim.oneColumnSecondReadFails).1.1 = Err Sim.injected.
Proof.
  split; [vm_compute; by left|]. split; [vm_compute; lia|].
  vm_compute; reflexivity.
Qed.

Lemma NewMergeObjectsTask_first_table_witness :
  Sim.newRun Sim.allGood
  = (Ok (Sim.taskOf Sim.allGood), (Sim.newRun Sim.allGood).1.2,
     (Sim.newRun Sim.allGood).2) /\
  did (Sim.taskOf Sim.allGood) = 1 /\
  tid (Sim.taskOf Sim.allGood) = 5 /\
  length (mergedObjsHandle (Sim.taskOf Sim.allGood)) = 2%nat.
Proof.
  assert (H : Sim.newRun Sim.allGood
              = (Ok (Sim.taskOf Sim.allGood), (Sim.newRun Sim.allGood).1.2,
                 (Sim.newRun Sim.allGood).2))
    by (vm_compute; reflexivity).
  split; [exact H|].
  destruct (NewMergeObjectsTask_first_table (Sim.X Sim.allGood) _ _ _ _ _ _ _ _ H)
    as (first & rest & db & Hobjs & Hdid & Htid & _ & Hlen & _).
  injection Hobjs as <- <-.
  split; [exact Hdid|]. split; [exact Htid|exact Hlen].
Defined.

Lemma writer_sortkey_is_Execute_sortkey_witness :
  catalog.ColDefs (handle.Schema (rel (Sim.taskOf Sim.withPrimaryKey))) <> [] /\
  exists w r rest,
    PrepareNewWriterFunc (Sim.taskOf Sim.withPrimaryKey) = Ok w /\
    w_sortkeyPos w = 1 /\
    (Sim.execRun Sim.withPrimaryKey).2
    = EvDoMergeAndWrite 1 8192 r :: rest.
Proof.
  assert (H : catalog.ColDefs
                (handle.Schema (rel (Sim.taskOf Sim.withPrimaryKey))) <> [])
    by (vm_compute; discriminate).
  split; [exact H|].
  destruct (writer_sortkey_is_Execute_sortkey (Sim.X Sim.withPrimaryKey)
              (Sim.taskOf Sim.withPrimaryKey)
              (Sim.newRun Sim.withPrimaryKey).1.2 H)
    as ((r & rest & Hexec) & w & Hw & Hpos & _).
  exists w, r, rest. split; [exact Hw|]. split; [exact Hpos|exact Hexec].
Defined.

Lemma HandleMergeEntryInTxn_marks_all_sorted_witness :
  Sim.applyRun Sim.allGood
  = (Ok (Sim.createdOf Sim.allGood), (Sim.applyRun Sim.allGood).1.2,
     (Sim.applyRun Sim.allGood).2) /\
  sortedMarks (Sim.applyRun Sim.allGood).2 = Sim.createdOf Sim.allGood /\
  (statsAttached (Sim.applyRun Sim.allGood).2).*1 = Sim.createdOf Sim.allGood /\
  length (Sim.createdOf Sim.allGood)
  = length (mergesort.CreatedObjectStats Sim.theEntry).
Proof.
  assert (H : Sim.applyRun Sim.allGood
              = (Ok (Sim.createdOf Sim.allGood),
                 (Sim.applyRun Sim.allGood).1.2, (Sim.applyRun Sim.allGood).2))
    by (vm_compute; reflexivity).
  split; [exact H|].
  exact (HandleMergeEntryInTxn_marks_all_sorted (Sim.X Sim.allGood)
           _ _ _ _ _ _ _ H).
Defined.

Lemma HandleMergeEntryInTxn_applies_entry_witness :
  Sim.applyRun Sim.allGood
  = (Ok (Sim.createdOf Sim.allGood), (Sim.applyRun Sim.allGood).1.2,
     (Sim.applyRun Sim.allGood).2) /\
  softDeleted (Sim.applyRun Sim.allGood).2 = [10%N; 11%N] /\
  createdIds (Sim.applyRun Sim.allGood).2 = [100%N] /\
  createdMetas (Sim.applyRun Sim.allGood).2 = Sim.createdOf Sim.allGood.
Proof.
  assert (H : Sim.applyRun Sim.allGood
              = (Ok (Sim.createdOf Sim.allGood),
                 (Sim.applyRun Sim.allGood).1.2, (Sim.applyRun Sim.allGood).2))
    by (vm_compute; reflexivity).
  split; [exact H|].
  destruct (HandleMergeEntryInTxn_applies_entry (Sim.X Sim.allGood)
              _ _ _ _ _ _ _ H) as (Hdel & Hids & Hmetas & _).
  split; [exact Hdel|]. split; [exact Hids|exact Hmetas].
Defined.

Lemma HandleMergeEntryInTxn_aborts_on_failure_witness :
  Sim.applyRun Sim.secondLookupFails
  = ((Sim.applyRun Sim.secondLookupFails).1.1,
     (Sim.applyRun Sim.secondLookupFails).1.2,
     (Sim.applyRun Sim.secondLookupFails).2) /\
  In Sim.failedLookup (Sim.applyRun Sim.secondLookupFails).2 /\
  ev_err Sim.failedLookup = Some Sim.injected /\
  (Sim.applyRun Sim.secondLookupFails).1.1 = Err Sim.injected /\
  (exists pre,
     (Sim.applyRun Sim.secondLookupFails).2 = pre ++ [Sim.failedLookup] /\
     Forall (fun ev' => ev_err ev' = None) pre) /\
  Forall (fun ev' => catalog_op ev' = true)
         (Sim.applyRun Sim.secondLookupFails).2.
Proof.
  assert (H1 : Sim.applyRun Sim.secondLookupFails
               = ((Sim.applyRun Sim.secondLookupFails).1.1,
                  (Sim.applyRun Sim.secondLookupFails).1.2,
                  (Sim.applyRun Sim.secondLookupFails).2))
    by (vm_compute; reflexivity).
  assert (H2 : In Sim.failedLookup (Sim.applyRun Sim.secondLookupFails).2)
    by (vm_compute; do 4 right; left; reflexivity).
  assert (H3 : ev_err Sim.failedLookup = Some Sim.injected) by reflexivity.
  split; [exact H1|]. split; [exact H2|]. split; [exact H3|].
  exact (HandleMergeEntryInTxn_aborts_on_failure
           (Sim.X Sim.secondLookupFails) _ _ _ _ _ _ _ _ _ H1 H2 H3).
Defined.

Lemma PrepareData_releases_views_witness :
  Sim.newRun Sim.thirdReadFails
  = (Ok (Sim.taskOf Sim.thirdReadFails), (Sim.newRun Sim.thirdReadFails).1.2,
     (Sim.newRun Sim.thirdReadFails).2) /\
  Sim.prepRun Sim.thirdReadFails
  = (Err Sim.injected, (Sim.prepRun Sim.thirdReadFails).1.2,
     (Sim.prepRun Sim.thirdReadFails).2) /\
  exists reads,
    (Sim.prepRun Sim.thirdReadFails).2 = reads ++ closes (acquired reads) /\
    Forall (fun ev => is_close ev = false) reads /\
    exists pre ev, reads = pre ++ [ev] /\ ev_err ev = Some Sim.injected.
Proof.
  assert (H1 : Sim.newRun Sim.thirdReadFails
               = (Ok (Sim.taskOf Sim.thirdReadFails),
                  (Sim.newRun Sim.thirdReadFails).1.2,
                  (Sim.newRun Sim.thirdReadFails).2))
    by (vm_compute; reflexivity).
  assert (H2 : Sim.prepRun Sim.thirdReadFails
               = (Err Sim.injected, (Sim.prepRun Sim.thirdReadFails).1.2,
                  (Sim.prepRun Sim.thirdReadFails).2))
    by (vm_compute; reflexivity).
  split; [exact H1|]. split; [exact H2|].
  exact (PrepareData_releases_views (Sim.X Sim.thirdReadFails)
           _ _ _ _ _ _ _ _ _ _ _ _ H1 H2).
Defined.

Lemma PrepareData_one_batch_per_block_witness :
  Sim.newRun Sim.allGood
  = (Ok (Sim.taskOf Sim.allGood), (Sim.newRun Sim.allGood).1.2,
     (Sim.newRun Sim.allGood).2) /\
  Sim.prepRun Sim.allGood
  = (Ok (Sim.batchesOf Sim.allGood, Sim.delsOf Sim.allGood,
         Sim.releaseOf Sim.allGood),
     (Sim.prepRun Sim.allGood).1.2, (Sim.prepRun Sim.allGood).2) /\
  length (Sim.batchesOf Sim.allGood) = 4%nat /\
  length (Sim.delsOf Sim.allGood) = 4%nat /\
  length (Sim.prepRun Sim.allGood).2 = 4%nat.
Proof.
  assert (H1 : Sim.newRun Sim.allGood
               = (Ok (Sim.taskOf Sim.allGood), (Sim.newRun Sim.allGood).1.2,
                  (Sim.newRun Sim.allGood).2))
    by (vm_compute; reflexivity).
  assert (H2 : Sim.prepRun Sim.allGood
               = (Ok (Sim.batchesOf Sim.allGood, Sim.delsOf Sim.allGood,
                      Sim.releaseOf Sim.allGood),
                  (Sim.prepRun Sim.allGood).1.2, (Sim.prepRun Sim.allGood).2))
    by (vm_compute; reflexivity).
  split; [exact H1|]. split; [exact H2|].
  destruct (PrepareData_one_batch_per_block (Sim.X Sim.allGood)
              _ _ _ _ _ _ _ _ _ _ _ _ _ _ H1 H2) as (Hb & Hd & Ht & _).
  split; [exact Hb|]. split; [exact Hd|exact Ht].
Defined.

Lemma PrepareData_mismatch_panics_witness :
  Sim.newRun Sim.oneColumn
  = (Ok (Sim.taskOf Sim.oneColumn), (Sim.newRun Sim.oneColumn).1.2,
     (Sim.newRun Sim.oneColumn).2) /\
  Sim.prepRun Sim.oneColumn
  = ((Sim.prepRun Sim.oneColumn).1.1, (Sim.prepRun Sim.oneColumn).1.2,
     (Sim.prepRun Sim.oneColumn).2) /\
  exists p, (Sim.prepRun Sim.oneColumn).1.1 = Panic p.
Proof.
  assert (H1 : Sim.newRun Sim.oneColumn
               = (Ok (Sim.taskOf Sim.oneColumn), (Sim.newRun Sim.oneColumn).1.2,
                  (Sim.newRun Sim.oneColumn).2))
    by (vm_compute; reflexivity).
  assert (H2 : Sim.prepRun Sim.oneColumn
               = ((Sim.prepRun Sim.oneColumn).1.1,
                  (Sim.prepRun Sim.oneColumn).1.2,
                  (Sim.prepRun Sim.oneColumn).2))
    by (vm_compute; reflexivity).
  split; [exact H1|]. split; [exact H2|].
  destruct (PrepareData_mismatch_panics (Sim.X Sim.oneColumn)
              _ _ _ _ _ _ _ _ _ _ _ _ H1 H2) as [Hpanic _].
  apply Hpanic.
  - vm_compute. repeat constructor.
  - vm_compute. constructor 1. lia.
Defined.

(** ** Further runs on the scripted collaborator *)

Lemma NewMergeObjectsTask_block_offsets_witness :
  Sim.newRun Sim.allGood
  = (Ok (Sim.taskOf Sim.allGood), (Sim.newRun Sim.allGood).1.2,
     (Sim.newRun Sim.allGood).2) /\
  mergedBlkCnt (Sim.taskOf Sim.allGood) !! 1%nat = Some 2%nat /\
  totalMergedBlkCnt (Sim.taskOf Sim.allGood) = 4%nat.
Proof.
  assert (H : Sim.newRun Sim.allGood
              = (Ok (Sim.taskOf Sim.allGood), (Sim.newRun Sim.allGood).1.2,
                 (Sim.newRun Sim.allGood).2))
    by (vm_compute; reflexivity).
  split; [exact H|].
  destruct (NewMergeObjectsTask_block_offsets (Sim.X Sim.allGood)
              _ _ _ _ _ _ _ _ H) as (_ & Hoff & Htot & _).
  split; [apply (Hoff 1%nat); simpl; lia|exact Htot].
Defined.

Lemma NewMergeObjectsTask_stops_at_failed_lookup_witness :
  Sim.newRun relationLookupFails
  = ((Sim.newRun relationLookupFails).1.1,
     (Sim.newRun relationLookupFails).1.2,
     (Sim.newRun relationLookupFails).2) /\
  In failedRelationLookup (Sim.newRun relationLookupFails).2 /\
  ev_err failedRelationLookup = Some Sim.injected /\
  (Sim.newRun relationLookupFails).1.1 = Err Sim.injected /\
  length (Sim.newRun relationLookupFails).2 = 2%nat.
Proof.
  assert (H1 : Sim.newRun relationLookupFails
               = ((Sim.newRun relationLookupFails).1.1,
                  (Sim.newRun relationLookupFails).1.2,
                  (Sim.newRun relationLookupFails).2))
    by (vm_compute; reflexivity).
  assert (H2 : In failedRelationLookup (Sim.newRun relationLookupFails).2)
    by (vm_compute; right; left; reflexivity).
  assert (H3 : ev_err failedRelationLookup = Some Sim.injected)
    by reflexivity.
  split; [exact H1|]. split; [exact H2|]. split; [exact H3|].
  destruct (NewMergeObjectsTask_stops_at_failed_lookup
              (Sim.X relationLookupFails) _ _ _ _ _ _ _ _ _ _ H1 H2 H3)
    as (Ho & _ & _).
  split; [exact Ho|reflexivity].
Defined.

Lemma PrepareData_stops_at_failed_read_witness :
  Sim.newRun Sim.thirdReadFails
  = (Ok (Sim.taskOf Sim.thirdReadFails), (Sim.newRun Sim.thirdReadFails).1.2,
     (Sim.newRun Sim.thirdReadFails).2) /\
  Sim.prepRun Sim.thirdReadFails
  = (Err Sim.injected, (Sim.prepRun Sim.thirdReadFails).1.2,
     (Sim.prepRun Sim.thirdReadFails).2) /\
  exists vs p,
    plan (mergedObjsHandle (Sim.taskOf Sim.thirdReadFails))
      (catalog.BlockCnt <$> Sim.sources) !! length vs = Some p /\
    (Sim.prepRun Sim.thirdReadFails).2
    = readsOk
        (map catalog.Idx
           (dataCols (handle.Schema (rel (Sim.taskOf Sim.thirdReadFails)))))
        (plan (mergedObjsHandle (Sim.taskOf Sim.thirdReadFails))
           (catalog.BlockCnt <$> Sim.sources)) vs
      ++ [readEv
            (map catalog.Idx
               (dataCols (handle.Schema (rel (Sim.taskOf Sim.thirdReadFails)))))
            p (inr Sim.injected)]
      ++ closes vs.
Proof.
  assert (H1 : Sim.newRun Sim.thirdReadFails
               = (Ok (Sim.taskOf Sim.thirdReadFails),
                  (Sim.newRun Sim.thirdReadFails).1.2,
                  (Sim.newRun Sim.thirdReadFails).2))
    by (vm_compute; reflexivity).
  assert (H2 : Sim.prepRun Sim.thirdReadFails
               = (Err Sim.injected, (Sim.prepRun Sim.thirdReadFails).1.2,
                  (Sim.prepRun Sim.thirdReadFails).2))
    by (vm_compute; reflexivity).
  split; [exact H1|]. split; [exact H2|].
  exact (PrepareData_stops_at_failed_read (Sim.X Sim.thirdReadFails)
           _ _ _ _ _ _ _ _ _ _ _ _ H1 H2).
Defined.

Lemma PrepareData_panic_releases_nothing_witness :
  Sim.newRun Sim.oneColumn
  = (Ok (Sim.taskOf Sim.oneColumn), (Sim.newRun Sim.oneColumn).1.2,
     (Sim.newRun Sim.oneColumn).2) /\
  Sim.prepRun Sim.oneColumn
  = (Panic mismatch, (Sim.prepRun Sim.oneColumn).1.2,
     (Sim.prepRun Sim.oneColumn).2) /\
  Forall (fun ev => is_close ev = false) (Sim.prepRun Sim.oneColumn).2 /\
  length (acquired (Sim.prepRun Sim.oneColumn).2)
  = length (Sim.prepRun Sim.oneColumn).2 /\
  (mismatch = mismatch -> acquired (Sim.prepRun Sim.oneColumn).2 <> []).
Proof.
  assert (H1 : Sim.newRun Sim.oneColumn
               = (Ok (Sim.taskOf Sim.oneColumn), (Sim.newRun Sim.oneColumn).1.2,
                  (Sim.newRun Sim.oneColumn).2))
    by (vm_compute; reflexivity).
  assert (H2 : Sim.prepRun Sim.oneColumn
               = (Panic mismatch, (Sim.prepRun Sim.oneColumn).1.2,
                  (Sim.prepRun Sim.oneColumn).2))
    by (vm_compute; reflexivity).
  split; [exact H1|]. split; [exact H2|].
  exact (PrepareData_panic_releases_nothing (Sim.X Sim.oneColumn)
           _ _ _ _ _ _ _ _ _ _ _ _ H1 H2).
Defined.

Lemma PrepareData_release_twice_closes_twice_witness :
  Sim.newRun Sim.allGood
  = (Ok (Sim.taskOf Sim.allGood), (Sim.newRun Sim.allGood).1.2,
     (Sim.newRun Sim.allGood).2) /\
  Sim.prepRun Sim.allGood
  = (Ok (Sim.batchesOf Sim.allGood, Sim.delsOf Sim.allGood,
         Sim.releaseOf Sim.allGood),
     (Sim.prepRun Sim.allGood).1.2, (Sim.prepRun Sim.allGood).2) /\
  length (bind (Sim.releaseOf Sim.allGood)
            (fun _ => Sim.releaseOf Sim.allGood) 0%nat).2 = 8%nat.
Proof.
  assert (H1 : Sim.newRun Sim.allGood
               = (Ok (Sim.taskOf Sim.allGood), (Sim.newRun Sim.allGood).1.2,
                  (Sim.newRun Sim.allGood).2))
    by (vm_compute; reflexivity).
  assert (H2 : Sim.prepRun Sim.allGood
               = (Ok (Sim.batchesOf Sim.allGood, Sim.delsOf Sim.allGood,
                      Sim.releaseOf Sim.allGood),
                  (Sim.prepRun Sim.allGood).1.2, (Sim.prepRun Sim.allGood).2))
    by (vm_compute; reflexivity).
  split; [exact H1|]. split; [exact H2|].
  rewrite (PrepareData_release_twice_closes_twice (Sim.X Sim.allGood)
             _ _ _ _ _ _ _ _ _ _ _ _ _ _ H1 H2 0%nat).
  vm_compute. reflexivity.
Defined.

Lemma PrepareData_panics_only_on_bad_views_witness :
  Sim.newRun Sim.oneColumn
  = (Ok (Sim.taskOf Sim.oneColumn), (Sim.newRun Sim.oneColumn).1.2,
     (Sim.newRun Sim.oneColumn).2) /\
  Sim.prepRun Sim.oneColumn
  = (Panic mismatch, (Sim.prepRun Sim.oneColumn).1.2,
     (Sim.prepRun Sim.oneColumn).2) /\
  (catalog.ColDefs (handle.Schema (rel (Sim.taskOf Sim.oneColumn))) = [] \/
   Exists (fun v =>
             length (containers.Columns v)
             <> length (dataCols (handle.Schema (rel (Sim.taskOf Sim.oneColumn))))
             \/ containers.Columns v = [])
          (acquired (Sim.prepRun Sim.oneColumn).2)).
Proof.
  assert (H1 : Sim.newRun Sim.oneColumn
               = (Ok (Sim.taskOf Sim.oneColumn), (Sim.newRun Sim.oneColumn).1.2,
                  (Sim.newRun Sim.oneColumn).2))
    by (vm_compute; reflexivity).
  assert (H2 : Sim.prepRun Sim.oneColumn
               = (Panic mismatch, (Sim.prepRun Sim.oneColumn).1.2,
                  (Sim.prepRun Sim.oneColumn).2))
    by (vm_compute; reflexivity).
  split; [exact H1|]. split; [exact H2|].
  exact (PrepareData_panics_only_on_bad_views (Sim.X Sim.oneColumn)
           _ _ _ _ _ _ _ _ _ _ _ _ H1 H2).
Defined.

Lemma PrepareData_without_blocks_witness :
  emptyNewRun = (Ok emptyTask, emptyNewRun.1.2, emptyNewRun.2) /\
  Forall (fun obj => catalog.BlockCnt obj = 0%nat) emptySources /\
  catalog.ColDefs (handle.Schema (rel emptyTask)) <> [] /\
  emptyPrepRun = (emptyPrepRun.1.1, emptyPrepRun.1.2, emptyPrepRun.2) /\
  emptyPrepRun.2 = [] /\
  exists release,
    emptyPrepRun.1.1 = Ok ([], [], release) /\
    forall s2, release s2 = (Ok tt, s2, []).
Proof.
  assert (H1 : emptyNewRun = (Ok emptyTask, emptyNewRun.1.2, emptyNewRun.2))
    by (vm_compute; reflexivity).
  assert (H2 : Forall (fun obj => catalog.BlockCnt obj = 0%nat) emptySources)
    by (repeat constructor).
  assert (H3 : catalog.ColDefs (handle.Schema (rel emptyTask)) <> [])
    by (vm_compute; discriminate).
  assert (H4 : emptyPrepRun
               = (emptyPrepRun.1.1, emptyPrepRun.1.2, emptyPrepRun.2))
    by (vm_compute; reflexivity).
  split; [exact H1|]. split; [exact H2|]. split; [exact H3|].
  split; [exact H4|].
  exact (PrepareData_without_blocks (Sim.X Sim.allGood)
           _ _ _ _ _ _ _ _ _ _ _ _ H1 H2 H3 H4).
Defined.

Lemma HandleMergeEntryInTxn_deletes_before_creates_witness :
  Sim.applyRun Sim.allGood
  = ((Sim.applyRun Sim.allGood).1.1, (Sim.applyRun Sim.allGood).1.2,
     (Sim.applyRun Sim.allGood).2) /\
  (Sim.applyRun Sim.allGood).2 !! 6%nat = Some theCreation /\
  is_create theCreation = true /\
  (Sim.applyRun Sim.allGood).2 !! 5%nat = Some lastSoftDelete /\
  is_softDelete lastSoftDelete = true /\
  (5 < 6)%nat.
Proof.
  assert (H1 : Sim.applyRun Sim.allGood
               = ((Sim.applyRun Sim.allGood).1.1,
                  (Sim.applyRun Sim.allGood).1.2, (Sim.applyRun Sim.allGood).2))
    by (vm_compute; reflexivity).
  assert (H2 : (Sim.applyRun Sim.allGood).2 !! 6%nat = Some theCreation)
    by (vm_compute; reflexivity).
  assert (H3 : is_create theCreation = true) by reflexivity.
  assert (H4 : (Sim.applyRun Sim.allGood).2 !! 5%nat = Some lastSoftDelete)
    by (vm_compute; reflexivity).
  assert (H5 : is_softDelete lastSoftDelete = true) by reflexivity.
  split; [exact H1|]. split; [exact H2|]. split; [exact H3|].
  split; [exact H4|]. split; [exact H5|].
  exact (HandleMergeEntryInTxn_deletes_before_creates (Sim.X Sim.allGood)
           _ _ _ _ _ _ _ _ _ _ _ H1 H2 H3 H4 H5).
Defined.

Lemma HandleMergeEntryInTxn_creates_after_all_deletes_witness :
  Sim.applyRun creationFails
  = (Err Sim.injected, (Sim.applyRun creationFails).1.2,
     (Sim.applyRun creationFails).2) /\
  In failedCreation (Sim.applyRun creationFails).2 /\
  is_create failedCreation = true /\
  softDeleted (Sim.applyRun creationFails).2 = [10%N; 11%N].
Proof.
  assert (H1 : Sim.applyRun creationFails
               = (Err Sim.injected, (Sim.applyRun creationFails).1.2,
                  (Sim.applyRun creationFails).2))
    by (vm_compute; reflexivity).
  assert (H2 : In failedCreation (Sim.applyRun creationFails).2)
    by (vm_compute; do 6 right; left; reflexivity).
  assert (H3 : is_create failedCreation = true) by reflexivity.
  split; [exact H1|]. split; [exact H2|]. split; [exact H3|].
  exact (HandleMergeEntryInTxn_creates_after_all_deletes
           (Sim.X creationFails) _ _ _ _ _ _ _ _ H1 H2 H3).
Defined.

Lemma PrepareCommitEntry_then_HandleMergeEntryInTxn_witness :
  Sim.newRun Sim.allGood
  = (Ok (Sim.taskOf Sim.allGood), (Sim.newRun Sim.allGood).1.2,
     (Sim.newRun Sim.allGood).2) /\
  filledRun = (Ok filledCreated, filledRun.1.2, filledRun.2) /\
  softDeleted filledRun.2 = [10%N; 11%N] /\
  length filledCreated = 1%nat.
Proof.
  assert (H1 : Sim.newRun Sim.allGood
               = (Ok (Sim.taskOf Sim.allGood), (Sim.newRun Sim.allGood).1.2,
                  (Sim.newRun Sim.allGood).2))
    by (vm_compute; reflexivity).
  assert (H2 : filledRun = (Ok filledCreated, filledRun.1.2, filledRun.2))
    by (vm_compute; reflexivity).
  split; [exact H1|]. split; [exact H2|].
  destruct (PrepareCommitEntry_then_HandleMergeEntryInTxn (Sim.X Sim.allGood)
              _ _ _ _ _ _ _ _ _ _ _ _ _ _ H1 H2) as (Hdel & Hlen & _).
  split; [exact Hdel|exact Hlen].
Defined.

Lemma GetCreatedObjects_after_Execute_witness :
  Sim.execRun Sim.allGood
  = (Ok (executedTask, None), (Sim.execRun Sim.allGood).1.2,
     (Sim.execRun Sim.allGood).2) /\
  GetCreatedObjects executedTask = createdMetas (Sim.execRun Sim.allGood).2.
Proof.
  assert (H : Sim.execRun Sim.allGood
              = (Ok (executedTask, None), (Sim.execRun Sim.allGood).1.2,
                 (Sim.execRun Sim.allGood).2))
    by (vm_compute; reflexivity).
  split; [exact H|].
  destruct (GetCreatedObjects_after_Execute (Sim.X Sim.allGood)
              _ _ _ _ _ _ H) as (pos & rows & [u|e] & rest & Ht & Hc).
  - exact Hc.
  - exfalso. revert Ht. vm_compute. discriminate.
Defined.

Lemma Execute_panics_without_commit_entry_witness :
  DoMergeAndWrite (forgetfulEngine Sim.allGood)
    (tableSortKeyPos (handle.Schema (rel (Sim.taskOf Sim.allGood))))
    (catalog.BlockMaxRows (handle.Schema (rel (Sim.taskOf Sim.allGood))))
    (Sim.taskOf Sim.allGood) 4%nat
  = (inl tt, None, 5%nat) /\
  (Execute (forgetfulEngine Sim.allGood) (Sim.taskOf Sim.allGood) 4%nat).1.1
  = Panic "nil pointer dereference".
Proof.
  assert (H : DoMergeAndWrite (forgetfulEngine Sim.allGood)
                (tableSortKeyPos (handle.Schema (rel (Sim.taskOf Sim.allGood))))
                (catalog.BlockMaxRows
                   (handle.Schema (rel (Sim.taskOf Sim.allGood))))
                (Sim.taskOf Sim.allGood) 4%nat
              = (inl tt, None, 5%nat)) by reflexivity.
  split; [exact H|].
  by rewrite (Execute_panics_without_commit_entry (forgetfulEngine Sim.allGood)
                _ _ _ H).
Defined.

(** * Proofs about the index-build operator *)

Section IndexBuildProofs.
Import indexbuild.
Context {St : Type} (E : Env St).

#[local] Abbreviation IM := (IM St).
#[local] Abbreviation World := (World St).

(** *** Rules for [wp] *)

Lemma wp_mono {A} (w : World) (m : IM A)
    (Q Q' : Outcome A -> World -> list Ev -> Prop) :
  wp w m Q -> (forall o w' t, Q o w' t -> Q' o w' t) -> wp w m Q'.
Proof. unfold wp. auto. Qed.

Lemma wp_ret {A} (w : World) (a : A) Q : Q (Ok a) w [] -> wp w (iret a) Q.
Proof. done. Qed.

Lemma wp_throw {A} (w : World) e (Q : Outcome A -> World -> list Ev -> Prop) :
  Q (Err e) w [] -> wp w (ithrow e) Q.
Proof. done. Qed.

Lemma wp_panic {A} (w : World) p (Q : Outcome A -> World -> list Ev -> Prop) :
  Q (Panic p) w [] -> wp w (ipanic p) Q.
Proof. done. Qed.

Lemma wp_emit (w : World) ev Q : Q (Ok tt) w [ev] -> wp w (iemit ev) Q.
Proof. done. Qed.

Lemma wp_bind {A B} (w : World) (m : IM A) (k : A -> IM B) Q :
  wp w m (fun o w1 t =>
            match o with
            | Ok a => wp w1 (k a) (fun o' w' t' => Q o' w' (t ++ t'))
            | Err e => Q (Err e) w1 t
            | Panic p => Q (Panic p) w1 t
            end) ->
  wp w (ibind m k) Q.
Proof.
  unfold wp, ibind. destruct (m w) as [[[a|e|p] w1] t1]; simpl; try done.
  by destruct (k a w1) as [[o2 w2] t2].
Qed.

Lemma wp_try {A} (w : World) (m : IM A) Q :
  wp w m (fun o w1 t =>
            match o with
            | Ok a => Q (Ok (inl a)) w1 t
            | Err e => Q (Ok (inr e)) w1 t
            | Panic p => Q (Panic p) w1 t
            end) ->
  wp w (itry m) Q.
Proof. unfold wp, itry. by destruct (m w) as [[[a|e|p] w1] t1]. Qed.

Lemma wp_deferred {A} (w : World) (m : IM A) d Q :
  wp w m (fun o w1 t => Q o w1 (t ++ [d])) -> wp w (deferred m d) Q.
Proof. unfold wp, deferred. by destruct (m w) as [[o w1] t1]. Qed.

Lemma wp_oracle {A} (w : World) (f : St -> A * St) (ev : A -> Ev) Q :
  (forall a s, f (ext w) = (a, s) ->
               Q (Ok a) {| inbox := inbox w; ctr := ctr w; ext := s |} [ev a]) ->
  wp w (oracle f ev) Q.
Proof.
  intros H. unfold wp, oracle. destruct (f (ext w)) as [a s] eqn:Hf. by apply H.
Qed.

Lemma wp_getCtr (w : World) c Q :
  ctr w = Some c -> Q (Ok c) w [] -> wp w getCtr Q.
Proof. intros Hc HQ. unfold wp, getCtr. by rewrite Hc. Qed.

Lemma wp_setCtr (w : World) c Q :
  Q (Ok tt) {| inbox := inbox w; ctr := Some c; ext := ext w |} [] ->
  wp w (setCtr c) Q.
Proof. done. Qed.

Lemma wp_setState (w : World) c st Q :
  ctr w = Some c ->
  Q (Ok tt)
    {| inbox := inbox w;
       ctr := Some {| state := st; isMerge := isMerge c;
                      ctr_batch := ctr_batch c |};
       ext := ext w |} [] ->
  wp w (setState st) Q.
Proof. intros Hc HQ. unfold wp, setState, ibind, getCtr. by rewrite Hc. Qed.

Lemma wp_setBatch (w : World) c b Q :
  ctr w = Some c ->
  Q (Ok tt)
    {| inbox := inbox w;
       ctr := Some {| state := state c; isMerge := isMerge c; ctr_batch := b |};
       ext := ext w |} [] ->
  wp w (setBatch b) Q.
Proof. intros Hc HQ. unfold wp, setBatch, ibind, getCtr. by rewrite Hc. Qed.

Lemma wp_run {A} (w : World) (m : IM A) Q o w' t :
  wp w m Q -> m w = (o, w', t) -> Q o w' t.
Proof. unfold wp. intros H Hr. by rewrite Hr in H. Qed.

Ltac w_simp := cbn beta iota zeta.
Ltac w_bind := w_simp; apply wp_bind; w_simp.
Ltac w_ret := w_simp; apply wp_ret; w_simp.
Ltac w_emit := w_simp; apply wp_emit; w_simp.
Ltac w_get c := w_simp; apply (wp_getCtr _ c); [done|]; w_simp.

(** *** sendFilter and handleRuntimeFilter *)

(** [sendFilter] makes one [select] and ends the operator, whichever case
    fires. *)
Lemma sendFilter_spec (w : World) ap c s0 rest f :
  ctr w = Some c -> RuntimeFilterSenders ap = s0 :: rest ->
  wp w (sendFilter E ap f)
     (fun o w' t =>
        o = Ok tt /\ inbox w' = inbox w /\
        ctr w' = Some {| state := End; isMerge := isMerge c;
                         ctr_batch := ctr_batch c |} /\
        exists done : bool,
          t = [if done then EvDone else EvSend (Chan s0) f; EvWaitStop]).
Proof.
  intros Hc Hs. unfold sendFilter, sender0. rewrite Hs.
  w_bind. w_ret. w_bind. apply wp_oracle. intros done s _.
  w_bind. apply (wp_setState _ c); [done|]. w_emit.
  repeat split; try done. by exists done.
Qed.

(** What [handleRuntimeFilter] does, case by case, from a world whose
    container is [c] and whose first sender is [s0]. *)
Lemma handleRuntimeFilter_spec (w : World) ap c s0 rest :
  ctr w = Some c -> RuntimeFilterSenders ap = s0 :: rest ->
  wp w (handleRuntimeFilter E ap)
     (fun o w' t =>
        inbox w' = inbox w /\
        match o with
        | Ok _ =>
            exists f b' (done : bool),
              ctr w' = Some {| state := End; isMerge := isMerge c;
                               ctr_batch := b' |} /\
              t = [if done then EvDone else EvSend (Chan s0) f; EvWaitStop] /\
              ((Expr (Spec s0) = None /\ f = pass /\ b' = ctr_batch c) \/
               (Expr (Spec s0) <> None /\
                (ctr_batch c = None \/
                 exists b, ctr_batch c = Some b /\ batch.rowCount b = 0%nat) /\
                f = drop /\ b' = ctr_batch c) \/
               (Expr (Spec s0) <> None /\
                exists b, ctr_batch c = Some b /\ batch.rowCount b <> 0%nat /\
                          UpperLimit (Spec s0) < Z.of_nat (batch.rowCount b) /\
                          f = pass /\ b' = Some b) \/
               (Expr (Spec s0) <> None /\
                exists b v data,
                  ctr_batch c = Some b /\ batch.rowCount b <> 0%nat /\
                  Z.of_nat (batch.rowCount b) <= UpperLimit (Spec s0) /\
                  batch.Vecs b = [Some v] /\
                  MarshalBinary E (InplaceSort E v) = inl data /\
                  f = {| Typ := RuntimeFilter_IN;
                         Card := int32 (Z.of_nat (length (InplaceSort E v)));
                         Data := data |} /\
                  b' = Some {| batch.Attrs := batch.Attrs b;
                               batch.Vecs := [Some (InplaceSort E v)];
                               batch.rowCount := batch.rowCount b |}))
        | Err e =>
            exists b v,
              ctr_batch c = Some b /\ batch.Vecs b = [Some v] /\
              MarshalBinary E (InplaceSort E v) = inr e /\
              ctr w' = Some {| state := state c; isMerge := isMerge c;
                               ctr_batch :=
                                 Some {| batch.Attrs := batch.Attrs b;
                                         batch.Vecs := [Some (InplaceSort E v)];
                                         batch.rowCount := batch.rowCount b |}
                            |} /\
              t = []
        | Panic p => (p = oneVector \/ p = nilDeref) /\ t = [] /\ ctr w' = Some c
        end).
Proof.
  intros Hc Hs. unfold handleRuntimeFilter, sender0, earlyFilter. rewrite Hs.
  w_bind. w_ret. w_bind.
  destruct (Expr (Spec s0)) as [x|] eqn:Hexpr.
  2:{ w_ret. eapply wp_mono; [by apply (sendFilter_spec w ap c s0 rest)|].
      simpl. intros o w' t (-> & Hin & Hctr & done & ->). split; [done|].
      exists pass, (ctr_batch c), done. repeat split; try done. by left. }
  w_bind. w_get c.
  destruct (ctr_batch c) as [b|] eqn:Hb.
  2:{ w_ret. eapply wp_mono; [by apply (sendFilter_spec w ap c s0 rest)|].
      simpl. intros o w' t (-> & Hin & Hctr & done & ->). split; [done|].
      exists drop, None, done. rewrite Hb in Hctr. repeat split; try done.
      right; left. repeat split; try done. by left. }
  destruct (decide (batch.rowCount b = 0%nat)) as [H0|Hn0].
  { w_ret. eapply wp_mono; [by apply (sendFilter_spec w ap c s0 rest)|].
    simpl. intros o w' t (-> & Hin & Hctr & done & ->). split; [done|].
    exists drop, (Some b), done. rewrite Hb in Hctr. repeat split; try done.
    right; left. repeat split; try done. right. by exists b. }
  w_ret. w_bind. w_ret. w_bind. w_get c.
  rewrite Hb. w_bind. w_ret.
  destruct (decide (UpperLimit (Spec s0) < Z.of_nat (batch.rowCount b)))
    as [Hbig|Hsmall].
  { eapply wp_mono; [by apply (sendFilter_spec w ap c s0 rest)|].
    simpl. intros o w' t (-> & Hin & Hctr & done & ->). split; [done|].
    exists pass, (Some b), done. rewrite Hb in Hctr. repeat split; try done.
    right; right; left. split; [done|]. by exists b. }
  destruct (batch.Vecs b) as [|[v|] [|? ?]] eqn:Hvecs;
    try (apply wp_panic; repeat split; auto).
  w_bind. apply (wp_setBatch _ c); [done|]. w_simp.
  destruct (MarshalBinary E (InplaceSort E v)) as [data|e] eqn:Hm.
  2:{ apply wp_throw. split; [done|]. exists b, v. by repeat split. }
  eapply wp_mono.
  { by eapply (sendFilter_spec _ ap _ s0 rest). }
  simpl. intros o w' t (-> & Hin & Hctr & done & ->). split; [done|].
  eexists _, _, done. split; [exact Hctr|]. split; [done|].
  right; right; right. split; [done|]. exists b, v, data.
  repeat split; try done. lia.
Qed.

(** *** collectBuildBatches *)

Lemma wp_step (w : World) (f : World -> World) ev Q :
  Q (Ok tt) (f w) [ev] -> wp w (fun w0 => (Ok tt, f w0, [ev])) Q.
Proof. done. Qed.

(** The loop keeps the state and the merge flag of the container, consumes
    the batches in order, returns every batch it received to the pool
    unless appending it failed, and appends exactly the batches that are
    not empty.  It ends at the end of the stream or once the build batch
    has more rows than the limit. *)
Lemma collectFrom_spec ap isFirst :
  forall msgs (w : World) c,
    inbox w = msgs -> ctr w = Some c ->
    wp w (collectFrom E ap isFirst msgs)
       (fun o w' t =>
          (exists c',
             ctr w' = Some c' /\ state c' = state c /\
             isMerge c' = isMerge c /\
             match o with
             | Ok _ =>
                 (exists pre a, t = pre ++ [EvReceive a (inl None)]) \/
                 (exists b s0 rest,
                    ctr_batch c' = Some b /\
                    RuntimeFilterSenders ap = s0 :: rest /\
                    UpperLimit (Spec s0) < Z.of_nat (batch.rowCount b))
             | _ => True
             end) /\
          suffix (inbox w') msgs /\
          match o with
          | Ok _ =>
              pooled t = received t /\
              appended t
              = List.filter (fun b => negb (IsEmpty E b)) (received t)
          | Err e =>
              (pooled t = received t /\
               exists pre a, t = pre ++ [EvReceive a (inr e)]) \/
              (exists b pre acc r,
                 received t = pooled t ++ [b] /\
                 t = pre ++ [EvAppendWithCopy acc b r] /\ r.2 = Some e)
          | Panic p => p = nilDeref \/ p = "index out of range"
          end).
Proof.
  induction msgs as [|m rest IH]; intros w c Hin Hc; cbn [collectFrom].
  - w_bind. w_get c. w_emit. split; [|split].
    + exists c. repeat split; try done. left. by exists [], (isMerge c).
    + by rewrite Hin.
    + done.
  - w_bind. w_get c. w_bind. apply wp_step. w_simp.
    set (w1 := {| inbox := rest; ctr := ctr w; ext := ext w |}).
    destruct m as [[b|]|e].
    + destruct (IsEmpty E b) eqn:Hempty.
      * w_bind. w_emit. eapply wp_mono; [by apply (IH w1 c)|].
        cbn beta. intros o w' t ((c' & Hc' & Hst & Hm & Hend) & Hsuf & Hacc).
        split; [|split].
        -- exists c'. repeat split; try done.
           destruct o as [[]|e|p]; [|done..].
           destruct Hend as [(pre & a & ->)|Hbig]; [left|by right].
           by exists (EvReceive (isMerge c) (inl (Some b)) :: EvPutBatch b
                      :: pre), a.
        -- by apply suffix_cons_r.
        -- destruct o as [[]|e|p]; [| |done].
           ++ destruct Hacc as [Hp Ha]. cbn. rewrite Hempty. cbn.
              split; [by f_equal|done].
           ++ destruct Hacc as [(Hp & pre & a & ->)|(b' & pre & acc & r & Hr
                                                     & -> & He)].
              ** left. split; [by cbn; f_equal|].
                 by exists (EvReceive (isMerge c) (inl (Some b))
                            :: EvPutBatch b :: pre), a.
              ** right. exists b',
                   (EvReceive (isMerge c) (inl (Some b)) :: EvPutBatch b
                    :: pre), acc, r.
                 split; [|done]. unfold received, pooled in *. simpl in *.
                 f_equal. exact Hr.
      * w_bind. w_emit. w_bind. apply wp_oracle. intros [acc' err] s Happ.
        w_bind. apply (wp_setBatch _ c); [done|]. w_simp. cbn [fst snd].
        set (c1 := {| state := state c; isMerge := isMerge c;
                      ctr_batch := acc' |}).
        set (w2 := {| inbox := _; ctr := Some c1; ext := _ |}).
        destruct err as [e|].
        { apply wp_throw. split; [|split].
          - by exists c1.
          - by apply suffix_cons_r.
          - right. exists b, [EvReceive (isMerge c) (inl (Some b));
                             EvAnalInput b isFirst],
                     (ctr_batch c), (acc', Some e). by repeat split. }
        w_bind. w_emit. w_bind.
        destruct acc' as [b1|]; cbn [RowCount].
        2:{ apply wp_panic. split; [|split].
            - by exists c1.
            - by apply suffix_cons_r.
            - by left. }
        w_ret. w_bind. unfold sender0.
        destruct (RuntimeFilterSenders ap) as [|s0 more] eqn:Hs.
        { apply wp_panic. split; [|split].
          - by exists c1.
          - by apply suffix_cons_r.
          - by right. }
        w_ret.
        destruct (decide (UpperLimit (Spec s0) < Z.of_nat (batch.rowCount b1)))
          as [Hbig|Hsmall].
        { w_ret. split; [|split].
          - exists c1. repeat split; try done. right. by exists b1, s0, more.
          - by apply suffix_cons_r.
          - cbn. rewrite Hempty. by cbn. }
        eapply wp_mono; [by apply (IH w2 c1)|].
        cbn beta. intros o w' t ((c' & Hc' & Hst & Hm & Hend) & Hsuf & Hacc).
        split; [|split].
        -- exists c'. repeat split; try done.
           destruct o as [[]|e|p]; [|done..].
           destruct Hend as [(pre & a & ->)|Hbig]; [left|by right].
           by exists (EvReceive (isMerge c) (inl (Some b))
                      :: EvAnalInput b isFirst
                      :: EvAppendWithCopy (ctr_batch c) b (Some b1, None)
                      :: EvPutBatch b :: pre), a.
        -- by apply suffix_cons_r.
        -- destruct o as [[]|e|p]; [| |done].
           ++ destruct Hacc as [Hp Ha]. cbn. rewrite Hempty. cbn.
              split; by f_equal.
           ++ destruct Hacc as [(Hp & pre & a & ->)|(b' & pre & acc & r & Hr
                                                     & -> & He)].
              ** left. split; [by cbn; f_equal|].
                 by exists (EvReceive (isMerge c) (inl (Some b))
                            :: EvAnalInput b isFirst
                            :: EvAppendWithCopy (ctr_batch c) b (Some b1, None)
                            :: EvPutBatch b :: pre), a.
              ** right. exists b',
                   (EvReceive (isMerge c) (inl (Some b))
                    :: EvAnalInput b isFirst
                    :: EvAppendWithCopy (ctr_batch c) b (Some b1, None)
                    :: EvPutBatch b :: pre), acc, r.
                 split; [|done]. unfold received, pooled in *. simpl in *.
                 f_equal. exact Hr.
    + w_ret. split; [|split].
      * exists c. repeat split; try done. left. by exists [], (isMerge c).
      * by apply suffix_cons_r.
      * done.
    + apply wp_throw. split; [|split].
      * by exists c.
      * by apply suffix_cons_r.
      * left. split; [done|]. by exists [], (isMerge c).
Qed.


Lemma wp_and {A} (w : World) (m : IM A)
    (Q1 Q2 : Outcome A -> World -> list Ev -> Prop) :
  wp w m Q1 -> wp w m Q2 -> wp w m (fun o w' t => Q1 o w' t /\ Q2 o w' t).
Proof. unfold wp. auto. Qed.

(** The loop makes no other calls than receives in the container's mode,
    returns to the pool, analyzer inputs and appends; with a sender it can
    only panic on a nil build batch. *)
Lemma collectFrom_events ap isFirst :
  forall msgs (w : World) c,
    ctr w = Some c ->
    wp w (collectFrom E ap isFirst msgs)
       (fun o w' t =>
          Forall (collects (isMerge c)) t /\
          match o with
          | Panic p => p = nilDeref \/ RuntimeFilterSenders ap = []
          | _ => True
          end).
Proof.
  induction msgs as [|m rest IH]; intros w c Hc; cbn [collectFrom].
  - w_bind. w_get c. w_emit. split; [|done]. by repeat constructor.
  - w_bind. w_get c. w_bind. apply wp_step. w_simp.
    set (w1 := {| inbox := rest; ctr := ctr w; ext := ext w |}).
    destruct m as [[b|]|e].
    + destruct (IsEmpty E b) eqn:Hempty.
      * w_bind. w_emit. eapply wp_mono; [by apply (IH w1 c)|].
        cbn beta. intros o w' t [Hall Hp]. split; [|done].
        by repeat constructor.
      * w_bind. w_emit. w_bind. apply wp_oracle. intros [acc' err] s Happ.
        w_bind. apply (wp_setBatch _ c); [done|]. w_simp. cbn [fst snd].
        set (c1 := {| state := state c; isMerge := isMerge c;
                      ctr_batch := acc' |}).
        set (w2 := {| inbox := _; ctr := Some c1; ext := _ |}).
        destruct err as [e|].
        { apply wp_throw. split; [|done]. by repeat constructor. }
        w_bind. w_emit. w_bind.
        destruct acc' as [b1|]; cbn [RowCount].
        2:{ apply wp_panic. split; [by repeat constructor|by left]. }
        w_ret. w_bind. unfold sender0.
        destruct (RuntimeFilterSenders ap) as [|s0 more] eqn:Hs.
        { apply wp_panic. split; [by repeat constructor|by right]. }
        w_ret.
        destruct (decide (UpperLimit (Spec s0) < Z.of_nat (batch.rowCount b1)))
          as [Hbig|Hsmall].
        { w_ret. split; [|done]. by repeat constructor. }
        eapply wp_mono; [by apply (IH w2 c1)|].
        cbn beta. intros o w' t [Hall Hp]. split.
        -- by repeat constructor.
        -- destruct o as [?|?|p]; [done..|].
           destruct Hp as [->|Hp]; [by left|done].
    + w_ret. split; [|done]. by repeat constructor.
    + apply wp_throw. split; [|done]. by repeat constructor.
Qed.

Lemma collects_receivesIn a t :
  Forall (collects a) t -> Forall (receivesIn a) t.
Proof. intros H. eapply Forall_impl; [exact H|]. by intros []. Qed.

Lemma collects_startStop a t :
  Forall (collects a) t -> Forall (fun ev => is_startStop ev = false) t.
Proof. intros H. eapply Forall_impl; [exact H|]. by intros []. Qed.

Lemma collects_sentFilters a t : Forall (collects a) t -> sentFilters t = [].
Proof.
  induction 1 as [|ev t Hev _ IH]; [done|].
  unfold sentFilters in *. by destruct ev.
Qed.

Lemma sentFilters_app t1 t2 :
  sentFilters (t1 ++ t2) = sentFilters t1 ++ sentFilters t2.
Proof. apply omap_app. Qed.


(** *** The loop of Call *)

Lemma wp_build (w : World) ap isFirst Q :
  wp w (collectFrom E ap isFirst (inbox w)) Q -> wp w (build E ap isFirst) Q.
Proof. done. Qed.

Lemma rounds_S n arg result :
  rounds E (S n) arg result
  = ibind getCtr (fun c =>
      match state c with
      | ReceiveBatch =>
          ibind (itry (build E arg (GetIsFirst arg))) (fun r =>
          match r with
          | inr err => iret (result, Some err)
          | inl _ =>
              ibind (setState HandleRuntimeFilter) (fun _ =>
              rounds E n arg result)
          end)
      | HandleRuntimeFilter =>
          ibind (iemit (EvInfof
            "testbug: begin handle RuntimeFilter in index build")) (fun _ =>
          ibind (itry (handleRuntimeFilter E arg)) (fun r =>
          match r with
          | inr err => iret (result, Some err)
          | inl _ =>
              ibind (iemit (EvInfof
                "testbug: finish handle RuntimeFilter in index build"))
                (fun _ =>
              ibind (setState End) (fun _ =>
              rounds E n arg result))
          end))
      | End =>
          ibind (match ctr_batch c with
                 | Some b => ibind (iemit (EvPutBatch b)) (fun _ =>
                             setBatch None)
                 | None => iret tt
                 end) (fun _ =>
          iret (stopped, None))
      end).
Proof. done. Qed.

(** In the stop state one round returns: the build batch goes back to the
    pool and nothing else is called. *)
Lemma rounds_End n arg result (w : World) c :
  ctr w = Some c -> state c = End ->
  wp w (rounds E (S n) arg result)
     (fun o w' t =>
        o = Ok (stopped, None) /\ inbox w' = inbox w /\ ext w' = ext w /\
        ctr w' = Some {| state := End; isMerge := isMerge c;
                         ctr_batch := None |} /\
        t = match ctr_batch c with Some b => [EvPutBatch b] | None => [] end).
Proof.
  intros Hc Hst. rewrite rounds_S. w_bind. w_get c. rewrite Hst. w_bind.
  destruct (ctr_batch c) as [b|] eqn:Hb.
  - w_bind. w_emit. apply (wp_setBatch _ c); [done|]. w_simp. w_ret.
    rewrite Hst. by split_and!.
  - w_ret. w_ret. split_and!; try done.
    rewrite Hc. f_equal. destruct c; simpl in *. by subst.
Qed.

Lemma rounds_Filter n arg result (w : World) c s0 rest :
  ctr w = Some c -> state c = HandleRuntimeFilter ->
  RuntimeFilterSenders arg = s0 :: rest ->
  wp w (rounds E (S (S n)) arg result) (afterLoop (inbox w) c result).
Proof.
  intros Hc Hst Hs. rewrite rounds_S. w_bind. w_get c. rewrite Hst.
  w_bind. w_emit. w_bind. apply wp_try.
  eapply wp_mono; [by apply (handleRuntimeFilter_spec w arg c s0 rest)|].
  cbn beta. intros o w1 t1 [Hin H]. destruct o as [[]|e|p].
  - destruct H as (f & b' & done & Hc1 & -> & _).
    w_bind. w_emit. w_bind. eapply wp_setState; [exact Hc1|]. w_simp.
    eapply wp_mono.
    { apply (rounds_End n arg result _
               {| state := End; isMerge := isMerge c; ctr_batch := b' |});
        done. }
    cbn beta. intros o w' t (-> & Hin' & _ & Hc' & ->).
    unfold afterLoop. split_and!.
    + rewrite Hin'. simpl. by rewrite Hin.
    + destruct done, b'; by repeat constructor.
    + destruct done, b'; by repeat constructor.
    + destruct done, b'; simpl; lia.
    + done.
    + exact Hc'.
  - destruct H as (b & v & Hb & Hv & Hm & Hc1 & ->). w_ret.
    unfold afterLoop. split_and!.
    + by rewrite Hin.
    + by repeat constructor.
    + by repeat constructor.
    + simpl. lia.
    + done.
    + done.
    + eexists. split; [exact Hc1|]. simpl. by rewrite Hst.
  - destruct H as (Hp & -> & Hc1).
    unfold afterLoop. split_and!.
    + by rewrite Hin.
    + by repeat constructor.
    + by repeat constructor.
    + simpl. lia.
    + destruct Hp as [-> | ->]; [by right|by left].
Qed.

Lemma rounds_Receive n arg result (w : World) c s0 rest :
  ctr w = Some c -> state c = ReceiveBatch ->
  RuntimeFilterSenders arg = s0 :: rest ->
  wp w (rounds E (S (S (S n))) arg result) (afterLoop (inbox w) c result).
Proof.
  intros Hc Hst Hs. rewrite rounds_S. w_bind. w_get c. rewrite Hst.
  w_bind. apply wp_try. apply wp_build.
  eapply wp_mono.
  { apply wp_and.
    - by apply (collectFrom_spec arg (GetIsFirst arg) (inbox w) w c).
    - by apply (collectFrom_events arg (GetIsFirst arg) (inbox w) w c). }
  cbn beta.
  intros o w1 t1 [((c' & Hc1 & Hst1 & Hm1 & Hend) & Hsuf & Hacc) [Hall Hp]].
  destruct o as [[]|e|p].
  - w_bind. apply (wp_setState _ c'); [done|]. w_simp.
    eapply wp_mono.
    { apply (rounds_Filter n arg result _
               {| state := HandleRuntimeFilter; isMerge := isMerge c';
                  ctr_batch := ctr_batch c' |} s0 rest); done. }
    cbn beta. intros o w' t (Hsuf' & Hrecv & Hss & Hlen & Hcase).
    simpl in Hsuf', Hrecv, Hcase. rewrite Hm1 in Hrecv, Hcase.
    unfold afterLoop. split_and!.
    + by etrans.
    + simpl. apply Forall_app. split; [by eapply collects_receivesIn|done].
    + simpl. apply Forall_app. split; [by eapply collects_startStop|done].
    + simpl. by rewrite sentFilters_app, (collects_sentFilters _ _ Hall).
    + destruct o as [[res [e|]]|?|?]; try done.
      destruct Hcase as (-> & Hsent & Hc'). split_and!; try done.
      simpl. by rewrite sentFilters_app, (collects_sentFilters _ _ Hall).
  - w_ret. unfold afterLoop. simpl. rewrite !app_nil_r. split_and!.
    + done.
    + by eapply collects_receivesIn.
    + by eapply collects_startStop.
    + rewrite (collects_sentFilters _ _ Hall). simpl. lia.
    + done.
    + by eapply collects_sentFilters.
    + exists c'. split_and!; try done. by rewrite Hst1, Hst.
  - unfold afterLoop. simpl. split_and!.
    + done.
    + by eapply collects_receivesIn.
    + by eapply collects_startStop.
    + rewrite (collects_sentFilters _ _ Hall). simpl. lia.
    + destruct Hp as [->|Hp]; [by left|]. by rewrite Hs in Hp.
Qed.

(** Three rounds are enough for the loop, from any state. *)
Lemma rounds_spec arg result (w : World) c s0 rest :
  ctr w = Some c -> RuntimeFilterSenders arg = s0 :: rest ->
  wp w (rounds E 3 arg result) (afterLoop (inbox w) c result).
Proof.
  intros Hc Hs. destruct (state c) eqn:Hst.
  - by apply (rounds_Receive 0 arg result w c s0 rest).
  - by apply (rounds_Filter 1 arg result w c s0 rest).
  - eapply wp_mono; [by apply (rounds_End 2 arg result w c)|].
    cbn beta. intros o w' t (-> & Hin & _ & Hc' & ->).
    unfold afterLoop. split_and!; try done.
    + by rewrite Hin.
    + destruct (ctr_batch c); by repeat constructor.
    + destruct (ctr_batch c); by repeat constructor.
    + destruct (ctr_batch c); simpl; lia.
Qed.

(** [Call] as a whole: a cancelled call does nothing; otherwise the loop
    runs between the start and the stop of the analyzer. *)
Lemma Call_spec arg (w : World) c s0 rest :
  ctr w = Some c -> RuntimeFilterSenders arg = s0 :: rest ->
  wp w (Call E arg)
     (fun o w' t =>
        exists err (cancel : bool) s,
          CancelCheck E (ext w) = ((err, cancel), s) /\
          if cancel
          then o = Ok (CancelResult E, err) /\
               w' = {| inbox := inbox w; ctr := ctr w; ext := s |} /\
               t = [EvCancelCheck (err, true)]
          else exists mid,
                 t = EvCancelCheck (err, false) :: EvAnalStart
                     :: mid ++ [EvAnalStop] /\
                 afterLoop (inbox w) c (NewCallResult E) o w' mid).
Proof.
  intros Hc Hs. unfold Call. w_bind. apply wp_oracle.
  intros [err cancel] s Hcc. cbn [fst snd].
  exists err, cancel, s. split; [done|]. destruct cancel.
  - by w_ret.
  - w_bind. w_emit. apply wp_deferred.
    eapply wp_mono.
    { by apply (rounds_spec arg (NewCallResult E)
                  {| inbox := inbox w; ctr := ctr w; ext := s |} c s0 rest). }
    cbn beta. intros o w' t H. by exists t.
Qed.


(** [Prepare] with a sender installs a fresh container, chooses the receive
    mode by the number of merge receivers and initialises the receiver
    once. *)
Lemma Prepare_spec arg proc (w : World) s0 rest :
  RuntimeFilterSenders arg = s0 :: rest ->
  Prepare arg proc w
  = (Ok None,
     {| inbox := inbox w;
        ctr := Some {| state := ReceiveBatch;
                       isMerge := bool_decide (1 < MergeReceivers proc)%nat;
                       ctr_batch := None |};
        ext := ext w |},
     [EvInitReceiver (bool_decide (1 < MergeReceivers proc)%nat)]).
Proof.
  intros Hs. unfold Prepare. rewrite Hs.
  destruct (decide (1 < MergeReceivers proc)%nat) as [H|H].
  - by rewrite (bool_decide_eq_true_2 _ H).
  - by rewrite (bool_decide_eq_false_2 _ H).
Qed.

Lemma sentFilters_bracket err mid :
  sentFilters (EvCancelCheck err :: EvAnalStart :: mid ++ [EvAnalStop])
  = sentFilters mid.
Proof.
  unfold sentFilters. cbn. by rewrite omap_app, app_nil_r.
Qed.

(** *** The operator as its callers see it

    In the theorems on [Call] the operator has been prepared: the container
    behind [arg.ctr] is set and there is at least one sender. *)

(** X13: a cancelled [Call] makes the cancel check and nothing else: it
    returns the cancel result with the checker's error and leaves the
    container and the batches to be received as they are.  Any other [Call]
    starts the analyzer right after the check and stops it as its last
    call, also when the loop returns an error or panics, and calls neither
    in between. *)
Theorem Call_brackets_the_analyzer arg (w : World) c s0 rest o w' t :
  ctr w = Some c -> RuntimeFilterSenders arg = s0 :: rest ->
  Call E arg w = (o, w', t) ->
  (exists err,
     t = [EvCancelCheck (err, true)] /\ o = Ok (CancelResult E, err) /\
     inbox w' = inbox w /\ ctr w' = ctr w) \/
  (exists err mid,
     t = EvCancelCheck (err, false) :: EvAnalStart :: mid ++ [EvAnalStop] /\
     Forall (fun ev => is_startStop ev = false) mid).
Proof.
  intros Hc Hs Hrun.
  destruct (wp_run _ _ _ _ _ _ (Call_spec arg w c s0 rest Hc Hs) Hrun)
    as (err & [|] & s & Hcc & H).
  - destruct H as (-> & -> & ->). left. by exists err.
  - destruct H as (mid & -> & _ & _ & Hss & _). right. by exists err, mid.
Qed.

(** X14: a [Call] that is not cancelled and returns no error has finished
    the operator: the result is the stop result without a batch, the
    container is in the stop state with its build batch dropped, the merge
    flag is kept, and the batches left to receive are a suffix of those
    there were. *)
Theorem Call_completes arg (w : World) c s0 rest res w' t :
  ctr w = Some c -> RuntimeFilterSenders arg = s0 :: rest ->
  (CancelCheck E (ext w)).1.2 = false ->
  Call E arg w = (Ok (res, None), w', t) ->
  res = stopped /\
  ctr w' = Some {| state := End; isMerge := isMerge c; ctr_batch := None |} /\
  suffix (inbox w') (inbox w).
Proof.
  intros Hc Hs Hnc Hrun.
  destruct (wp_run _ _ _ _ _ _ (Call_spec arg w c s0 rest Hc Hs) Hrun)
    as (err & cancel & s & Hcc & H).
  rewrite Hcc in Hnc. simpl in Hnc. subst cancel.
  destruct H as (mid & -> & Hsuf & _ & _ & _ & -> & Hc'). by split_and!.
Qed.

(** X15: the loop of [Call] ends within three rounds from any state of the
    container.  [Call] hands every error to its caller as a value, and its
    own code panics only on a nil build batch or vector and in the check
    for one vector (the collaborators are taken to return). *)
Theorem Call_ends_within_three_rounds arg (w : World) c s0 rest :
  ctr w = Some c -> RuntimeFilterSenders arg = s0 :: rest ->
  match (Call E arg w).1.1 with
  | Ok _ => True
  | Err _ => False
  | Panic p => p = nilDeref \/ p = oneVector
  end.
Proof.
  intros Hc Hs. destruct (Call E arg w) as [[o w'] t] eqn:Hrun.
  destruct (wp_run _ _ _ _ _ _ (Call_spec arg w c s0 rest Hc Hs) Hrun)
    as (err & [|] & s & Hcc & H); simpl.
  - by destruct H as (-> & _).
  - destruct H as (mid & -> & _ & _ & _ & _ & H).
    destruct o as [[res [e|]]|e|p]; done.
Qed.

(** X16: when a [Call] that is not cancelled returns an error, it returns
    the fresh result unchanged, has sent no filter, and leaves the container
    before the stop state, with its merge flag kept. *)
Theorem Call_error_leaves_operator_unfinished
    arg (w : World) c s0 rest res e w' t :
  ctr w = Some c -> RuntimeFilterSenders arg = s0 :: rest ->
  (CancelCheck E (ext w)).1.2 = false ->
  Call E arg w = (Ok (res, Some e), w', t) ->
  res = NewCallResult E /\ sentFilters t = [] /\
  exists c', ctr w' = Some c' /\ state c' <> End /\ isMerge c' = isMerge c.
Proof.
  intros Hc Hs Hnc Hrun.
  destruct (wp_run _ _ _ _ _ _ (Call_spec arg w c s0 rest Hc Hs) Hrun)
    as (err & cancel & s & Hcc & H).
  rewrite Hcc in Hnc. simpl in Hnc. subst cancel.
  destruct H as (mid & -> & _ & _ & _ & _ & -> & Hsent & Hc').
  split_and!; [done| |done]. by rewrite sentFilters_bracket.
Qed.

(** X17: once a [Call] has finished the operator, the next [Call] only
    checks for cancellation and brackets the analyzer: it receives nothing,
    sends nothing, returns the stop result again and leaves the container
    as it is. *)
Theorem Call_again_after_End arg (w : World) c s0 rest res w1 t1 :
  ctr w = Some c -> RuntimeFilterSenders arg = s0 :: rest ->
  (CancelCheck E (ext w)).1.2 = false ->
  Call E arg w = (Ok (res, None), w1, t1) ->
  (CancelCheck E (ext w1)).1.2 = false ->
  exists err w2,
    Call E arg w1
    = (Ok (stopped, None), w2,
       [EvCancelCheck (err, false); EvAnalStart; EvAnalStop]) /\
    inbox w2 = inbox w1 /\ ctr w2 = ctr w1.
Proof.
  intros Hc Hs Hnc Hrun Hnc2.
  destruct (wp_run _ _ _ _ _ _ (Call_spec arg w c s0 rest Hc Hs) Hrun)
    as (err & cancel & s & Hcc & H).
  rewrite Hcc in Hnc. simpl in Hnc. subst cancel.
  destruct H as (mid & -> & _ & _ & _ & _ & -> & Hc1).
  assert (Hw : wp w1 (Call E arg)
                 (fun o w2 t =>
                    o = Ok (stopped, None) /\ inbox w2 = inbox w1 /\
                    ctr w2 = ctr w1 /\
                    exists err2,
                      t = [EvCancelCheck (err2, false); EvAnalStart;
                           EvAnalStop])).
  { unfold Call. w_bind. apply wp_oracle. intros [err2 cancel] s2 Hcc2.
    rewrite Hcc2 in Hnc2. simpl in Hnc2. subst cancel. cbn [fst snd].
    w_bind. w_emit. apply wp_deferred.
    eapply wp_mono.
    { eapply (rounds_End 2 arg (NewCallResult E)
                {| inbox := inbox w1; ctr := ctr w1; ext := s2 |});
        [exact Hc1|done]. }
    cbn beta. intros o w2 t (-> & Hin & _ & Hc2 & ->). simpl in *.
    split_and!; try done.
    - by rewrite Hc2, Hc1.
    - by exists err2. }
  destruct (Call E arg w1) as [[o w2] t] eqn:Hrun2.
  destruct (wp_run _ _ _ _ _ _ Hw Hrun2) as (-> & Hin & Hc2 & err2 & ->).
  by exists err2, w2.
Qed.

(** X18: [collectBuildBatches] gives every batch it received back to the
    pool, in the order received, and appends to the build batch exactly the
    batches that are not empty.  When it returns an error, either a receive
    failed as its last call and every batch received was given back, or an
    append failed as its last call and only the batch being appended was
    not given back. *)
Theorem collectBuildBatches_returns_batches ap isFirst (w : World) c o w' t :
  ctr w = Some c ->
  collectBuildBatches E ap isFirst w = (o, w', t) ->
  match o with
  | Ok _ =>
      pooled t = received t /\
      appended t = List.filter (fun b => negb (IsEmpty E b)) (received t)
  | Err e =>
      (pooled t = received t /\
       exists pre a, t = pre ++ [EvReceive a (inr e)]) \/
      (exists b pre acc r,
         received t = pooled t ++ [b] /\
         t = pre ++ [EvAppendWithCopy acc b r] /\ r.2 = Some e)
  | Panic p => True
  end.
Proof.
  intros Hc Hrun.
  pose proof (collectFrom_spec ap isFirst (inbox w) w c eq_refl Hc) as H.
  apply (wp_run _ _ _ _ _ _ H) in Hrun as (_ & _ & Hacc).
  by destruct o.
Qed.

(** X19: [collectBuildBatches] returns without an error only at the end of
    the stream, its last call being the receive that gave nil, or with a
    build batch that has more rows than the limit of the first sender.  It
    takes the batches in order, leaving the rest to be received, and keeps
    the state and the merge flag of the container. *)
Theorem collectBuildBatches_stops ap isFirst (w : World) c w' t :
  ctr w = Some c ->
  collectBuildBatches E ap isFirst w = (Ok tt, w', t) ->
  suffix (inbox w') (inbox w) /\
  exists c',
    ctr w' = Some c' /\ state c' = state c /\ isMerge c' = isMerge c /\
    ((exists pre a, t = pre ++ [EvReceive a (inl None)]) \/
     (exists b s0 rest,
        ctr_batch c' = Some b /\ RuntimeFilterSenders ap = s0 :: rest /\
        UpperLimit (Spec s0) < Z.of_nat (batch.rowCount b))).
Proof.
  intros Hc Hrun.
  pose proof (collectFrom_spec ap isFirst (inbox w) w c eq_refl Hc) as H.
  apply (wp_run _ _ _ _ _ _ H) in Hrun as ((c' & Hc' & Hst & Hm & Hend) & Hsuf & _).
  split; [done|]. by exists c'.
Qed.

(** X20: the filter [handleRuntimeFilter] sends goes to the channel of the
    first sender and is the only one sent.  It is an IN filter only if the
    sender has an expression and the build batch has rows, no more than the
    limit, and one vector: the filter then carries the marshalled sorted
    vector and its length as a 32-bit integer.  It is a DROP filter only if
    the sender has an expression and there is no build batch or it has no
    rows; a PASS filter only if the sender has no expression or the build
    batch has more rows than the limit. *)
Theorem handleRuntimeFilter_filter_choice
    ap (w : World) c s0 rest o w' t ch f :
  ctr w = Some c -> RuntimeFilterSenders ap = s0 :: rest ->
  handleRuntimeFilter E ap w = (o, w', t) ->
  In (EvSend ch f) t ->
  ch = Chan s0 /\ sentFilters t = [f] /\
  match Typ f with
  | RuntimeFilter_IN =>
      Expr (Spec s0) <> None /\
      exists b v,
        ctr_batch c = Some b /\ (0 < batch.rowCount b)%nat /\
        Z.of_nat (batch.rowCount b) <= UpperLimit (Spec s0) /\
        batch.Vecs b = [Some v] /\
        Card f = int32 (Z.of_nat (length (InplaceSort E v))) /\
        MarshalBinary E (InplaceSort E v) = inl (Data f)
  | RuntimeFilter_DROP =>
      Expr (Spec s0) <> None /\
      (ctr_batch c = None \/
       exists b, ctr_batch c = Some b /\ batch.rowCount b = 0%nat)
  | RuntimeFilter_PASS =>
      Expr (Spec s0) = None \/
      exists b, ctr_batch c = Some b /\
                UpperLimit (Spec s0) < Z.of_nat (batch.rowCount b)
  end.
Proof.
  intros Hc Hs Hrun Hin.
  pose proof (handleRuntimeFilter_spec w ap c s0 rest Hc Hs) as H.
  apply (wp_run _ _ _ _ _ _ H) in Hrun as [_ Hcase].
  destruct o as [[]|e|p].
  - destruct Hcase as (f' & b' & done & _ & -> & Hf).
    assert (done = false /\ ch = Chan s0 /\ f = f') as (-> & -> & ->).
    { destruct done; simpl in Hin.
      - destruct Hin as [?|[?|[]]]; discriminate.
      - destruct Hin as [Heq|[?|[]]]; [|discriminate].
        by injection Heq as <- <-. }
    split; [done|]. split; [done|].
    destruct Hf as [(He & -> & _)|[(He & Hb & -> & _)|[(He & b & Hb & _ & Hbig
                      & -> & _)|(He & b & v & data & Hb & Hn0 & Hle & Hv & Hm
                                 & -> & _)]]]; simpl.
    + by left.
    + done.
    + right. by exists b.
    + split; [done|]. exists b, v. split_and!; try done. lia.
  - destruct Hcase as (? & ? & _ & _ & _ & _ & ->). destruct Hin.
  - destruct Hcase as (_ & -> & _). destruct Hin.
Qed.

(** X21: the receive mode [Prepare] chooses is the one every receive of the
    following [Call] uses: from all registers if and only if the process
    has more than one merge receiver.  [Prepare] initialises the receiver
    once, in that mode, and takes no batch. *)
Theorem Prepare_sets_receive_mode_of_Call
    arg proc (w0 w : World) s0 rest r t0 o w' t :
  RuntimeFilterSenders arg = s0 :: rest ->
  Prepare arg proc w0 = (Ok r, w, t0) ->
  Call E arg w = (o, w', t) ->
  r = None /\ inbox w = inbox w0 /\
  t0 = [EvInitReceiver (bool_decide (1 < MergeReceivers proc)%nat)] /\
  Forall (receivesIn (bool_decide (1 < MergeReceivers proc)%nat)) t.
Proof.
  intros Hs Hprep Hrun. rewrite (Prepare_spec arg proc w0 s0 rest Hs) in Hprep.
  injection Hprep as <- <- <-. split_and!; try done.
  set (c := {| state := ReceiveBatch;
               isMerge := bool_decide (1 < MergeReceivers proc)%nat;
               ctr_batch := None |}) in *.
  set (w := {| inbox := inbox w0; ctr := Some c; ext := ext w0 |}) in *.
  destruct (wp_run _ _ _ _ _ _ (Call_spec arg w c s0 rest eq_refl Hs) Hrun)
    as (err & [|] & s & Hcc & H).
  - destruct H as (_ & _ & ->). by repeat constructor.
  - destruct H as (mid & -> & _ & Hrecv & _). simpl in Hrecv.
    repeat (constructor; [done|]). apply Forall_app. split; [done|].
    by repeat constructor.
Qed.

(** X22: a [Call] sends at most one filter, whatever the state it starts
    from and however it ends. *)
Theorem Call_sends_at_most_one_filter arg (w : World) c s0 rest :
  ctr w = Some c -> RuntimeFilterSenders arg = s0 :: rest ->
  (length (sentFilters (Call E arg w).2) <= 1)%nat.
Proof.
  intros Hc Hs. destruct (Call E arg w) as [[o w'] t] eqn:Hrun.
  destruct (wp_run _ _ _ _ _ _ (Call_spec arg w c s0 rest Hc Hs) Hrun)
    as (err & [|] & s & Hcc & H); simpl.
  - destruct H as (_ & _ & ->). simpl. lia.
  - destruct H as (mid & -> & _ & _ & _ & Hlen & _).
    by rewrite sentFilters_bracket.
Qed.

End IndexBuildProofs.

(** ** Runs of the index-build operator on the scripted environment *)

Lemma Call_brackets_the_analyzer_witness :
  indexbuild.ctr IxSim.start = Some indexbuild.newContainer /\
  indexbuild.RuntimeFilterSenders (IxSim.arg 10) = [IxSim.sender 10] /\
  exists err mid,
    (IxSim.callRun IxSim.plain 10).2
    = indexbuild.EvCancelCheck (err, false) :: indexbuild.EvAnalStart
      :: mid ++ [indexbuild.EvAnalStop] /\
    Forall (fun ev => indexbuild.is_startStop ev = false) mid.
Proof.
  split; [reflexivity|]. split; [reflexivity|].
  assert (H : IxSim.callRun IxSim.plain 10
              = ((IxSim.callRun IxSim.plain 10).1.1,
                 (IxSim.callRun IxSim.plain 10).1.2,
                 (IxSim.callRun IxSim.plain 10).2))
    by (vm_compute; reflexivity).
  destruct (Call_brackets_the_analyzer (IxSim.E IxSim.plain) (IxSim.arg 10)
              IxSim.start indexbuild.newContainer (IxSim.sender 10) []
              _ _ _ eq_refl eq_refl H) as [(err & Ht & _)|Hb].
  - exfalso. revert Ht. vm_compute. discriminate.
  - exact Hb.
Defined.

Lemma Call_completes_witness :
  (indexbuild.CancelCheck (IxSim.E IxSim.plain)
     (indexbuild.ext IxSim.start)).1.2 = false /\
  IxSim.callRun IxSim.plain 10
  = (Ok (indexbuild.stopped, None), (IxSim.callRun IxSim.plain 10).1.2,
     (IxSim.callRun IxSim.plain 10).2) /\
  indexbuild.stopped = indexbuild.stopped /\
  indexbuild.ctr (IxSim.callRun IxSim.plain 10).1.2
  = Some {| indexbuild.state := indexbuild.End;
            indexbuild.isMerge := false;
            indexbuild.ctr_batch := None |} /\
  suffix (indexbuild.inbox (IxSim.callRun IxSim.plain 10).1.2)
    IxSim.stream.
Proof.
  assert (H : IxSim.callRun IxSim.plain 10
              = (Ok (indexbuild.stopped, None),
                 (IxSim.callRun IxSim.plain 10).1.2,
                 (IxSim.callRun IxSim.plain 10).2))
    by (vm_compute; reflexivity).
  split; [reflexivity|]. split; [exact H|].
  exact (Call_completes (IxSim.E IxSim.plain) (IxSim.arg 10) IxSim.start
           indexbuild.newContainer (IxSim.sender 10) [] _ _ _
           eq_refl eq_refl eq_refl H).
Defined.

Lemma Call_ends_within_three_rounds_witness :
  indexbuild.ctr IxSim.collected
  = Some {| indexbuild.state := indexbuild.HandleRuntimeFilter;
            indexbuild.isMerge := false;
            indexbuild.ctr_batch := Some (IxSim.keys [3; 1; 2]) |} /\
  match (indexbuild.Call (IxSim.E IxSim.plain) (IxSim.arg 10)
           IxSim.collected).1.1 with
  | Ok _ => True
  | Err _ => False
  | Panic p => p = indexbuild.nilDeref \/ p = indexbuild.oneVector
  end.
Proof.
  split; [reflexivity|].
  exact (Call_ends_within_three_rounds (IxSim.E IxSim.plain) (IxSim.arg 10)
           IxSim.collected _ (IxSim.sender 10) [] eq_refl eq_refl).
Defined.

Lemma Call_error_leaves_operator_unfinished_witness :
  IxSim.callRun IxSim.secondAppendFails 10
  = (Ok (indexbuild.NewCallResult (IxSim.E IxSim.secondAppendFails),
         Some IxSim.failure),
     (IxSim.callRun IxSim.secondAppendFails 10).1.2,
     (IxSim.callRun IxSim.secondAppendFails 10).2) /\
  indexbuild.NewCallResult (IxSim.E IxSim.secondAppendFails)
  = indexbuild.NewCallResult (IxSim.E IxSim.secondAppendFails) /\
  indexbuild.sentFilters (IxSim.callRun IxSim.secondAppendFails 10).2 = [] /\
  exists c',
    indexbuild.ctr (IxSim.callRun IxSim.secondAppendFails 10).1.2 = Some c' /\
    indexbuild.state c' <> indexbuild.End /\
    indexbuild.isMerge c' = false.
Proof.
  assert (H : IxSim.callRun IxSim.secondAppendFails 10
              = (Ok (indexbuild.NewCallResult
                       (IxSim.E IxSim.secondAppendFails),
                     Some IxSim.failure),
                 (IxSim.callRun IxSim.secondAppendFails 10).1.2,
                 (IxSim.callRun IxSim.secondAppendFails 10).2))
    by (vm_compute; reflexivity).
  split; [exact H|].
  exact (Call_error_leaves_operator_unfinished
           (IxSim.E IxSim.secondAppendFails) (IxSim.arg 10) IxSim.start
           indexbuild.newContainer (IxSim.sender 10) [] _ _ _ _
           eq_refl eq_refl eq_refl H).
Defined.

Lemma Call_again_after_End_witness :
  IxSim.callRun IxSim.plain 10
  = (Ok (indexbuild.stopped, None), (IxSim.callRun IxSim.plain 10).1.2,
     (IxSim.callRun IxSim.plain 10).2) /\
  exists err w2,
    IxSim.secondCallRun IxSim.plain 10
    = (Ok (indexbuild.stopped, None), w2,
       [indexbuild.EvCancelCheck (err, false); indexbuild.EvAnalStart;
        indexbuild.EvAnalStop]) /\
    indexbuild.inbox w2 = indexbuild.inbox (IxSim.callRun IxSim.plain 10).1.2 /\
    indexbuild.ctr w2 = indexbuild.ctr (IxSim.callRun IxSim.plain 10).1.2.
Proof.
  assert (H : IxSim.callRun IxSim.plain 10
              = (Ok (indexbuild.stopped, None),
                 (IxSim.callRun IxSim.plain 10).1.2,
                 (IxSim.callRun IxSim.plain 10).2))
    by (vm_compute; reflexivity).
  split; [exact H|].
  exact (Call_again_after_End (IxSim.E IxSim.plain) (IxSim.arg 10)
           IxSim.start indexbuild.newContainer (IxSim.sender 10) [] _ _ _
           eq_refl eq_refl eq_refl H eq_refl).
Defined.

Lemma collectBuildBatches_returns_batches_witness :
  IxSim.collectRun IxSim.plain 10
  = (Ok tt, (IxSim.collectRun IxSim.plain 10).1.2,
     (IxSim.collectRun IxSim.plain 10).2) /\
  indexbuild.pooled (IxSim.collectRun IxSim.plain 10).2
  = indexbuild.received (IxSim.collectRun IxSim.plain 10).2 /\
  indexbuild.appended (IxSim.collectRun IxSim.plain 10).2
  = List.filter
      (fun b => negb (indexbuild.IsEmpty (IxSim.E IxSim.plain) b))
      (indexbuild.received (IxSim.collectRun IxSim.plain 10).2).
Proof.
  assert (H : IxSim.collectRun IxSim.plain 10
              = (Ok tt, (IxSim.collectRun IxSim.plain 10).1.2,
                 (IxSim.collectRun IxSim.plain 10).2))
    by (vm_compute; reflexivity).
  split; [exact H|].
  exact (collectBuildBatches_returns_batches (IxSim.E IxSim.plain)
           (IxSim.arg 10) true IxSim.start indexbuild.newContainer _ _ _
           eq_refl H).
Defined.

Lemma collectBuildBatches_stops_witness :
  IxSim.collectRun IxSim.plain 1
  = (Ok tt, (IxSim.collectRun IxSim.plain 1).1.2,
     (IxSim.collectRun IxSim.plain 1).2) /\
  suffix (indexbuild.inbox (IxSim.collectRun IxSim.plain 1).1.2)
    IxSim.stream /\
  exists c',
    indexbuild.ctr (IxSim.collectRun IxSim.plain 1).1.2 = Some c' /\
    indexbuild.state c' = indexbuild.ReceiveBatch /\
    indexbuild.isMerge c' = false /\
    ((exists pre a,
        (IxSim.collectRun IxSim.plain 1).2
        = pre ++ [indexbuild.EvReceive a (inl None)]) \/
     (exists b s0 rest,
        indexbuild.ctr_batch c' = Some b /\
        indexbuild.RuntimeFilterSenders (IxSim.arg 1) = s0 :: rest /\
        indexbuild.UpperLimit (indexbuild.Spec s0)
        < Z.of_nat (batch.rowCount b))).
Proof.
  assert (H : IxSim.collectRun IxSim.plain 1
              = (Ok tt, (IxSim.collectRun IxSim.plain 1).1.2,
                 (IxSim.collectRun IxSim.plain 1).2))
    by (vm_compute; reflexivity).
  split; [exact H|].
  exact (collectBuildBatches_stops (IxSim.E IxSim.plain) (IxSim.arg 1) true
           IxSim.start indexbuild.newContainer _ _ eq_refl H).
Defined.

Lemma handleRuntimeFilter_filter_choice_witness :
  In (indexbuild.EvSend 9 IxSim.inFilter) (IxSim.filterRun IxSim.plain 10).2 /\
  9%N = indexbuild.Chan (IxSim.sender 10) /\
  indexbuild.sentFilters (IxSim.filterRun IxSim.plain 10).2
  = [IxSim.inFilter] /\
  indexbuild.Expr (indexbuild.Spec (IxSim.sender 10)) <> None /\
  exists b v,
    Some (IxSim.keys [3; 1; 2]) = Some b /\ (0 < batch.rowCount b)%nat /\
    Z.of_nat (batch.rowCount b)
    <= indexbuild.UpperLimit (indexbuild.Spec (IxSim.sender 10)) /\
    batch.Vecs b = [Some v] /\
    indexbuild.Card IxSim.inFilter
    = indexbuild.int32 (Z.of_nat (length (IxSim.sort v))) /\
    indexbuild.MarshalBinary (IxSim.E IxSim.plain) (IxSim.sort v)
    = inl (indexbuild.Data IxSim.inFilter).
Proof.
  assert (H : IxSim.filterRun IxSim.plain 10
              = ((IxSim.filterRun IxSim.plain 10).1.1,
                 (IxSim.filterRun IxSim.plain 10).1.2,
                 (IxSim.filterRun IxSim.plain 10).2))
    by (vm_compute; reflexivity).
  assert (Hin : In (indexbuild.EvSend 9 IxSim.inFilter)
                  (IxSim.filterRun IxSim.plain 10).2)
    by (vm_compute; left; reflexivity).
  split; [exact Hin|].
  exact (handleRuntimeFilter_filter_choice (IxSim.E IxSim.plain)
           (IxSim.arg 10) IxSim.collected _ (IxSim.sender 10) [] _ _ _ _ _
           eq_refl eq_refl H Hin).
Defined.

Lemma Prepare_sets_receive_mode_of_Call_witness :
  IxSim.prepareRun 10
  = (Ok None, (IxSim.prepareRun 10).1.2, (IxSim.prepareRun 10).2) /\
  @None error = None /\
  indexbuild.inbox (IxSim.prepareRun 10).1.2 = IxSim.stream /\
  (IxSim.prepareRun 10).2 = [indexbuild.EvInitReceiver true] /\
  Forall (indexbuild.receivesIn true) (IxSim.preparedCallRun IxSim.plain 10).2.
Proof.
  assert (H : IxSim.prepareRun 10
              = (Ok None, (IxSim.prepareRun 10).1.2, (IxSim.prepareRun 10).2))
    by (vm_compute; reflexivity).
  assert (H2 : IxSim.preparedCallRun IxSim.plain 10
               = ((IxSim.preparedCallRun IxSim.plain 10).1.1,
                  (IxSim.preparedCallRun IxSim.plain 10).1.2,
                  (IxSim.preparedCallRun IxSim.plain 10).2))
    by (vm_compute; reflexivity).
  split; [exact H|].
  exact (Prepare_sets_receive_mode_of_Call (IxSim.E IxSim.plain)
           (IxSim.arg 10) IxSim.twoReceivers IxSim.unprepared _
           (IxSim.sender 10) [] _ _ _ _ _ eq_refl H H2).
Defined.

Lemma Call_sends_at_most_one_filter_witness :
  indexbuild.ctr IxSim.start = Some indexbuild.newContainer /\
  (length (indexbuild.sentFilters (IxSim.callRun IxSim.plain 10).2) <= 1)%nat.
Proof.
  split; [reflexivity|].
  exact (Call_sends_at_most_one_filter (IxSim.E IxSim.plain) (IxSim.arg 10)
           IxSim.start indexbuild.newContainer (IxSim.sender 10) []
           eq_refl eq_refl).
Defined.
